(** * The archive engine of the backup operator, embedded in Rocq

  The development follows [internal/backup/archive.go]: the storage path
  resolver, the archive entry grammar, the name filters of a backup run,
  the restorer and the retention manager.  Go strings are byte strings
  ([string]), Go maps used as sets are [gset string], directories and the
  cluster's object store are [gmap]s, and a Go [(value, error)] pair is a
  sum type. *)

From Stdlib Require Import ZArith Ascii String List Lia.
From stdpp Require Import gmap strings list fin_maps sorting pretty.

Local Open Scope Z_scope.
#[local] Set Warnings "-clear-no-such-hyp,-register-all".


(** ** The [strings] package, as far as the engine calls it *)

Module GoStrings.

(** [s[n:]] for [n <= len(s)]. *)
Fixpoint sliceFrom (n : nat) (s : string) : string :=
  match n, s with
  | O, _ => s
  | S n', String _ r => sliceFrom n' r
  | S _, EmptyString => EmptyString
  end.

(** [s[:n]] for [n <= len(s)]. *)
Fixpoint sliceTo (n : nat) (s : string) : string :=
  match n, s with
  | O, _ => EmptyString
  | S n', String c r => String c (sliceTo n' r)
  | S _, EmptyString => EmptyString
  end.

(** [strings.HasPrefix]: [len(s) >= len(prefix) && s[:len(prefix)] == prefix]. *)
Fixpoint HasPrefix (s prefix : string) {struct prefix} : bool :=
  match prefix, s with
  | EmptyString, _ => true
  | String p ps, String c cs => if Ascii.eqb c p then HasPrefix cs ps else false
  | String _ _, EmptyString => false
  end.

(** [strings.TrimPrefix]. *)
Definition TrimPrefix (s prefix : string) : string :=
  if HasPrefix s prefix then sliceFrom (String.length prefix) s else s.

(** [strings.HasSuffix]: [len(s) >= len(suffix) && s[len(s)-len(suffix):] == suffix]. *)
Definition HasSuffix (s suffix : string) : bool :=
  (String.length suffix <=? String.length s)%nat
  && String.eqb (sliceFrom (String.length s - String.length suffix) s) suffix.

(** [strings.TrimSuffix]. *)
Definition TrimSuffix (s suffix : string) : string :=
  if HasSuffix s suffix then sliceTo (String.length s - String.length suffix) s else s.

(** [strings.Contains]. *)
Fixpoint Contains (s substr : string) : bool :=
  HasPrefix s substr
  || match s with
     | EmptyString => false
     | String _ r => Contains r substr
     end.

(** [strings.Split(s, sep)] for a one-byte separator: the pieces between
    the separators, [n + 1] of them for [n] separators. *)
Fixpoint Split (s : string) (sep : ascii) : list string :=
  match s with
  | EmptyString => [EmptyString]
  | String c r =>
      if Ascii.eqb c sep then EmptyString :: Split r sep
      else match Split r sep with
           | piece :: pieces => String c piece :: pieces
           | [] => [String c EmptyString]
           end
  end.

(** [strings.Join(elems, sep)]. *)
Definition Join (elems : list string) (sep : string) : string :=
  String.concat sep elems.

Definition isUpper (c : ascii) : bool :=
  let n := nat_of_ascii c in (65 <=? n)%nat && (n <=? 90)%nat.

Definition lowerByte (c : ascii) : ascii :=
  if isUpper c then ascii_of_nat (nat_of_ascii c + 32) else c.

(** [strings.ToLower] on the ASCII range; bytes above 127 are kept. *)
Fixpoint ToLowerASCII (s : string) : string :=
  match s with
  | EmptyString => EmptyString
  | String c r => String (lowerByte c) (ToLowerASCII r)
  end.

Fixpoint trimLeft (s : string) : string :=
  match s with
  | EmptyString => EmptyString
  | String c r => if Ascii.is_space c then trimLeft r else s
  end.

(** [strings.TrimSpace] on the ASCII range: tab, line feed, vertical tab,
    form feed, carriage return and space are cut from both ends. *)
Definition TrimSpaceASCII (s : string) : string :=
  String.rev (trimLeft (String.rev (trimLeft s))).

End GoStrings.

(** ** The [path/filepath] package on Unix *)

Module Filepath.
Import GoStrings.

Definition Separator : ascii := "/"%char.

(** One path element read by [Clean]; [out] holds the elements written so
    far, last one first.  A [..] element removes the last real element; at
    the root it is dropped, and in a relative path it is kept once nothing
    is left to remove. *)
Definition cleanStep (rooted : bool) (out : list string) (elem : string) : list string :=
  if decide (elem = "") then out
  else if decide (elem = ".") then out
  else if decide (elem = "..") then
    match out with
    | last :: before => if decide (last = "..") then ".." :: out else before
    | [] => if rooted then [] else [".."]
    end
  else elem :: out.

Definition cleanElems (rooted : bool) (elems : list string) : list string :=
  rev (fold_left (cleanStep rooted) elems []).

(** [filepath.Clean]. *)
Definition Clean (path : string) : string :=
  if decide (path = "") then "."
  else
    let rooted := HasPrefix path "/" in
    let out := cleanElems rooted (Split path Separator) in
    if rooted then "/" +:+ Join out "/"
    else match out with
         | [] => "."
         | _ => Join out "/"
         end.

Fixpoint skipEmpty (elem : list string) : list string :=
  match elem with
  | e :: rest => if decide (e = "") then skipEmpty rest else elem
  | [] => []
  end.

(** [filepath.Join]: the elements from the first non-empty one on, joined
    by the separator and cleaned. *)
Definition Join (elem : list string) : string :=
  match skipEmpty elem with
  | [] => ""
  | es => Clean (GoStrings.Join es "/")
  end.

(** A path element that [Clean] keeps as it is: not empty, not [.] or [..],
    and free of separators. *)
Definition isElem (e : string) : bool :=
  negb (String.eqb e "") && negb (String.eqb e ".") && negb (String.eqb e "..")
  && negb (Contains e "/").

(** The rooted path with the given elements. *)
Definition absPath (elems : list string) : string := "/" +:+ GoStrings.Join elems "/".

(** The elements [Rel] walks over in a cleaned path: none for the empty
    path, the single empty element before the separator for the root. *)
Definition relElems (path : string) : list string :=
  if decide (path = "") then []
  else if decide (path = "/") then [""]
  else Split path Separator.

(** The first differing elements of two paths, and what follows them. *)
Fixpoint dropCommon (base targ : list string) : list string * list string :=
  match base, targ with
  | b :: base', t :: targ' =>
      if decide (t = b) then dropCommon base' targ' else (base, targ)
  | _, _ => (base, targ)
  end.

(** [filepath.Rel]; [None] is its error ([Rel: can't make ... relative to ...]). *)
Definition Rel (basepath targpath : string) : option string :=
  let base := Clean basepath in
  let targ := Clean targpath in
  if decide (targ = base) then Some "."
  else
    let base := if decide (base = ".") then "" else base in
    if negb (eqb (HasPrefix base "/") (HasPrefix targ "/")) then None
    else
      match dropCommon (relElems base) (relElems targ) with
      | ([], rest) => Some (GoStrings.Join rest "/")
      | (b0 :: more, rest) =>
          if decide (b0 = "..") then None
          else Some (GoStrings.Join (map (fun _ => "..") (b0 :: more) ++ rest) "/")
      end.

(** [filepath.ToSlash]: the separator is already a slash. *)
Definition ToSlash (path : string) : string := path.

End Filepath.

(** ** Storage path resolver *)

Definition nodeTmp : string := "/tmp".

(** [resolveStoragePath]. *)
Definition resolveStoragePath (storagePath : string) : string :=
if GoStrings.HasPrefix storagePath "host://" then
  let hostPath := GoStrings.TrimPrefix storagePath "host://" in
  let hostPath := Filepath.Clean ("/" +:+ GoStrings.TrimPrefix hostPath "/") in
  if decide (hostPath = "/") then nodeTmp
  else if GoStrings.HasPrefix hostPath nodeTmp then
    let suffix := GoStrings.TrimPrefix hostPath nodeTmp in
    Filepath.Join [nodeTmp; GoStrings.TrimPrefix suffix "/"]
  else Filepath.Join [nodeTmp; GoStrings.TrimPrefix hostPath "/"]
else storagePath.

(** ** Archive entry paths *)

(** [schema.GroupVersionResource]. *)
Record GroupVersionResource : Type := mkGVR {
  Group : string;
  Version : string;
  Resource : string
}.

Global Instance GroupVersionResource_eq_dec : EqDecision GroupVersionResource.
Proof. solve_decision. Defined.

(** The directory [backupResource] stages the objects of one resource type
    in; the empty namespace stands for the cluster scope. *)
Definition resourceDir (tempDir : string) (gvr : GroupVersionResource) (namespace : string) : string :=
  if decide (namespace <> "") then
    Filepath.Join [tempDir; "namespaces"; namespace; Group gvr; Version gvr; Resource gvr]
  else
    Filepath.Join [tempDir; "cluster"; Group gvr; Version gvr; Resource gvr].

(** The file [backupResource] writes one object to. *)
Definition resourceFile (tempDir : string) (gvr : GroupVersionResource) (namespace name : string) : string :=
  Filepath.Join [resourceDir tempDir gvr namespace; name +:+ ".json"].

(** The header name [createArchive] gives that file: its path relative to
    the staging directory. *)
Definition archiveEntryName (tempDir : string) (gvr : GroupVersionResource) (namespace name : string) : option string :=
  Filepath.Rel tempDir (resourceFile tempDir gvr namespace name).

(** The errors of [parseArchiveEntry]. *)
Inductive ParseError : Type :=
| MalformedPath
| MissingResourceName
| UnexpectedClusterFormat
| UnexpectedNamespacedFormat
| UnrecognisedPrefix (prefix : string).

(** The [switch len(remainder)] of both scopes. *)
Definition parseRemainder (remainder : list string) : option GroupVersionResource :=
  match remainder with
  | [version; resource] => Some (mkGVR "" version resource)
  | [group; version; resource] => Some (mkGVR group version resource)
  | _ => None
  end.

(** [parseArchiveEntry]. *)
Definition parseArchiveEntry (path : string) : ParseError + (GroupVersionResource * string * string) :=
  let clean := Filepath.ToSlash (Filepath.Clean path) in
  let parts := GoStrings.Split clean "/" in
  if (length parts <? 2)%nat then inl MalformedPath
  else
    let name := GoStrings.TrimSuffix (List.last parts "") ".json" in
    if decide (name = "") then inl MissingResourceName
    else
      let dirParts := removelast parts in
      match dirParts with
      | [] => inl MalformedPath
      | prefix :: rest =>
          if decide (prefix = "cluster") then
            let remainder := rest in
            match parseRemainder remainder with
            | Some gvr => inr (gvr, "", name)
            | None => inl UnexpectedClusterFormat
            end
          else if decide (prefix = "namespaces") then
            if (length dirParts <? 3)%nat then inl UnexpectedNamespacedFormat
            else
              match rest with
              | namespace :: remainder =>
                  match parseRemainder remainder with
                  | Some gvr => inr (gvr, namespace, name)
                  | None => inl UnexpectedNamespacedFormat
                  end
              | [] => inl UnexpectedNamespacedFormat
              end
          else inl (UnrecognisedPrefix prefix)
      end.

(** The entry path as the archive layout spells it:
    [cluster/<group?>/<version>/<resource>/<name>.json] and
    [namespaces/<namespace>/<group?>/<version>/<resource>/<name>.json], the
    group segment left out for the core group. *)
Definition grammarElems (gvr : GroupVersionResource) (namespace name : string) : list string :=
  (if decide (namespace = "") then ["cluster"] else ["namespaces"; namespace])
  ++ (if decide (Group gvr = "") then [] else [Group gvr])
  ++ [Version gvr; Resource gvr; name +:+ ".json"].

Definition grammarPath (gvr : GroupVersionResource) (namespace name : string) : string :=
  GoStrings.Join (grammarElems gvr namespace name) "/".

(** ** Name filters of a backup run *)

(** [contains]: the slice holds the item. *)
Fixpoint contains (slice : list string) (item : string) : bool :=
  match slice with
  | [] => false
  | s :: rest => if decide (s = item) then true else contains rest item
  end.

(** [makeStringSet]: the normalized values that are not empty.  A nil map
    and an empty map read the same ([len] is 0, every lookup misses), so
    both are the empty set. *)
Definition makeStringSet (values : list string) (normalize : option (string -> string)) : gset string :=
  foldl (fun set value =>
           let value := match normalize with
                        | Some f => f value
                        | None => value
                        end in
           if decide (value = "") then set else {[ value ]} ∪ set)
        ∅ values.

(** [metav1.APIResource], the fields the engine reads. *)
Record APIResource : Type := mkAPIResource {
  Name : string;
  Namespaced : bool;
  Kind : string;
  Verbs : list string
}.

(** [metav1.APIResourceList]. *)
Record APIResourceList : Type := mkAPIResourceList {
  GroupVersion : string;
  APIResources : list APIResource
}.

(** [BackupOptions]. *)
Record BackupOptions : Type := mkBackupOptions {
  IncludeNamespaces : list string;
  ExcludeNamespaces : list string;
  IncludeClusterResources : bool;
  ResourceTypes : list string
}.

(** [schema.ParseGroupVersion]: [version], [group/version], and nothing
    for the empty string and for a lone slash; more than one slash is an
    error. *)
Definition ParseGroupVersion (gv : string) : option (string * string) :=
  if decide (gv = "") then Some ("", "")
  else if decide (gv = "/") then Some ("", "")
  else match GoStrings.Split gv "/" with
       | [version] => Some ("", version)
       | [group; version] => Some (group, version)
       | _ => None
       end.

(** The exclusions as the resolver reads them off the options: every
    entry trimmed, the empty ones dropped. *)
Definition trimmedExcludes (TrimSpace : string -> string) (opts : BackupOptions) : gset string :=
  list_to_set (filter (fun e => e <> "") (TrimSpace <$> ExcludeNamespaces opts)).

(** ** Objects and the dynamic client *)

(** A decoded JSON document, as [encoding/json] stores it in an
    [interface{}]; a number keeps its literal. *)
Inductive JSON : Type :=
| JNull
| JBool (b : bool)
| JNumber (literal : string)
| JString (s : string)
| JArray (items : list JSON)
| JObject (fields : gmap string JSON).

(** The content of an [unstructured.Unstructured]. *)
Abbreviation Object := (gmap string JSON).

(** [obj["metadata"]] as a map, empty when it is missing or no map. *)
Definition metadataOf (obj : Object) : gmap string JSON :=
  match obj !! "metadata" with
  | Some (JObject m) => m
  | _ => ∅
  end.

(** [unstructured.NestedString(obj, "metadata", field)], the empty string
    when the field is missing or no string. *)
Definition metadataString (obj : Object) (field : string) : string :=
  match obj !! "metadata" with
  | Some (JObject m) =>
      match m !! field with
      | Some (JString s) => s
      | _ => ""
      end
  | _ => ""
  end.

Definition GetName (obj : Object) : string := metadataString obj "name".
Definition GetNamespace (obj : Object) : string := metadataString obj "namespace".
Definition GetResourceVersion (obj : Object) : string := metadataString obj "resourceVersion".

(** [unstructured.SetNestedField(obj, value, "metadata", field)] with its
    error dropped, as the setters of [Unstructured] do: a missing
    [metadata] is created, one that is no map is left alone. *)
Definition setMetadataString (obj : Object) (field value : string) : Object :=
  match obj !! "metadata" with
  | Some (JObject m) => <["metadata" := JObject (<[field := JString value]> m)]> obj
  | Some _ => obj
  | None => <["metadata" := JObject {[ field := JString value ]}]> obj
  end.

(** [unstructured.RemoveNestedField(obj, "metadata", field)]. *)
Definition removeMetadataField (obj : Object) (field : string) : Object :=
  match obj !! "metadata" with
  | Some (JObject m) => <["metadata" := JObject (delete field m)]> obj
  | _ => obj
  end.

(** [SetNamespace] and [SetResourceVersion]: the empty string removes the
    field. *)
Definition SetNamespace (obj : Object) (namespace : string) : Object :=
  if decide (namespace = "") then removeMetadataField obj "namespace"
  else setMetadataString obj "namespace" namespace.

Definition SetResourceVersion (obj : Object) (version : string) : Object :=
  if decide (version = "") then removeMetadataField obj "resourceVersion"
  else setMetadataString obj "resourceVersion" version.

(** The errors of the API server, as far as the engine tells them apart:
    [apierrors.IsAlreadyExists] and the rest. *)
Inductive APIError : Type :=
| AlreadyExists
| NotFound
| Conflict
| ServerError (message : string).

Definition IsAlreadyExists (err : APIError) : bool :=
  match err with
  | AlreadyExists => true
  | _ => false
  end.

(** [dynamic.Interface]: the four requests the engine sends, each with the
    coordinate and the namespace of [Resource(gvr).Namespace(ns)] (empty for
    the cluster scope).  [W] is the world a request runs in: the server's
    state and whatever else the implementation keeps. *)
Class DynamicClient (W : Type) : Type := {
  clientList : GroupVersionResource -> string -> W -> (APIError + list Object) * W;
  clientCreate : GroupVersionResource -> string -> Object -> W -> (APIError + Object) * W;
  clientGet : GroupVersionResource -> string -> string -> W -> (APIError + Object) * W;
  clientUpdate : GroupVersionResource -> string -> Object -> W -> (APIError + Object) * W
}.

Definition namespacesGVR : GroupVersionResource := mkGVR "" "v1" "namespaces".

Section backup_run.
(** [strings.ToLower] and [strings.TrimSpace]. *)
Variables ToLower TrimSpace : string -> string.
Context {W : Type} `{!DynamicClient W}.

(** [getNamespacesToBackup]. *)
Definition getNamespacesToBackup (opts : BackupOptions) (w : W) : (APIError + list string) * W :=
  if (0 <? length (IncludeNamespaces opts))%nat then (inr (IncludeNamespaces opts), w)
  else
    match clientList namespacesGVR "" w with
    | (inl err, w') => (inl err, w')
    | (inr items, w') =>
        let excludeSet := makeStringSet (ExcludeNamespaces opts) (Some TrimSpace) in
        (inr (List.filter
                (fun ns => negb ((0 <? size excludeSet)%nat && bool_decide (ns ∈ excludeSet)))
                (map GetName items)),
         w')
    end.

(** The three guards [CreateBackup] puts before a resource type: no
    subresource, listable, and of a kind the filter holds when the filter
    is not empty. *)
Definition eligible (resourceTypeFilter : gset string) (apiResource : APIResource) : bool :=
  negb (GoStrings.Contains (Name apiResource) "/")
  && contains (Verbs apiResource) "list"
  && (if (0 <? size resourceTypeFilter)%nat
      then bool_decide (ToLower (Kind apiResource) ∈ resourceTypeFilter)
      else true).

(** The filter [CreateBackup] builds from the options. *)
Definition resourceTypeFilterOf (opts : BackupOptions) : gset string :=
  makeStringSet (ResourceTypes opts) (Some (fun s => ToLower (TrimSpace s))).

(** The state of the collection loop: the namespaces once loaded, the world,
    and the [backupResource] calls made so far, latest first. *)
Record LoopState : Type := mkLoopState {
  namespaces : option (list string);
  world : W;
  captured : list (GroupVersionResource * string)
}.

(** The request of one [backupResource] call. *)
Definition backupResourceRequest (gvr : GroupVersionResource) (namespace : string) (w : W) : W :=
  snd (clientList gvr namespace w).

(** One resource type of the inner loop; [inl] is the return on a failed
    namespace listing. *)
Definition collectResource (opts : BackupOptions) (gv : string * string)
    (st : LoopState) (apiResource : APIResource) : APIError + LoopState :=
  if negb (eligible (resourceTypeFilterOf opts) apiResource) then inr st
  else
    let gvr := mkGVR (fst gv) (snd gv) (Name apiResource) in
    if Namespaced apiResource then
      let loaded :=
        match namespaces st with
        | Some nss => (inr nss, world st)
        | None => getNamespacesToBackup opts (world st)
        end in
      match loaded with
      | (inl err, _) => inl err
      | (inr nss, w) =>
          inr (foldl (fun st ns =>
                        mkLoopState (namespaces st)
                          (backupResourceRequest gvr ns (world st))
                          ((gvr, ns) :: captured st))
                     (mkLoopState (Some nss) w (captured st)) nss)
      end
    else if IncludeClusterResources opts then
      inr (mkLoopState (namespaces st)
             (backupResourceRequest gvr "" (world st))
             ((gvr, "") :: captured st))
    else inr st.

Fixpoint collectResources (opts : BackupOptions) (gv : string * string)
    (st : LoopState) (apiResources : list APIResource) : APIError + LoopState :=
  match apiResources with
  | [] => inr st
  | r :: rest =>
      match collectResource opts gv st r with
      | inl err => inl err
      | inr st' => collectResources opts gv st' rest
      end
  end.

(** The collection loop of [CreateBackup] over the discovered lists; a list
    whose group and version do not parse is skipped. *)
Fixpoint collectLists (opts : BackupOptions) (st : LoopState)
    (apiResourceLists : list APIResourceList) : APIError + LoopState :=
  match apiResourceLists with
  | [] => inr st
  | l :: rest =>
      match ParseGroupVersion (GroupVersion l) with
      | None => collectLists opts st rest
      | Some gv =>
          match collectResources opts gv st (APIResources l) with
          | inl err => inl err
          | inr st' => collectLists opts st' rest
          end
      end
  end.

(** The [backupResource] calls of a [CreateBackup] run, in order. *)
Definition CreateBackup_calls (opts : BackupOptions) (apiResourceLists : list APIResourceList)
    (w : W) : APIError + list (GroupVersionResource * string) :=
  match collectLists opts (mkLoopState None w []) apiResourceLists with
  | inl err => inl err
  | inr st => inr (rev (captured st))
  end.

End backup_run.

(** ** The restorer *)

(** [archivedResource]. *)
Record archivedResource : Type := mkArchived {
  gvr : GroupVersionResource;
  namespace : string;
  object : Object
}.

(** [ensureMetadata].  The map it is handed is [None] for a nil map, which
    the body [null] decodes to: reading a nil map finds nothing, and the
    assignment of a fresh [metadata] to it panics.  The writes through
    [metaObj] land in the object, since [metaObj] is the map the object
    holds. *)
Inductive Outcome (E A : Type) : Type :=
| Returns (a : A)
| Fails (err : E)
| Panics.
Arguments Returns {E A} a.
Arguments Fails {E A} err.
Arguments Panics {E A}.

Definition ensureMetadata (obj : option Object) (name namespace : string) : Outcome unit Object :=
  match obj with
  | None => Panics
  | Some obj =>
      let metaObj := match obj !! "metadata" with
                     | Some (JObject m) => m
                     | _ => ∅
                     end in
      let name := match metaObj !! "name" with
                  | Some (JString existingName) =>
                      if decide (existingName <> "") then existingName else name
                  | _ => name
                  end in
      if decide (name = "") then Fails ()
      else
        let metaObj := <["name" := JString name]> metaObj in
        let metaObj := if decide (namespace <> "")
                       then <["namespace" := JString namespace]> metaObj
                       else metaObj in
        Returns (<["metadata" := JObject metaObj]> obj)
  end.

(** The data of a tar entry as the restorer reads it: [io.ReadAll] may
    fail, and the bytes may be no JSON text ([None]). *)
Inductive EntryData : Type :=
| Unreadable
| Bytes (parsed : option JSON).

(** What [tarReader.Next] yields: a header with the entry's data, or an
    error; the end of the list is [io.EOF]. *)
Inductive TarItem : Type :=
| Entry (regular : bool) (name : string) (data : EntryData)
| StreamError.

(** A file at the destination: a gzip stream holding a tar stream, or
    something [gzip.NewReader] refuses. *)
Inductive ArchiveFile : Type :=
| NotGzip
| Gzip (items : list TarItem).

(** [json.Unmarshal(data, &obj)] for [obj map[string]interface{}]: an object
    fills the map, [null] leaves it nil, any other value is an error. *)
Definition unmarshalObject (parsed : option JSON) : option (option Object) :=
  match parsed with
  | Some (JObject fields) => Some (Some fields)
  | Some JNull => Some None
  | _ => None
  end.

(** The errors [RestoreBackup] returns. *)
Inductive RestoreError : Type :=
| ArchiveNameMissing
| OpenFailed
| GzipFailed
| ReadArchiveFailed
| ParseEntryFailed (name : string) (err : ParseError)
| ReadDataFailed (name : string)
| UnmarshalFailed (name : string)
| MetadataFailed (name : string)
| CreateFailed (err : APIError)
| FetchFailed (err : APIError)
| UpdateFailed (err : APIError).

(** One turn of the reading loop of [RestoreBackup], up to the resource it
    builds; [Returns None] is a [continue]. *)
Definition readEntry (item : TarItem) : Outcome RestoreError (option archivedResource) :=
  match item with
  | StreamError => Fails ReadArchiveFailed
  | Entry regular name data =>
      if negb regular then Returns None
      else if negb (GoStrings.HasSuffix name ".json") then Returns None
      else
        match parseArchiveEntry name with
        | inl err => Fails (ParseEntryFailed name err)
        | inr (gvr, namespace, objName) =>
            match data with
            | Unreadable => Fails (ReadDataFailed name)
            | Bytes parsed =>
                match unmarshalObject parsed with
                | None => Fails (UnmarshalFailed name)
                | Some obj =>
                    match ensureMetadata obj objName namespace with
                    | Panics => Panics
                    | Fails _ => Fails (MetadataFailed name)
                    | Returns obj => Returns (Some (mkArchived gvr namespace obj))
                    end
                end
            end
        end
  end.

(** The reading loop of [RestoreBackup]: the cluster-scoped and the
    namespaced resources, each in archive order. *)
Fixpoint readArchive (items : list TarItem)
    (clusterResources namespacedResources : list archivedResource)
    : Outcome RestoreError (list archivedResource * list archivedResource) :=
  match items with
  | [] => Returns (clusterResources, namespacedResources)
  | item :: rest =>
      match readEntry item with
      | Panics => Panics
      | Fails err => Fails err
      | Returns None => readArchive rest clusterResources namespacedResources
      | Returns (Some resource) =>
          if decide (namespace resource = "") then
            readArchive rest (clusterResources ++ [resource]) namespacedResources
          else
            readArchive rest clusterResources (namespacedResources ++ [resource])
      end
  end.

Section restore.
Context {W : Type} `{!DynamicClient W}.

(** One turn of the applying loop: create, and on [AlreadyExists] fetch the
    live object, take over its resource version and update. *)
Definition applyResource (res : archivedResource) (w : W) : (RestoreError + unit) * W :=
  let obj := object res in
  let obj := if decide (namespace res <> "") then SetNamespace obj (namespace res) else obj in
  match clientCreate (gvr res) (namespace res) obj w with
  | (inr _, w) => (inr (), w)
  | (inl err, w) =>
      if negb (IsAlreadyExists err) then (inl (CreateFailed err), w)
      else
        match clientGet (gvr res) (namespace res) (GetName obj) w with
        | (inl getErr, w) => (inl (FetchFailed getErr), w)
        | (inr existing, w) =>
            let obj := SetResourceVersion obj (GetResourceVersion existing) in
            match clientUpdate (gvr res) (namespace res) obj w with
            | (inl err, w) => (inl (UpdateFailed err), w)
            | (inr _, w) => (inr (), w)
            end
        end
  end.

(** The applying loop over the resources in order; [applied] counts the
    turns that went through. *)
Fixpoint applyResources (resources : list archivedResource) (applied : nat) (w : W)
    : (RestoreError + nat) * W :=
  match resources with
  | [] => (inr applied, w)
  | res :: rest =>
      match applyResource res w with
      | (inl err, w) => (inl err, w)
      | (inr _, w) => applyResources rest (S applied) w
      end
  end.

(** [RestoreBackup]; [files] are the files of the file system by path. *)
Definition RestoreBackup (files : gmap string ArchiveFile) (storagePath archiveName : string)
    (w : W) : Outcome RestoreError nat * W :=
  if decide (archiveName = "") then (Fails ArchiveNameMissing, w)
  else
    let resolvedStoragePath := resolveStoragePath storagePath in
    let archivePath := Filepath.Join [resolvedStoragePath; archiveName] in
    match files !! archivePath with
    | None => (Fails OpenFailed, w)
    | Some NotGzip => (Fails GzipFailed, w)
    | Some (Gzip items) =>
        match readArchive items [] [] with
        | Panics => (Panics, w)
        | Fails err => (Fails err, w)
        | Returns (clusterResources, namespacedResources) =>
            match applyResources (clusterResources ++ namespacedResources) 0 w with
            | (inl err, w) => (Fails err, w)
            | (inr applied, w) => (Returns applied, w)
            end
        end
    end.

End restore.

(** ** An API server in memory *)

Global Instance GroupVersionResource_countable : Countable GroupVersionResource.
Proof.
  refine (inj_countable' (fun g => (Group g, Version g, Resource g))
            (fun t => mkGVR t.1.1 t.1.2 t.2) _).
  by intros [].
Defined.

(** The requests the server has seen. *)
Inductive Request : Type :=
| ListRequest (gvr : GroupVersionResource) (namespace : string)
| CreateRequest (gvr : GroupVersionResource) (namespace name : string)
| GetRequest (gvr : GroupVersionResource) (namespace name : string)
| UpdateRequest (gvr : GroupVersionResource) (namespace name : string).

(** The objects by coordinate, namespace and name, the revision counter the
    resource versions come from, and the requests so far, latest first. *)
Record Store : Type := mkStore {
  objects : gmap (GroupVersionResource * string * string) Object;
  revision : N;
  requests : list Request
}.

Definition logRequest (r : Request) (st : Store) : Store :=
  mkStore (objects st) (revision st) (r :: requests st).

(** Writing an object stamps it with the next revision. *)
Definition writeObject (key : GroupVersionResource * string * string) (obj : Object) (st : Store)
    : Object * Store :=
  let rev := (revision st + 1)%N in
  let obj := setMetadataString obj "resourceVersion" (pretty rev) in
  (obj, mkStore (<[key := obj]> (objects st)) rev (requests st)).

Definition namespaceExists (ns : string) (st : Store) : bool :=
  bool_decide (is_Some (objects st !! (namespacesGVR, "", ns))).

Definition storeList (gvr : GroupVersionResource) (ns : string) (st : Store)
    : (APIError + list Object) * Store :=
  let st := logRequest (ListRequest gvr ns) st in
  (inr (snd <$> List.filter
          (fun kv : (GroupVersionResource * string * string) * Object =>
             bool_decide (kv.1.1.1 = gvr)
             && (bool_decide (ns = "") || bool_decide (kv.1.1.2 = ns)))
          (map_to_list (objects st))),
   st).

(** Creation: the object needs a name, a namespaced object needs its
    namespace to exist, and a key that is taken is [AlreadyExists]. *)
Definition storeCreate (gvr : GroupVersionResource) (ns : string) (obj : Object) (st : Store)
    : (APIError + Object) * Store :=
  let name := GetName obj in
  let st := logRequest (CreateRequest gvr ns name) st in
  if decide (name = "") then (inl (ServerError "name is required"), st)
  else if negb (bool_decide (ns = "")) && negb (namespaceExists ns st) then (inl NotFound, st)
  else
    match objects st !! (gvr, ns, name) with
    | Some _ => (inl AlreadyExists, st)
    | None => let (created, st) := writeObject (gvr, ns, name) obj st in (inr created, st)
    end.

Definition storeGet (gvr : GroupVersionResource) (ns name : string) (st : Store)
    : (APIError + Object) * Store :=
  let st := logRequest (GetRequest gvr ns name) st in
  match objects st !! (gvr, ns, name) with
  | Some live => (inr live, st)
  | None => (inl NotFound, st)
  end.

(** Update: the object must exist, and a resource version that is given
    must be the live one. *)
Definition storeUpdate (gvr : GroupVersionResource) (ns : string) (obj : Object) (st : Store)
    : (APIError + Object) * Store :=
  let name := GetName obj in
  let st := logRequest (UpdateRequest gvr ns name) st in
  match objects st !! (gvr, ns, name) with
  | None => (inl NotFound, st)
  | Some live =>
      if negb (bool_decide (GetResourceVersion obj = ""))
         && negb (bool_decide (GetResourceVersion obj = GetResourceVersion live))
      then (inl Conflict, st)
      else let (updated, st) := writeObject (gvr, ns, name) obj st in (inr updated, st)
  end.

Global Instance storeClient : DynamicClient Store := {
  clientList := storeList;
  clientCreate := storeCreate;
  clientGet := storeGet;
  clientUpdate := storeUpdate
}.

(** ** The retention manager *)

(** A directory entry: whether it is a directory, its modification time in
    nanoseconds ([None] when [Info] fails), and whether [os.Remove] is
    refused for it. *)
Record DirEntry : Type := mkDirEntry {
  IsDir : bool;
  ModTime : option Z;
  Locked : bool
}.

(** What a path of the file system holds for [os.ReadDir]: a directory
    with its entries by name, or something that cannot be read as one.  A
    path that is not in the map does not exist. *)
Inductive Node : Type :=
| NotReadable
| Directory (entries : gmap string DirEntry).

Abbreviation FileSystem := (gmap string Node).

Inductive ReadDirError : Type :=
| ErrNotExist
| ErrOther.

Definition byName (a b : string * DirEntry) : Prop := String.le a.1 b.1.

Global Instance byName_dec : RelDecision byName.
Proof. intros a b. unfold byName. apply _. Defined.

(** [os.ReadDir]: the entries of the directory, sorted by file name. *)
Definition ReadDir (fs : FileSystem) (path : string)
    : ReadDirError + list (string * DirEntry) :=
  match fs !! path with
  | None => inl ErrNotExist
  | Some NotReadable => inl ErrOther
  | Some (Directory entries) => inr (merge_sort byName (map_to_list entries))
  end.

(** [os.Remove(filepath.Join(dir, name))] for an entry [name] read from
    [dir]: the joined path names that entry of that directory. *)
Definition Remove (fs : FileSystem) (dir name : string) : (ReadDirError + unit) * FileSystem :=
  match fs !! dir with
  | Some (Directory entries) =>
      match entries !! name with
      | None => (inl ErrNotExist, fs)
      | Some e =>
          if Locked e then (inl ErrOther, fs)
          else (inr (), <[dir := Directory (delete name entries)]> fs)
      end
  | _ => (inl ErrNotExist, fs)
  end.

Definition isArchiveName (name : string) : bool :=
  GoStrings.HasPrefix name "cluster-backup-" && GoStrings.HasSuffix name ".tar.gz".

(** The entries the collecting loop keeps: no directory, and named as an
    archive. *)
Definition isArchiveFile (f : string * DirEntry) : Prop :=
  IsDir f.2 = false /\ isArchiveName f.1 = true.

Global Instance isArchiveFile_dec (f : string * DirEntry) : Decision (isArchiveFile f).
Proof. unfold isArchiveFile. apply _. Defined.

(** The archive files among the entries, sorted by name. *)
Definition archiveFiles (entries : list (string * DirEntry)) : list (string * DirEntry) :=
  merge_sort byName (filter isArchiveFile entries).

(** 64-bit two's complement. *)
Definition wrap64 (z : Z) : Z := (z + 2 ^ 63) mod 2 ^ 64 - 2 ^ 63.

(** [time.Hour], in nanoseconds. *)
Definition Hour : Z := 3600000000000.

(** [time.Now().Add(-time.Duration(retentionDays) * 24 * time.Hour)]: the
    duration is an [int64] and each operation on it wraps around. *)
Definition cutoffTime (now retentionDays : Z) : Z :=
  now + wrap64 (wrap64 (wrap64 (- retentionDays) * 24) * Hour).

Inductive CleanupError : Type :=
| ReadStorageFailed
| RemoveExpiredFailed (name : string)
| ReadForMaxFailed
| EnforceMaxFailed (name : string).

(** The age phase: every archive file whose modification time is before
    the cutoff is removed; one whose time is unknown is passed over. *)
Fixpoint removeExpired (fs : FileSystem) (dir : string) (cutoff : Z)
    (files : list (string * DirEntry)) : (CleanupError + unit) * FileSystem :=
  match files with
  | [] => (inr (), fs)
  | f :: rest =>
      match ModTime f.2 with
      | None => removeExpired fs dir cutoff rest
      | Some modTime =>
          if modTime <? cutoff then
            match Remove fs dir f.1 with
            | (inl ErrOther, fs) => (inl (RemoveExpiredFailed f.1), fs)
            | (_, fs) => removeExpired fs dir cutoff rest
            end
          else removeExpired fs dir cutoff rest
      end
  end.

(** The count phase's loop [for i := 0; i < toDelete; i++] over [files[i]],
    [files] being what is left from index [i] on: running out of files is
    an index out of range. *)
Fixpoint removeOldest (fs : FileSystem) (dir : string) (toDelete : nat)
    (files : list (string * DirEntry)) : Outcome CleanupError unit * FileSystem :=
  match toDelete with
  | O => (Returns (), fs)
  | S toDelete' =>
      match files with
      | [] => (Panics, fs)
      | f :: rest =>
          match Remove fs dir f.1 with
          | (inl ErrOther, fs) => (Fails (EnforceMaxFailed f.1), fs)
          | (_, fs) => removeOldest fs dir toDelete' rest
          end
      end
  end.

(** [CleanupArchives]; [now] is the reading of the clock, [None] a nil
    pointer. *)
Definition CleanupArchives (now : Z) (fs : FileSystem) (storagePath : string)
    (retentionDays maxArchives : option Z) : Outcome CleanupError unit * FileSystem :=
  let resolvedStoragePath := resolveStoragePath storagePath in
  match ReadDir fs resolvedStoragePath with
  | inl ErrNotExist => (Returns (), fs)
  | inl ErrOther => (Fails ReadStorageFailed, fs)
  | inr entries =>
      let files := archiveFiles entries in
      let aged :=
        match retentionDays with
        | None => (inr (), fs)
        | Some days => removeExpired fs resolvedStoragePath (cutoffTime now days) files
        end in
      match aged with
      | (inl err, fs) => (Fails err, fs)
      | (inr _, fs) =>
          match maxArchives with
          | None => (Returns (), fs)
          | Some maxArchives =>
              match ReadDir fs resolvedStoragePath with
              | inl _ => (Fails ReadForMaxFailed, fs)
              | inr entries =>
                  let files := archiveFiles entries in
                  if maxArchives <? Z.of_nat (length files) then
                    let toDelete := wrap64 (Z.of_nat (length files) - maxArchives) in
                    removeOldest fs resolvedStoragePath (Z.to_nat toDelete) files
                  else (Returns (), fs)
              end
          end
      end
  end.

(** ** The earlier variant of the engine

    The file holds an earlier variant of the engine before the present one.
    It resolves host paths below [/host-mounts] with a plain [filepath.Join],
    compares filter entries as they are, returns the error of the first
    [os.ReadDir] whatever it is, and drops the results of [os.Remove]. *)
Module Legacy.

(** The resolution at the head of [createArchive] and [CleanupArchives]. *)
Definition resolve (storagePath : string) : string :=
  if GoStrings.HasPrefix storagePath "host://" then
    let hostPath := GoStrings.TrimPrefix storagePath "host://" in
    let hostPath := GoStrings.TrimPrefix hostPath "/" in
    Filepath.Join ["/host-mounts"; hostPath]
  else storagePath.

(** The guards of [CreateBackup]. *)
Definition eligible (resourceTypes : list string) (apiResource : APIResource) : bool :=
  negb (GoStrings.Contains (Name apiResource) "/")
  && contains (Verbs apiResource) "list"
  && negb ((0 <? length resourceTypes)%nat
           && negb (contains resourceTypes (Kind apiResource))).

(** [getNamespacesToBackup]. *)
Definition getNamespacesToBackup {W : Type} `{!DynamicClient W}
    (opts : BackupOptions) (w : W) : (APIError + list string) * W :=
  if (0 <? length (IncludeNamespaces opts))%nat then (inr (IncludeNamespaces opts), w)
  else
    match clientList namespacesGVR "" w with
    | (inl err, w') => (inl err, w')
    | (inr items, w') =>
        (inr (List.filter (fun ns => negb (contains (ExcludeNamespaces opts) ns))
                (map GetName items)),
         w')
    end.

Fixpoint removeExpired (fs : FileSystem) (dir : string) (cutoff : Z)
    (files : list (string * DirEntry)) : FileSystem :=
  match files with
  | [] => fs
  | f :: rest =>
      match ModTime f.2 with
      | None => removeExpired fs dir cutoff rest
      | Some modTime =>
          if modTime <? cutoff then removeExpired (Remove fs dir f.1).2 dir cutoff rest
          else removeExpired fs dir cutoff rest
      end
  end.

Fixpoint removeOldest (fs : FileSystem) (dir : string) (toDelete : nat)
    (files : list (string * DirEntry)) : Outcome CleanupError unit * FileSystem :=
  match toDelete with
  | O => (Returns (), fs)
  | S toDelete' =>
      match files with
      | [] => (Panics, fs)
      | f :: rest => removeOldest (Remove fs dir f.1).2 dir toDelete' rest
      end
  end.

(** [CleanupArchives]. *)
Definition CleanupArchives (now : Z) (fs : FileSystem) (storagePath : string)
    (retentionDays maxArchives : option Z) : Outcome CleanupError unit * FileSystem :=
  let resolvedStoragePath := resolve storagePath in
  match ReadDir fs resolvedStoragePath with
  | inl _ => (Fails ReadStorageFailed, fs)
  | inr entries =>
      let files := archiveFiles entries in
      let fs :=
        match retentionDays with
        | None => fs
        | Some days => removeExpired fs resolvedStoragePath (cutoffTime now days) files
        end in
      match maxArchives with
      | None => (Returns (), fs)
      | Some maxArchives =>
          match ReadDir fs resolvedStoragePath with
          | inl _ => (Returns (), fs)
          | inr entries2 =>
              let files2 := archiveFiles entries2 in
              if maxArchives <? Z.of_nat (length files2) then
                let toDelete := wrap64 (Z.of_nat (length files2) - maxArchives) in
                removeOldest fs resolvedStoragePath (Z.to_nat toDelete) files2
              else (Returns (), fs)
          end
      end
  end.

End Legacy.

(** ** The retention manager, in the words of its description *)

(** What a cleanup may do to the file system: outside the directory
    nothing, and in it nothing but removing entries that are no directories
    and are named as archives. *)
Definition onlyArchivesRemoved (dir : string) (before after : FileSystem) : Prop :=
  (forall path, path <> dir -> after !! path = before !! path)
  /\ match before !! dir with
     | Some (Directory old) =>
         exists new, after !! dir = Some (Directory new)
           /\ forall name, new !! name = old !! name
                \/ (new !! name = None
                    /\ exists e, old !! name = Some e /\ IsDir e = false
                                 /\ isArchiveName name = true)
     | other => after !! dir = other
     end.

(** The retention policy in the words of its description.  An archive is
    not older than the threshold when its modification time is known and
    not before [now] minus the days; the fresh archives are the archive
    files that are not older; and an entry is retained unless it is an
    archive file that is older, or that has the ceiling's number of fresh
    archives, or more, after it in the order of the names. *)
Definition notOlder (now days : Z) (f : string * DirEntry) : Prop :=
  exists modTime, ModTime f.2 = Some modTime /\ now - days * (24 * Hour) <= modTime.

Global Instance notOlder_dec (now days : Z) (f : string * DirEntry) :
  Decision (notOlder now days f).
Proof.
  unfold notOlder. destruct (ModTime f.2) as [modTime|].
  - destruct (decide (now - days * (24 * Hour) <= modTime)).
    + left. by exists modTime.
    + right. intros (? & [= <-] & ?). done.
  - right. by intros (? & ? & _).
Defined.

Definition freshArchives (now days : Z) (entries : gmap string DirEntry)
    : list (string * DirEntry) :=
  filter (fun f => isArchiveFile f /\ notOlder now days f) (map_to_list entries).

Definition newerCount (files : list (string * DirEntry)) (name : string) : nat :=
  length (filter (fun f : string * DirEntry => ~ String.le f.1 name) files).

Definition retained (now days maxCount : Z) (entries : gmap string DirEntry)
    (f : string * DirEntry) : Prop :=
  isArchiveFile f ->
  notOlder now days f
  /\ Z.of_nat (newerCount (freshArchives now days entries) f.1) < maxCount.

(** Removing a list of names from a directory. *)
Definition deleteAll (names : list string) (entries : gmap string DirEntry)
    : gmap string DirEntry :=
  foldl (fun m name => delete name m) entries names.

(** ** The restorer, in the words of its description *)

(** The entries the restorer reads: regular files whose name ends in
    [.json]. *)
Definition isJSONEntry (item : TarItem) : Prop :=
  match item with
  | Entry regular name _ => regular = true /\ GoStrings.HasSuffix name ".json" = true
  | StreamError => False
  end.

Global Instance isJSONEntry_dec (item : TarItem) : Decision (isJSONEntry item).
Proof. destruct item; simpl; apply _. Defined.


(** An item the reading loop gets past: an entry it skips, or a JSON entry
    whose path parses and whose body is a JSON object. *)
Definition accepted (item : TarItem) : Prop :=
  match item with
  | StreamError => False
  | Entry regular name data =>
      regular = false \/ GoStrings.HasSuffix name ".json" = false
      \/ ((exists r, parseArchiveEntry name = inr r)
          /\ exists fields, data = Bytes (Some (JObject fields)))
  end.





(** The object a turn of the applying loop sends. *)
Definition desired (res : archivedResource) : Object :=
  if decide (namespace res <> "") then SetNamespace (object res) (namespace res)
  else object res.





(** The requests of a turn that finds its object in place. *)
Definition upsertRequests (res : archivedResource) : list Request :=
  let name := GetName (desired res) in
  [ CreateRequest (gvr res) (namespace res) name;
    GetRequest (gvr res) (namespace res) name;
    UpdateRequest (gvr res) (namespace res) name ].

(** The namespaces of the create requests among the requests, which are
    given latest first, in the order they were sent. *)
Definition createNamespaces (requests : list Request) : list string :=
  omap (fun r => match r with
                 | CreateRequest _ ns _ => Some ns
                 | _ => None
                 end) (rev requests).


(** The resources of an archive, in the order of its entries. *)
Definition resourcesOf (items : list TarItem) : list archivedResource :=
  omap (fun item => match readEntry item with
                    | Returns (Some res) => Some res
                    | _ => None
                    end) items.




(** ** Notions of the proofs *)

(** Path elements that are empty or plain: [Clean] only drops the empty
    ones. *)
Definition loose (e : string) : Prop := e = "" \/ Filepath.isElem e = true.

(** The joined elements, the first one apart. *)
Definition joinedTail (es : list string) : string :=
  match es with
  | [] => ""
  | _ => String "/" (GoStrings.Join es "/")
  end.

(** The calls a state of the collection loop holds all come from eligible
    resource types of the lists gone over. *)
Definition fromEligible (ToLower TrimSpace : string -> string)
    (opts : BackupOptions) (lists : list APIResourceList)
    (call : GroupVersionResource * string) : Prop :=
  exists l gv r,
    l ∈ lists /\ ParseGroupVersion (GroupVersion l) = Some gv /\ r ∈ APIResources l
    /\ call.1 = mkGVR gv.1 gv.2 (Name r)
    /\ eligible ToLower (resourceTypeFilterOf ToLower TrimSpace opts) r = true.

Global Instance byName_trans : Transitive byName.
Proof. intros a b c. unfold byName. apply transitivity. Qed.

Global Instance byName_total : Total byName.
Proof. intros a b. unfold byName. apply total, _. Qed.

(** An entry a loop of the cleanup goes over: an archive file that was in
    the directory when the cleanup began. *)
Definition listed (dir : string) (fs0 : FileSystem) (f : string * DirEntry) : Prop :=
  isArchiveFile f
  /\ exists old, fs0 !! dir = Some (Directory old) /\ old !! f.1 = Some f.2.

(** An entry [os.Remove] is not refused for. *)
Definition unlocked (entries : gmap string DirEntry) (f : string * DirEntry) : Prop :=
  forall e, entries !! f.1 = Some e -> Locked e = false.

(** An archive file the age phase removes. *)
Definition expired (cutoff : Z) (f : string * DirEntry) : Prop :=
  exists modTime, ModTime f.2 = Some modTime /\ modTime < cutoff.

Global Instance expired_dec (cutoff : Z) (f : string * DirEntry) :
  Decision (expired cutoff f).
Proof.
  unfold expired. destruct (ModTime f.2) as [modTime|].
  - destruct (decide (modTime < cutoff)).
    + left. by exists modTime.
    + right. intros (? & [= <-] & ?). done.
  - right. by intros (? & ? & _).
Defined.

(** Every archive file has a known modification time and can be removed. *)
Definition tidy (entries : gmap string DirEntry) : Prop :=
  forall name e, entries !! name = Some e -> isArchiveFile (name, e) ->
    is_Some (ModTime e) /\ Locked e = false.

(** The directory after the age phase. *)
Definition aged (now days : Z) (entries : gmap string DirEntry) : gmap string DirEntry :=
  deleteAll
    (filter (expired (now - days * (24 * Hour)))
       (archiveFiles (merge_sort byName (map_to_list entries)))).*1
    entries.

(** The directory after the count phase. *)
Definition counted (now days maxCount : Z) (entries : gmap string DirEntry)
    : gmap string DirEntry :=
  let files := archiveFiles (merge_sort byName (map_to_list (aged now days entries))) in
  deleteAll (take (length files - Z.to_nat maxCount) files).*1 (aged now days entries).

(** The key a resource is stored under. *)
Definition keyOf (res : archivedResource) : GroupVersionResource * string * string :=
  (gvr res, namespace res, GetName (desired res)).

(** What a turn needs of the server to go through. *)
Definition admissible (st : Store) (res : archivedResource) : Prop :=
  GetName (desired res) <> ""
  /\ (namespace res = "" \/ namespaceExists (namespace res) st = true).

Global Instance admissible_dec (st : Store) (res : archivedResource) :
  Decision (admissible st res).
Proof. unfold admissible. apply _. Defined.

(** ** Scenarios of the package's tests *)

(** [TestCleanupArchivesRetentionAndMax]: four archives, 48, 2, 1 and 0
    hours old at the clock reading [testNow]. *)
Definition testNow : Z := 1735866000 * 1000000000.

Definition testArchive (ageHours : Z) : DirEntry :=
  mkDirEntry false (Some (testNow - ageHours * Hour)) false.

Definition testArchives : gmap string DirEntry :=
  {[ "cluster-backup-20240101-000000.tar.gz" := testArchive 48;
     "cluster-backup-20250101-010000.tar.gz" := testArchive 2;
     "cluster-backup-20250102-010000.tar.gz" := testArchive 1;
     "cluster-backup-20250103-010000.tar.gz" := testArchive 0 ]}.

Definition testRemaining : gmap string DirEntry :=
  {[ "cluster-backup-20250102-010000.tar.gz" := testArchive 1;
     "cluster-backup-20250103-010000.tar.gz" := testArchive 0 ]}.

(** [TestRestoreBackup]: a namespace and a config map in it; here the
    config map comes first in the archive. *)
Definition testNamespace : Object :=
  {[ "apiVersion" := JString "v1"; "kind" := JString "Namespace";
     "metadata" := JObject {[ "name" := JString "restore-ns" ]} ]}.

Definition testConfigMap : Object :=
  {[ "apiVersion" := JString "v1"; "kind" := JString "ConfigMap";
     "metadata" := JObject {[ "name" := JString "sample-config" ]};
     "data" := JObject {[ "key" := JString "value" ]} ]}.

Definition testArchiveItems : list TarItem :=
  [ Entry true "namespaces/restore-ns/v1/configmaps/sample-config.json"
      (Bytes (Some (JObject testConfigMap)));
    Entry true "cluster/v1/namespaces/restore-ns.json"
      (Bytes (Some (JObject testNamespace))) ].

Definition testFiles : gmap string ArchiveFile :=
  {[ "/backups/cluster-backup-restore.tar.gz" := Gzip testArchiveItems ]}.

Definition emptyStore : Store := mkStore ∅ 0 [].

(** * The engine beyond the retention and the restorer, and its callers *)

(** ** What a backup leaves out of an object *)

(** The fields of [metadata] that [cleanResource] removes. *)
Definition runtimeFields : list string :=
  ["managedFields"; "resourceVersion"; "uid"; "selfLink"; "creationTimestamp";
   "generation"].

(** [cleanResource]: six fields of [metadata] go, then [status]. *)
Definition cleanResource (obj : Object) : Object :=
  let obj := removeMetadataField obj "managedFields" in
  let obj := removeMetadataField obj "resourceVersion" in
  let obj := removeMetadataField obj "uid" in
  let obj := removeMetadataField obj "selfLink" in
  let obj := removeMetadataField obj "creationTimestamp" in
  let obj := removeMetadataField obj "generation" in
  delete "status" obj.

(** [obj["metadata"][field]], nothing when [metadata] is missing or no
    map. *)
Definition metadataField (obj : Object) (field : string) : option JSON :=
  match obj !! "metadata" with
  | Some (JObject m) => m !! field
  | _ => None
  end.

(** The error [resource missing metadata.name] of [RestoreBackup]. *)
Definition isMetadataFailed (err : RestoreError) : bool :=
  match err with
  | MetadataFailed _ => true
  | _ => false
  end.

(** The object the server keeps after a write: the object sent, stamped
    with a resource version. *)
Definition stamped (res : archivedResource) (version : string) : Object :=
  setMetadataString (desired res) "resourceVersion" version.

(** A request that reads a collection. *)
Definition isListRequest (r : Request) : bool :=
  match r with
  | ListRequest _ _ => true
  | _ => false
  end.

(** The archive files of a directory. *)
Definition archivesOf (entries : gmap string DirEntry) : list (string * DirEntry) :=
  filter isArchiveFile (map_to_list entries).

(** ** The calls of a backup run, as a list *)

Section backup_calls.
Variables ToLower TrimSpace : string -> string.

(** The [backupResource] calls one resource type gives rise to when the
    namespaces of the run are [nss]. *)
Definition callsOfResource (opts : BackupOptions) (nss : list string)
    (gv : string * string) (r : APIResource) : list (GroupVersionResource * string) :=
  if eligible ToLower (resourceTypeFilterOf ToLower TrimSpace opts) r then
    let gvr := mkGVR gv.1 gv.2 (Name r) in
    if Namespaced r then (fun ns => (gvr, ns)) <$> nss
    else if IncludeClusterResources opts then [(gvr, "")]
    else []
  else [].

Definition callsOfList (opts : BackupOptions) (nss : list string)
    (l : APIResourceList) : list (GroupVersionResource * string) :=
  match ParseGroupVersion (GroupVersion l) with
  | Some gv => APIResources l ≫= callsOfResource opts nss gv
  | None => []
  end.

Definition callsOfLists (opts : BackupOptions) (nss : list string)
    (lists : list APIResourceList) : list (GroupVersionResource * string) :=
  lists ≫= callsOfList opts nss.

End backup_calls.

(** What the collection loop knows of the namespaces of the run: a loaded
    list is the list of the run, and with an include list it is that
    list. *)
Definition agrees {W : Type} (opts : BackupOptions) (st : LoopState (W := W))
    (nss : list string) : Prop :=
  match namespaces st with
  | Some loaded => nss = loaded
  | None => IncludeNamespaces opts <> [] -> nss = IncludeNamespaces opts
  end.

(** ** The controller's part in a backup *)

(** [GetDefaultResourceTypes]. *)
Definition GetDefaultResourceTypes : list string :=
  [ "Namespace"; "ConfigMap"; "Secret"; "Service"; "ServiceAccount";
    "PersistentVolume"; "PersistentVolumeClaim"; "Pod";
    "Deployment"; "StatefulSet"; "DaemonSet"; "ReplicaSet"; "Job"; "CronJob";
    "Ingress"; "NetworkPolicy"; "Endpoints";
    "Role"; "RoleBinding"; "ClusterRole"; "ClusterRoleBinding";
    "StorageClass";
    "CustomResourceDefinition" ].

(** ** The name of an archive *)

(** The reading of the clock as [Time.Format] spells it out: the date and
    the time of day, none of them negative. *)
Record DateTime : Type := mkDateTime {
  year : N;
  month : N;
  day : N;
  hour : N;
  minute : N;
  second : N
}.

Definition digitChar (d : N) : ascii := ascii_of_N (48 + d).

(** The decimal digits of [u], most significant first; a number has no
    more decimal digits than binary ones. *)
Fixpoint decimalDigits (fuel : nat) (u : N) (acc : string) : string :=
  match fuel with
  | O => acc
  | S fuel' =>
      let acc := String (digitChar (u mod 10)) acc in
      if (u / 10 =? 0)%N then acc else decimalDigits fuel' (u / 10) acc
  end.

Fixpoint zeros (n : nat) : string :=
  match n with
  | O => ""
  | S n' => String "0" (zeros n')
  end.

(** [appendInt] of package [time] for a number that is not negative: its
    decimal digits, padded with zeros on the left to [width]. *)
Definition appendInt (u : N) (width : nat) : string :=
  let digits := decimalDigits (S (N.size_nat u)) u "" in
  zeros (width - String.length digits) +:+ digits.

(** [Format("20060102-150405")]. *)
Definition formatTimestamp (t : DateTime) : string :=
  appendInt (year t) 4 +:+ appendInt (month t) 2 +:+ appendInt (day t) 2 +:+ "-"
  +:+ appendInt (hour t) 2 +:+ appendInt (minute t) 2 +:+ appendInt (second t) 2.

(** The file name [createArchive] gives an archive, and its path. *)
Definition archiveFileName (t : DateTime) : string :=
  "cluster-backup-" +:+ formatTimestamp t +:+ ".tar.gz".

Definition archivePathOf (storagePath : string) (t : DateTime) : string :=
  Filepath.Join [resolveStoragePath storagePath; archiveFileName t].

(** The date and time as one number, for dates of four-digit years. *)
Definition stampOf (t : DateTime) : N :=
  (((((year t * 100 + month t) * 100 + day t) * 100 + hour t) * 100 + minute t) * 100
   + second t)%N.

(** The fields are in the range of a calendar with four-digit years. *)
Definition inCalendar (t : DateTime) : Prop :=
  (year t < 10000 /\ month t < 100 /\ day t < 100
   /\ hour t < 100 /\ minute t < 100 /\ second t < 100)%N.

(** The digits of a number below [10 ^ width], at that width. *)
Fixpoint fixedWidth (width : nat) (u : N) : string :=
  match width with
  | O => ""
  | S width' => fixedWidth width' (u / 10) +:+ String (digitChar (u mod 10)) ""
  end.

(** ** Status conditions *)

(** [metav1.Condition]; an instant is counted from the zero time, which
    [IsZero] tells. *)
Module metav1.

Record Condition : Type := mkCondition {
  Type_ : string;
  Status : string;
  ObservedGeneration : Z;
  LastTransitionTime : Z;
  Reason : string;
  Message : string
}.

Definition IsZero (t : Z) : bool := (t =? 0).

End metav1.

(** [meta.SetStatusCondition] of apimachinery: the first condition of the
    type is updated where it stands, its transition time only when the
    status changes; without one the new condition is appended.  [later] is
    the clock as the function itself reads it. *)
Module meta.
Import metav1.

Definition updateCondition (later : Z) (existing newCondition : Condition) : Condition :=
  let changed := negb (String.eqb (Status existing) (Status newCondition)) in
  mkCondition (Type_ existing)
    (if changed then Status newCondition else Status existing)
    (ObservedGeneration newCondition)
    (if changed
     then if negb (IsZero (LastTransitionTime newCondition))
          then LastTransitionTime newCondition else later
     else LastTransitionTime existing)
    (Reason newCondition) (Message newCondition).

Fixpoint SetStatusCondition (later : Z) (conditions : list Condition)
    (newCondition : Condition) : list Condition :=
  match conditions with
  | [] =>
      [ if IsZero (LastTransitionTime newCondition)
        then mkCondition (Type_ newCondition) (Status newCondition)
               (ObservedGeneration newCondition) later
               (Reason newCondition) (Message newCondition)
        else newCondition ]
  | existing :: rest =>
      if decide (Type_ existing = Type_ newCondition)
      then updateCondition later existing newCondition :: rest
      else existing :: SetStatusCondition later rest newCondition
  end.

End meta.

(** [SetCondition]; [now] is the clock as [metav1.Now] reads it. *)
Definition SetCondition (now later : Z) (conditions : list metav1.Condition)
    (conditionType status reason message : string) : list metav1.Condition :=
  let condition := metav1.mkCondition conditionType status 0 now reason message in
  meta.SetStatusCondition later conditions condition.

(** ** The names of the Helm chart *)

(** The helper templates of the chart, with the functions of the template
    library they call. *)
Module Helm.

Definition default (d given : string) : string :=
  if decide (given = "") then d else given.

Definition trunc (c : nat) (s : string) : string :=
  if (c <? String.length s)%nat then GoStrings.sliceTo c s else s.

Definition trimSuffix (suffix s : string) : string := GoStrings.TrimSuffix s suffix.

Definition contains (substr str : string) : bool := GoStrings.Contains str substr.

Record Values : Type := mkValues {
  nameOverride : string;
  fullnameOverride : string;
  serviceAccountCreate : bool;
  serviceAccountName : string
}.

Record Context : Type := mkContext {
  chartName : string;
  releaseName : string;
  values : Values
}.

(** [backup-operator.name]. *)
Definition name (ctx : Context) : string :=
  trimSuffix "-" (trunc 63 (default (chartName ctx) (nameOverride (values ctx)))).

(** [backup-operator.fullname]. *)
Definition fullname (ctx : Context) : string :=
  if decide (fullnameOverride (values ctx) <> "") then
    trimSuffix "-" (trunc 63 (fullnameOverride (values ctx)))
  else
    let name := default (chartName ctx) (nameOverride (values ctx)) in
    if contains name (releaseName ctx) then
      trimSuffix "-" (trunc 63 (releaseName ctx))
    else
      trimSuffix "-" (trunc 63 (releaseName ctx +:+ "-" +:+ name)).

(** [backup-operator.serviceAccountName]. *)
Definition serviceAccount (ctx : Context) : string :=
  if serviceAccountCreate (values ctx) then
    trimSuffix "-"
      (trunc 63 (default (fullname ctx +:+ "-sa") (serviceAccountName (values ctx))))
  else default "default" (serviceAccountName (values ctx)).

End Helm.

(** ** A backup run with its files *)

(** What the run meets outside the API server: the directory [os.MkdirTemp]
    hands out (or its failure), whether [os.MkdirAll], [json.MarshalIndent],
    [os.WriteFile] and [os.Create] fail, what [filepath.Walk] reports of
    the staging directory once the given files are written, and the
    clock. *)
Inductive WalkNode : Type :=
| WalkFailed
| WalkDir
| WalkFile (data : EntryData).

Record BackupEnv : Type := mkBackupEnv {
  mkdirTemp : option string;
  mkdirAllFails : string -> bool;
  marshalFails : Object -> bool;
  writeFileFails : string -> bool;
  createFails : string -> bool;
  walk : list (string * Object) -> list (string * WalkNode);
  clock : DateTime
}.

Inductive BackupResourceError : Type :=
| ListFailed (err : APIError)
| MkdirAllFailed (path : string).

(** The loop of [backupResource] over the listed items: the files written
    so far, in order, and their number. *)
Definition stageItem (env : BackupEnv) (dirPath : string)
    (acc : nat * list (string * Object)) (item : Object) : nat * list (string * Object) :=
  let item := cleanResource item in
  if marshalFails env item then acc
  else
    let filename := Filepath.Join [dirPath; GetName item +:+ ".json"] in
    if writeFileFails env filename then acc
    else (S acc.1, acc.2 ++ [(filename, item)]).

Section backup_files.
Variables ToLower TrimSpace : string -> string.
Context {W : Type} `{!DynamicClient W}.

(** [backupResource]: the count it returns, with the files it has written. *)
Definition backupResource (env : BackupEnv) (gvr : GroupVersionResource)
    (namespace tempDir : string) (w : W)
    : (BackupResourceError + nat * list (string * Object)) * W :=
  match clientList gvr namespace w with
  | (inl err, w) => (inl (ListFailed err), w)
  | (inr items, w) =>
      if (length items =? 0)%nat then (inr (0%nat, []), w)
      else
        let dirPath := resourceDir tempDir gvr namespace in
        if mkdirAllFails env dirPath then (inl (MkdirAllFailed dirPath), w)
        else (inr (foldl (stageItem env dirPath) (0%nat, []) items), w)
  end.

(** The state of the collection loop of [CreateBackup]: the namespaces once
    loaded, the world, [resourceCount], the files written, in order, and the
    [backupResource] calls made so far, latest first. *)
Record RunState : Type := mkRunState {
  runNamespaces : option (list string);
  runWorld : W;
  resourceCount : nat;
  written : list (string * Object);
  called : list (GroupVersionResource * string)
}.

(** One [backupResource] call of the loop: an error is logged and the loop
    goes on. *)
Definition runCall (env : BackupEnv) (tempDir : string) (gvr : GroupVersionResource)
    (ns : string) (st : RunState) : RunState :=
  match backupResource env gvr ns tempDir (runWorld st) with
  | (inl _, w) =>
      mkRunState (runNamespaces st) w (resourceCount st) (written st)
        ((gvr, ns) :: called st)
  | (inr (count, files), w) =>
      mkRunState (runNamespaces st) w (resourceCount st + count) (written st ++ files)
        ((gvr, ns) :: called st)
  end.

Definition runResource (env : BackupEnv) (tempDir : string) (opts : BackupOptions)
    (gv : string * string) (st : RunState) (apiResource : APIResource)
    : APIError + RunState :=
  if GoStrings.Contains (Name apiResource) "/" then inr st
  else if negb (contains (Verbs apiResource) "list") then inr st
  else if (0 <? size (resourceTypeFilterOf ToLower TrimSpace opts))%nat
          && negb (bool_decide (ToLower (Kind apiResource)
                                ∈ resourceTypeFilterOf ToLower TrimSpace opts))
  then inr st
  else
    let gvr := mkGVR (fst gv) (snd gv) (Name apiResource) in
    if Namespaced apiResource then
      let loaded :=
        match runNamespaces st with
        | Some nss => (inr nss, runWorld st)
        | None => getNamespacesToBackup TrimSpace opts (runWorld st)
        end in
      match loaded with
      | (inl err, _) => inl err
      | (inr nss, w) =>
          let st := mkRunState (Some nss) w (resourceCount st) (written st) (called st) in
          if (length nss =? 0)%nat then inr st
          else inr (foldl (fun st ns => runCall env tempDir gvr ns st) st nss)
      end
    else if IncludeClusterResources opts then inr (runCall env tempDir gvr "" st)
    else inr st.

Fixpoint runResources (env : BackupEnv) (tempDir : string) (opts : BackupOptions)
    (gv : string * string) (st : RunState) (apiResources : list APIResource)
    : APIError + RunState :=
  match apiResources with
  | [] => inr st
  | r :: rest =>
      match runResource env tempDir opts gv st r with
      | inl err => inl err
      | inr st' => runResources env tempDir opts gv st' rest
      end
  end.

Fixpoint runLists (env : BackupEnv) (tempDir : string) (opts : BackupOptions)
    (st : RunState) (apiResourceLists : list APIResourceList) : APIError + RunState :=
  match apiResourceLists with
  | [] => inr st
  | l :: rest =>
      match ParseGroupVersion (GroupVersion l) with
      | None => runLists env tempDir opts st rest
      | Some gv =>
          match runResources env tempDir opts gv st (APIResources l) with
          | inl err => inl err
          | inr st' => runLists env tempDir opts st' rest
          end
      end
  end.

End backup_files.

(** The callback [createArchive] hands to [filepath.Walk], for one path:
    the header, named relative to the staging directory, and for a regular
    file its bytes; nothing on an error. *)
Definition walkEntry (sourceDir : string) (visit : string * WalkNode) : option TarItem :=
  match visit.2 with
  | WalkFailed => None
  | WalkDir =>
      match Filepath.Rel sourceDir visit.1 with
      | Some relPath => Some (Entry false relPath (Bytes None))
      | None => None
      end
  | WalkFile data =>
      match Filepath.Rel sourceDir visit.1 with
      | Some relPath =>
          match data with
          | Unreadable => None
          | Bytes _ => Some (Entry true relPath data)
          end
      | None => None
      end
  end.

Inductive ArchiveError : Type :=
| StorageDirFailed
| CreateFileFailed
| TarFailed.

(** [createArchive], from what [filepath.Walk] reports of the staging
    directory; it returns the path of the archive, and the archive is then
    among the files.  What a failed call leaves at the path is not
    modelled. *)
Definition createArchive (env : BackupEnv) (visited : list (string * WalkNode))
    (sourceDir storagePath : string) (files : gmap string ArchiveFile)
    : ArchiveError + string * gmap string ArchiveFile :=
  let resolvedStoragePath := resolveStoragePath storagePath in
  if mkdirAllFails env resolvedStoragePath then inl StorageDirFailed
  else
    let archivePath := Filepath.Join [resolvedStoragePath; archiveFileName (clock env)] in
    if createFails env archivePath then inl CreateFileFailed
    else
      match mapM (walkEntry sourceDir) visited with
      | None => inl TarFailed
      | Some items => inr (archivePath, <[archivePath := Gzip items]> files)
      end.

(** [BackupResult] and the errors of [CreateBackup]. *)
Record BackupResult : Type := mkBackupResult {
  ResourceCount : nat;
  FilePath : string
}.

Inductive BackupError : Type :=
| TempDirFailed
| NamespacesFailed (err : APIError)
| ArchiveFailed (err : ArchiveError).

(** [CreateBackup]; [apiResourceLists] is what the discovery has returned,
    with or without an error. *)
Definition CreateBackup (ToLower TrimSpace : string -> string)
    {W : Type} `{!DynamicClient W} (env : BackupEnv) (storagePath : string)
    (opts : BackupOptions) (apiResourceLists : list APIResourceList) (w : W)
    (files : gmap string ArchiveFile)
    : BackupError + (BackupResult * W * gmap string ArchiveFile) :=
  match mkdirTemp env with
  | None => inl TempDirFailed
  | Some tempDir =>
      match runLists ToLower TrimSpace env tempDir opts (mkRunState None w 0 [] [])
              apiResourceLists with
      | inl err => inl (NamespacesFailed err)
      | inr st =>
          match createArchive env (walk env (written st)) tempDir storagePath files with
          | inl err => inl (ArchiveFailed err)
          | inr (archivePath, files) =>
              inr (mkBackupResult (resourceCount st) archivePath, runWorld st, files)
          end
      end
  end.

(** A file of the staging directory comes from a call of the run: it is
    the file of an item the call was given, cleaned. *)
Definition fromCall {W : Type} `{!DynamicClient W} (tempDir : string)
    (calls : list (GroupVersionResource * string)) (file : string * Object) : Prop :=
  exists gvr ns w items item,
    (gvr, ns) ∈ calls
    /\ (clientList gvr ns w).1 = inr items /\ item ∈ items
    /\ file = (resourceFile tempDir gvr ns (GetName item), cleanResource item).

(** The loop with its files and the loop of the calls are at the same
    point. *)
Definition sameRun {W : Type} (ls : LoopState (W := W)) (rs : RunState (W := W)) : Prop :=
  namespaces ls = runNamespaces rs /\ world ls = runWorld rs /\ captured ls = called rs.

(** What the loop keeps true of its counter and its files. *)
Definition counted_files {W : Type} `{!DynamicClient W} (tempDir : string)
    (rs : RunState (W := W)) : Prop :=
  resourceCount rs = length (written rs)
  /\ Forall (fromCall tempDir (called rs)) (written rs).

(** The files a [backupResource] call writes for the items it was given:
    none when the directory cannot be made; otherwise one for every item
    whose encoding and whose write go through, the cleaned item under the
    item's name. *)
Definition stagedOfItems (env : BackupEnv) (tempDir : string) (gvr : GroupVersionResource)
    (ns : string) (items : list Object) : list (string * Object) :=
  if mkdirAllFails env (resourceDir tempDir gvr ns) then []
  else
    omap (fun item =>
            if marshalFails env (cleanResource item)
               || writeFileFails env (resourceFile tempDir gvr ns (GetName item))
            then None
            else Some (resourceFile tempDir gvr ns (GetName item), cleanResource item))
      items.

(** The files of a sequence of calls, each call listing in the world the
    one before it has left, and the world after the last. *)
Fixpoint stagedOfCalls {W : Type} `{!DynamicClient W} (env : BackupEnv) (tempDir : string)
    (calls : list (GroupVersionResource * string)) (w : W) : list (string * Object) * W :=
  match calls with
  | [] => ([], w)
  | call :: rest =>
      let here :=
        match (clientList call.1 call.2 w).1 with
        | inl _ => []
        | inr items => stagedOfItems env tempDir call.1 call.2 items
        end in
      let more := stagedOfCalls env tempDir rest (clientList call.1 call.2 w).2 in
      (here ++ more.1, more.2)
  end.

(** Where the namespaces of the run come from: nothing is loaded and no
    namespaced call is made yet, or they are what [getNamespacesToBackup]
    has returned in the world [w1], leaving [w2]. *)
Definition namespacesLoaded {W : Type} `{!DynamicClient W} (TrimSpace : string -> string)
    (opts : BackupOptions) (loaded : option (list string))
    (after : list (GroupVersionResource * string)) (w1 w2 : W) : Prop :=
  match loaded with
  | None => after = [] /\ w2 = w1
  | Some nss => getNamespacesToBackup TrimSpace opts w1 = (inr nss, w2)
  end.

(** What the loop keeps true of its files: they are the files of the calls
    made so far, those before the namespaces were loaded and those
    after. *)
Definition stagedRun {W : Type} `{!DynamicClient W} (TrimSpace : string -> string)
    (env : BackupEnv) (tempDir : string) (opts : BackupOptions) (w : W)
    (rs : RunState (W := W)) : Prop :=
  exists before after w1 w2,
    rev (called rs) = before ++ after
    /\ (stagedOfCalls env tempDir before w).2 = w1
    /\ namespacesLoaded TrimSpace opts (runNamespaces rs) after w1 w2
    /\ (stagedOfCalls env tempDir after w2).2 = runWorld rs
    /\ written rs = (stagedOfCalls env tempDir before w).1
                    ++ (stagedOfCalls env tempDir after w2).1.

(** A config map as the API server lists it. *)
Definition listedConfigMap : Object :=
  {[ "apiVersion" := JString "v1"; "kind" := JString "ConfigMap";
     "metadata" := JObject {[ "name" := JString "sample-config";
                              "namespace" := JString "default";
                              "uid" := JString "5f2d8c1e";
                              "resourceVersion" := JString "41" ]};
     "data" := JObject {[ "key" := JString "value" ]};
     "status" := JObject ∅ ]}.

(** ** The custom resource and its controller *)

(** The types of the API.  [ClusterBackupSpec] has the three fields the
    controller reads beside the ones of the type's file: [RetentionDays]
    and [MaxArchives], passed to [CleanupArchives] as they are, and
    [DeleteOnDelete]; [None] is a nil pointer.  Of the object's metadata
    there is what the controller reads. *)
Module v1alpha1.

Record ClusterBackupSpec : Type := mkClusterBackupSpec {
  StoragePath : string;
  IncludeNamespaces : list string;
  ExcludeNamespaces : list string;
  IncludeClusterResources : option bool;
  ResourceTypes : list string;
  Schedule : string;
  RetentionDays : option Z;
  MaxArchives : option Z;
  DeleteOnDelete : option bool
}.

Record ClusterBackupStatus : Type := mkClusterBackupStatus {
  Phase : string;
  StartTime : option Z;
  CompletionTime : option Z;
  BackupLocation : string;
  ResourceCount : nat;
  Message : string;
  LastBackupTime : option Z;
  Conditions : list metav1.Condition
}.

Record ClusterBackup : Type := mkClusterBackup {
  Name : string;
  DeletionTimestamp : option Z;
  Finalizers : list string;
  Spec : ClusterBackupSpec;
  Status : ClusterBackupStatus
}.

End v1alpha1.

(** The options [performBackup] hands to [CreateBackup]. *)
Definition performBackupOptions (spec : v1alpha1.ClusterBackupSpec) : BackupOptions :=
  let includeClusterResources :=
    match v1alpha1.IncludeClusterResources spec with
    | Some b => b
    | None => true
    end in
  let opts := mkBackupOptions (v1alpha1.IncludeNamespaces spec)
                (v1alpha1.ExcludeNamespaces spec) includeClusterResources
                (v1alpha1.ResourceTypes spec) in
  if (length (ResourceTypes opts) =? 0)%nat
  then mkBackupOptions (IncludeNamespaces opts) (ExcludeNamespaces opts)
         (IncludeClusterResources opts) GetDefaultResourceTypes
  else opts.

(** [controllerutil]: the finalizers of an object. *)
Module controllerutil.
Import v1alpha1.

Definition ContainsFinalizer (o : ClusterBackup) (finalizer : string) : bool :=
  existsb (String.eqb finalizer) (Finalizers o).

Definition setFinalizers (o : ClusterBackup) (finalizers : list string) : ClusterBackup :=
  mkClusterBackup (Name o) (DeletionTimestamp o) finalizers (Spec o) (Status o).

Definition AddFinalizer (o : ClusterBackup) (finalizer : string) : ClusterBackup :=
  if ContainsFinalizer o finalizer then o
  else setFinalizers o (Finalizers o ++ [finalizer]).

Definition RemoveFinalizer (o : ClusterBackup) (finalizer : string) : ClusterBackup :=
  setFinalizers o (filter (fun f => f <> finalizer) (Finalizers o)).

End controllerutil.

(** The controller. *)
Module controller.
Import v1alpha1 controllerutil.

Definition backupFinalizer : string := "backup.backup.io/finalizer".

(** [time.Hour], in nanoseconds as a [time.Duration] counts. *)
Definition Hour : Z := 3600000000000.

(** [ctrl.Result]. *)
Record Result : Type := mkResult {
  RequeueAfter : Z
}.

(** The errors of the client, as far as the controller tells them apart:
    [errors.IsNotFound] and the rest. *)
Inductive ClientError : Type :=
| ObjectNotFound
| ClientFailure (message : string).

Definition IsNotFound (err : ClientError) : bool :=
  match err with
  | ObjectNotFound => true
  | ClientFailure _ => false
  end.

(** [DeletionTimestamp.IsZero]: a nil pointer is zero. *)
Definition IsZero (t : option Z) : bool :=
  match t with
  | None => true
  | Some t => metav1.IsZero t
  end.

(** The readings of the clock in one [Reconcile]: [metav1.Now] where the
    status turns to running and where the backup has ended, [metav1.Now] in
    [SetCondition] and [time.Now] in [SetStatusCondition], and [time.Now]
    in [CleanupArchives]. *)
Record Clock : Type := mkClock {
  startReading : Z;
  endReading : Z;
  conditionReading : Z;
  transitionReading : Z;
  cleanupReading : Z
}.

Definition setStatus (o : ClusterBackup) (status : ClusterBackupStatus) : ClusterBackup :=
  mkClusterBackup (Name o) (DeletionTimestamp o) (Finalizers o) (Spec o) status.

Section reconciler.
(** The client of the controller, in the world [C] its requests run in: an
    object that is handed back is the one the request has filled in.  The
    engine's [CreateBackup] in its own world [B] and on the file system,
    with the text of its errors, and [time.ParseDuration]. *)
Context {C B BackupErr : Type}.
Variable Get : C -> (ClientError + ClusterBackup) * C.
Variable Update : ClusterBackup -> C -> (ClientError + ClusterBackup) * C.
Variable StatusUpdate : ClusterBackup -> C -> (ClientError + ClusterBackup) * C.
Variable CreateBackup :
  string -> BackupOptions -> B -> FileSystem -> (BackupErr + BackupResult) * B * FileSystem.
Variable errorText : BackupErr -> string.
Variable ParseDuration : string -> option Z.
Variable clock : Clock.

Inductive ReconcileError : Type :=
| ClientFailed (err : ClientError)
| BackupFailed (err : BackupErr).

(** [performBackup]. *)
Definition performBackup (clusterBackup : ClusterBackup) (b : B) (fs : FileSystem)
    : (BackupErr + BackupResult) * B * FileSystem :=
  CreateBackup (StoragePath (Spec clusterBackup))
    (performBackupOptions (Spec clusterBackup)) b fs.

(** [handleDeletion]; the error of the cleanup is logged. *)
Definition handleDeletion (clusterBackup : ClusterBackup) (c : C) (b : B) (fs : FileSystem)
    : Outcome ReconcileError Result * C * B * FileSystem :=
  if ContainsFinalizer clusterBackup backupFinalizer then
    let cleaned :=
      match DeleteOnDelete (Spec clusterBackup) with
      | Some true =>
          CleanupArchives (cleanupReading clock) fs (StoragePath (Spec clusterBackup))
            None (Some 0)
      | _ => (Returns (), fs)
      end in
    match cleaned with
    | (Panics, fs) => (Panics, c, b, fs)
    | (_, fs) =>
        let clusterBackup := RemoveFinalizer clusterBackup backupFinalizer in
        match Update clusterBackup c with
        | (inl err, c) => (Fails (ClientFailed err), c, b, fs)
        | (inr _, c) => (Returns (mkResult 0), c, b, fs)
        end
    end
  else (Returns (mkResult 0), c, b, fs).

(** The status [Reconcile] writes when the backup starts, has failed, and
    has succeeded. *)
Definition runningStatus (status : ClusterBackupStatus) : ClusterBackupStatus :=
  mkClusterBackupStatus "Running" (Some (startReading clock)) (CompletionTime status)
    (BackupLocation status) (ResourceCount status) "Backup in progress"
    (LastBackupTime status) (Conditions status).

Definition failedStatus (status : ClusterBackupStatus) (err : BackupErr)
    : ClusterBackupStatus :=
  mkClusterBackupStatus "Failed" (StartTime status) (Some (endReading clock))
    (BackupLocation status) (ResourceCount status)
    ("Backup failed: " +:+ errorText err)
    (LastBackupTime status)
    (SetCondition (conditionReading clock) (transitionReading clock) (Conditions status)
       "Ready" "False" "BackupFailed" (errorText err)).

Definition completedStatus (status : ClusterBackupStatus) (result : BackupResult)
    : ClusterBackupStatus :=
  let 'mkBackupResult resourceCount filePath := result in
  mkClusterBackupStatus "Completed" (StartTime status) (Some (endReading clock))
    filePath resourceCount
    ("Successfully backed up " +:+ pretty resourceCount +:+ " resources")
    (Some (endReading clock))
    (SetCondition (conditionReading clock) (transitionReading clock) (Conditions status)
       "Ready" "True" "BackupCompleted" "Backup completed successfully").

(** [Reconcile]. *)
Definition Reconcile (c : C) (b : B) (fs : FileSystem)
    : Outcome ReconcileError Result * C * B * FileSystem :=
  match Get c with
  | (inl err, c) =>
      if IsNotFound err then (Returns (mkResult 0), c, b, fs)
      else (Fails (ClientFailed err), c, b, fs)
  | (inr clusterBackup, c) =>
      if negb (IsZero (DeletionTimestamp clusterBackup)) then
        handleDeletion clusterBackup c b fs
      else
        let added :=
          if negb (ContainsFinalizer clusterBackup backupFinalizer)
          then Update (AddFinalizer clusterBackup backupFinalizer) c
          else (inr clusterBackup, c) in
        match added with
        | (inl err, c) => (Fails (ClientFailed err), c, b, fs)
        | (inr clusterBackup, c) =>
            if String.eqb (Phase (Status clusterBackup)) "Completed"
               || String.eqb (Phase (Status clusterBackup)) "Failed"
            then
              if negb (String.eqb (Schedule (Spec clusterBackup)) "")
              then (Returns (mkResult Hour), c, b, fs)
              else (Returns (mkResult 0), c, b, fs)
            else
              let started :=
                if String.eqb (Phase (Status clusterBackup)) ""
                   || String.eqb (Phase (Status clusterBackup)) "Pending"
                then StatusUpdate
                       (setStatus clusterBackup (runningStatus (Status clusterBackup))) c
                else (inr clusterBackup, c) in
              match started with
              | (inl err, c) => (Fails (ClientFailed err), c, b, fs)
              | (inr clusterBackup, c) =>
                  match performBackup clusterBackup b fs with
                  | (inl err, b, fs) =>
                      let clusterBackup :=
                        setStatus clusterBackup (failedStatus (Status clusterBackup) err) in
                      (Fails (BackupFailed err), (StatusUpdate clusterBackup c).2, b, fs)
                  | (inr result, b, fs) =>
                      let clusterBackup :=
                        setStatus clusterBackup
                          (completedStatus (Status clusterBackup) result) in
                      match StatusUpdate clusterBackup c with
                      | (inl err, c) => (Fails (ClientFailed err), c, b, fs)
                      | (inr clusterBackup, c) =>
                          let cleaned :=
                            if bool_decide (RetentionDays (Spec clusterBackup) <> None)
                               || bool_decide (MaxArchives (Spec clusterBackup) <> None)
                            then CleanupArchives (cleanupReading clock) fs
                                   (StoragePath (Spec clusterBackup))
                                   (RetentionDays (Spec clusterBackup))
                                   (MaxArchives (Spec clusterBackup))
                            else (Returns (), fs) in
                          match cleaned with
                          | (Panics, fs) => (Panics, c, b, fs)
                          | (_, fs) =>
                              if negb (String.eqb (Schedule (Spec clusterBackup)) "")
                              then
                                match ParseDuration (Schedule (Spec clusterBackup)) with
                                | Some d => (Returns (mkResult d), c, b, fs)
                                | None => (Returns (mkResult Hour), c, b, fs)
                                end
                              else (Returns (mkResult 0), c, b, fs)
                          end
                      end
                  end
              end
        end
  end.

End reconciler.

End controller.

(** A backup that has run, with a schedule and the wish to take its
    archives along. *)
Definition finishedBackup : v1alpha1.ClusterBackup :=
  v1alpha1.mkClusterBackup "nightly" None [controller.backupFinalizer]
    (v1alpha1.mkClusterBackupSpec "/backups" [] [] None [] "24h" None None (Some true))
    (v1alpha1.mkClusterBackupStatus "Completed" (Some 1) (Some 2)
       "/backups/cluster-backup-20250103-010000.tar.gz" 3
       "Successfully backed up 3 resources" (Some 2) []).

(** * Theorems *)

Example Clean_table :
map Filepath.Clean
  [""; "abc"; "abc/def"; "."; ".."; "../.."; "../../abc"; "/abc"; "/";
   "abc/"; "a/b/c/"; "./"; "../"; "/abc/"; "abc//def//ghi"; "//abc"; "//abc//";
   "abc/./def"; "/./abc/def"; "abc/."; "abc/def/ghi/../jkl"; "abc/def/../ghi/../jkl";
   "abc/def/.."; "abc/def/../.."; "/abc/def/../.."; "abc/def/../../..";
   "/abc/def/../../.."; "abc/def/../../../ghi/jkl/../../../mno"; "/../abc";
   "abc/./../def"; "abc/../../././../def"]
= ["."; "abc"; "abc/def"; "."; ".."; "../.."; "../../abc"; "/abc"; "/";
   "abc"; "a/b/c"; "."; ".."; "/abc"; "abc/def/ghi"; "/abc"; "/abc";
   "abc/def"; "/abc/def"; "abc"; "abc/def/jkl"; "abc/jkl";
   "abc"; "."; "/"; "..";
   "/"; "../../mno"; "/abc";
   "def"; "../../def"].
Proof. vm_compute. reflexivity. Qed.


(** ** Byte strings *)

Section string_facts.
Import GoStrings.

Lemma app_nil_str (s : string) : "" +:+ s = s.
Proof. done. Qed.

Lemma app_cons_str (c : ascii) (s r : string) : String c s +:+ r = String c (s +:+ r).
Proof. done. Qed.

Lemma app_empty_r (s : string) : s +:+ "" = s.
Proof. induction s as [|c s IH]; [done|]. by rewrite app_cons_str, IH. Qed.

Lemma app_assoc_str (a b c : string) : (a +:+ b) +:+ c = a +:+ (b +:+ c).
Proof. induction a as [|x a IH]; [done|]. by rewrite !app_cons_str, IH. Qed.

Lemma length_app_str (a b : string) :
  String.length (a +:+ b) = (String.length a + String.length b)%nat.
Proof. induction a as [|x a IH]; [done|]. rewrite app_cons_str. simpl. by rewrite IH. Qed.

Lemma HasPrefix_app (p r : string) : HasPrefix (p +:+ r) p = true.
Proof.
  induction p as [|c p IH]; [done|].
  rewrite app_cons_str. simpl. by rewrite Ascii.eqb_refl.
Qed.

Lemma sliceFrom_app (p r : string) : sliceFrom (String.length p) (p +:+ r) = r.
Proof. induction p as [|c p IH]; [by destruct r|]. by rewrite app_cons_str. Qed.

Lemma sliceTo_app (p r : string) : sliceTo (String.length p) (p +:+ r) = p.
Proof.
  induction p as [|c p IH]; [by destruct r|].
  rewrite app_cons_str. simpl. by rewrite IH.
Qed.

Lemma TrimPrefix_app (p r : string) : TrimPrefix (p +:+ r) p = r.
Proof. unfold TrimPrefix. by rewrite HasPrefix_app, sliceFrom_app. Qed.

Lemma HasSuffix_app (p r : string) : HasSuffix (p +:+ r) r = true.
Proof.
  unfold HasSuffix. rewrite length_app_str.
  replace (String.length p + String.length r - String.length r)%nat
    with (String.length p) by lia.
  rewrite sliceFrom_app, String.eqb_refl, andb_true_r.
  apply Nat.leb_le. lia.
Qed.

Lemma TrimSuffix_app (p r : string) : TrimSuffix (p +:+ r) r = p.
Proof.
  unfold TrimSuffix. rewrite HasSuffix_app, length_app_str.
  replace (String.length p + String.length r - String.length r)%nat
    with (String.length p) by lia.
  apply sliceTo_app.
Qed.

(** [Contains s "/"] reads [s] byte by byte. *)
Lemma Contains_slash_cons (c : ascii) (s : string) :
  Contains (String c s) "/" = Ascii.eqb c "/" || Contains s "/".
Proof. simpl. by destruct (Ascii.eqb c "/"). Qed.

Lemma Contains_slash_app (a b : string) :
  Contains (a +:+ b) "/" = Contains a "/" || Contains b "/".
Proof.
  induction a as [|c a IH].
  - by rewrite app_nil_str.
  - rewrite app_cons_str, !Contains_slash_cons, IH. by rewrite orb_assoc.
Qed.

Lemma Split_nonempty (s : string) (sep : ascii) : Split s sep <> [].
Proof.
  destruct s as [|c s]; simpl; [done|].
  destruct (Ascii.eqb c sep); [done|]. by destruct (Split s sep).
Qed.

Lemma Split_no_sep (s : string) : Contains s "/" = false -> Split s "/" = [s].
Proof.
  induction s as [|c s IH]; [done|].
  rewrite Contains_slash_cons. intros [Hc Hs]%orb_false_elim.
  simpl. rewrite Hc, (IH Hs). done.
Qed.

Lemma Split_app_sep (a b : string) :
  Split (a +:+ String "/" b) "/" = Split a "/" ++ Split b "/".
Proof.
  induction a as [|c a IH]; [done|].
  rewrite app_cons_str. simpl. rewrite IH. destruct (Ascii.eqb c "/"); [done|].
  pose proof (Split_nonempty a "/"). by destruct (Split a "/").
Qed.

Lemma Join_cons_cons (e e' : string) (es : list string) (sep : string) :
  Join (e :: e' :: es) sep = e +:+ sep +:+ Join (e' :: es) sep.
Proof. done. Qed.

Lemma Split_Join (es : list string) :
  es <> [] -> Forall (fun e => Contains e "/" = false) es ->
  Split (Join es "/") "/" = es.
Proof.
  induction es as [|e es IH]; [done|]. intros _ Hes.
  apply Forall_cons in Hes as [He Hes].
  destruct es as [|e' es].
  - by apply Split_no_sep.
  - rewrite Join_cons_cons. change ("/" +:+ ?s) with (String "/" s).
    rewrite Split_app_sep, (Split_no_sep e He), IH; done.
Qed.

Lemma Join_app_sep (ds es : list string) :
  ds <> [] -> es <> [] ->
  Join (ds ++ es) "/" = Join ds "/" +:+ "/" +:+ Join es "/".
Proof.
  induction ds as [|d ds IH]; [done|]. intros _ Hes.
  destruct ds as [|d' ds].
  - destruct es; done.
  - change ((d :: d' :: ds) ++ es) with (d :: d' :: (ds ++ es)).
    rewrite !Join_cons_cons. change (d' :: ds ++ es) with ((d' :: ds) ++ es).
    rewrite IH by done. by rewrite !app_assoc_str.
Qed.

End string_facts.

(** ** Cleaning and joining paths *)

Section filepath_facts.
Import GoStrings Filepath.

Lemma isElem_spec (e : string) :
  isElem e = true <-> e <> "" /\ e <> "." /\ e <> ".." /\ Contains e "/" = false.
Proof.
  unfold isElem. rewrite !andb_true_iff, !negb_true_iff, !String.eqb_neq. tauto.
Qed.

Lemma isElem_no_sep (e : string) : isElem e = true -> Contains e "/" = false.
Proof. rewrite isElem_spec. tauto. Qed.

Lemma isElem_not_rooted (e : string) : isElem e = true -> HasPrefix e "/" = false.
Proof.
  intros (He & _ & _ & Hs)%isElem_spec. destruct e as [|c e]; [done|].
  rewrite Contains_slash_cons in Hs. apply orb_false_elim in Hs as [Hc _].
  simpl. by rewrite Hc.
Qed.

Lemma cleanStep_elem (rooted : bool) (out : list string) (e : string) :
  isElem e = true -> cleanStep rooted out e = e :: out.
Proof.
  intros (? & ? & ? & _)%isElem_spec. unfold cleanStep.
  repeat case_decide; done.
Qed.

Lemma cleanStep_empty (rooted : bool) (out : list string) :
  cleanStep rooted out "" = out.
Proof. done. Qed.

Lemma fold_cleanStep_loose (rooted : bool) (es out : list string) :
  Forall loose es ->
  fold_left (cleanStep rooted) es out = rev (filter (fun e => e <> "") es) ++ out.
Proof.
  intros Hes. revert out. induction Hes as [|e es He _ IH]; intros out; [done|].
  simpl. destruct He as [->|He].
  - rewrite cleanStep_empty, IH. by rewrite filter_cons_False by naive_solver.
  - rewrite cleanStep_elem, IH by done.
    rewrite filter_cons_True by (apply isElem_spec in He; tauto).
    simpl. by rewrite <- app_assoc.
Qed.

Lemma cleanElems_loose (rooted : bool) (es : list string) :
  Forall loose es -> cleanElems rooted es = filter (fun e => e <> "") es.
Proof.
  intros Hes. unfold cleanElems.
  rewrite fold_cleanStep_loose, app_nil_r, rev_involutive; done.
Qed.

Lemma filter_elems (es : list string) :
  Forall (fun e => isElem e = true) es -> filter (fun e => e <> "") es = es.
Proof.
  induction 1 as [|e es He _ IH]; [done|].
  rewrite filter_cons_True by (apply isElem_spec in He; tauto). by rewrite IH.
Qed.

Lemma elems_loose (es : list string) :
  Forall (fun e => isElem e = true) es -> Forall loose es.
Proof. intros H. eapply Forall_impl; [done|]. by right. Qed.

Lemma loose_no_sep (es : list string) :
  Forall loose es -> Forall (fun e => Contains e "/" = false) es.
Proof.
  intros H. eapply Forall_impl; [done|].
  intros e [->|He]; [done|by apply isElem_no_sep].
Qed.

Lemma Split_absPath (es : list string) :
  es <> [] -> Forall loose es -> Split (absPath es) "/" = "" :: es.
Proof.
  intros Hne Hes. unfold absPath.
  change ("/" +:+ ?s) with (String "/" s). simpl.
  by rewrite Split_Join by (done || by apply loose_no_sep).
Qed.

(** A rooted path of loose elements cleans to the rooted path of its
    non-empty elements. *)
Lemma Clean_absPath (es : list string) :
  Forall loose es -> Clean (absPath es) = absPath (filter (fun e => e <> "") es).
Proof.
  intros Hes. destruct es as [|e es]; [done|].
  unfold Clean. rewrite decide_False by done.
  change (HasPrefix (absPath (e :: es)) "/") with true. cbv zeta iota.
  rewrite Split_absPath by done.
  rewrite cleanElems_loose by (constructor; [by left|done]).
  by rewrite filter_cons_False by naive_solver.
Qed.

Lemma Clean_absPath_elems (es : list string) :
  Forall (fun e => isElem e = true) es -> Clean (absPath es) = absPath es.
Proof.
  intros Hes. rewrite Clean_absPath by by apply elems_loose.
  by rewrite filter_elems.
Qed.

(** Joining loose elements below a rooted path of plain elements. *)
Lemma Join_under (ds es : list string) :
  Forall (fun e => isElem e = true) ds -> Forall loose es -> es <> [] ->
  Filepath.Join (absPath ds :: es) = absPath (ds ++ filter (fun e => e <> "") es).
Proof.
  intros Hds Hes Hne. unfold Filepath.Join. simpl.
  destruct es as [|e es]; [done|].
  destruct ds as [|d ds].
  - change (absPath [] +:+ "/" +:+ GoStrings.Join (e :: es) "/")
      with (absPath ("" :: e :: es)).
    rewrite Clean_absPath by (constructor; [by left|done]).
    by rewrite filter_cons_False by naive_solver.
  - unfold absPath at 1. rewrite app_assoc_str, <- Join_app_sep by done.
    fold (absPath ((d :: ds) ++ e :: es)).
    rewrite Clean_absPath by (apply Forall_app; split; [by apply elems_loose|done]).
    by rewrite filter_app, filter_elems.
Qed.

(** A relative path of plain elements is clean. *)
Lemma Clean_relPath (es : list string) :
  es <> [] -> Forall (fun e => isElem e = true) es ->
  Clean (GoStrings.Join es "/") = GoStrings.Join es "/".
Proof.
  intros Hne Hes. unfold Clean.
  assert (Hrel : HasPrefix (GoStrings.Join es "/") "/" = false).
  { destruct es as [|e es]; [done|]. apply Forall_cons in Hes as [He _].
    pose proof (isElem_not_rooted e He) as Hr.
    apply isElem_spec in He as (He & _).
    destruct e as [|c e]; [done|].
    destruct es; [done|]. rewrite Join_cons_cons, app_cons_str.
    simpl in *. by destruct (Ascii.eqb c "/"). }
  rewrite decide_False.
  2:{ intros Heq. destruct es as [|e es]; [done|].
      apply Forall_cons in Hes as [(He & _)%isElem_spec _].
      destruct e; [done|]. by destruct es. }
  rewrite Hrel. cbv zeta iota.
  rewrite Split_Join by (done || by apply loose_no_sep, elems_loose).
  rewrite cleanElems_loose, filter_elems by (done || by apply elems_loose).
  by destruct es.
Qed.

Lemma relElems_absPath (es : list string) :
  Forall (fun e => isElem e = true) es -> relElems (absPath es) = "" :: es.
Proof.
  intros Hes. destruct es as [|e es]; [done|].
  unfold relElems. rewrite !decide_False.
  - apply Split_absPath; [done|by apply elems_loose].
  - apply Forall_cons in Hes as [(He & _)%isElem_spec _].
    unfold absPath. destruct e; [done|]. by destruct es.
  - done.
Qed.

Lemma dropCommon_app (ds es : list string) : dropCommon ds (ds ++ es) = ([], es).
Proof.
  induction ds as [|d ds IH]; [by destruct es|].
  simpl. by rewrite decide_True.
Qed.

(** The path of a file below the base, relative to the base. *)
Lemma Rel_under (ds es : list string) :
  Forall (fun e => isElem e = true) ds -> Forall (fun e => isElem e = true) es ->
  es <> [] ->
  Rel (absPath ds) (absPath (ds ++ es)) = Some (GoStrings.Join es "/").
Proof.
  intros Hds Hes Hne. unfold Rel.
  assert (Hall : Forall (fun e => isElem e = true) (ds ++ es))
    by (apply Forall_app; done).
  rewrite !Clean_absPath_elems by done.
  rewrite decide_False.
  2:{ intros Heq. apply (f_equal relElems) in Heq.
      rewrite !relElems_absPath in Heq by done.
      injection Heq as Heq. rewrite <- (app_nil_r ds) in Heq at 2.
      by apply app_inv_head in Heq. }
  rewrite decide_False by done.
  change (HasPrefix (absPath ?x) "/") with true. simpl negb. cbv iota.
  rewrite !relElems_absPath by done.
  change ("" :: ds ++ es) with (("" :: ds) ++ es).
  by rewrite dropCommon_app.
Qed.

End filepath_facts.

(** ** Archive entry paths: building and parsing *)

Section entry_paths.
Import GoStrings Filepath.

Local Ltac forall_list := repeat first [ apply Forall_nil_2 | apply Forall_cons_2 ].

Lemma json_name_isElem (name : string) :
  Contains name "/" = false -> isElem (name +:+ ".json") = true.
Proof.
  intros Hname. apply isElem_spec. repeat split.
  - intros H%(f_equal String.length). rewrite length_app_str in H. simpl in H. lia.
  - intros H%(f_equal String.length). rewrite length_app_str in H. simpl in H. lia.
  - intros H%(f_equal String.length). rewrite length_app_str in H. simpl in H. lia.
  - by rewrite Contains_slash_app, Hname.
Qed.

Lemma grammarElems_isElem (gvr : GroupVersionResource) (namespace name : string) :
  loose (Group gvr) -> isElem (Version gvr) = true -> isElem (Resource gvr) = true ->
  loose namespace -> Contains name "/" = false ->
  Forall (fun e => isElem e = true) (grammarElems gvr namespace name).
Proof.
  intros Hg Hv Hr Hns Hname. pose proof (json_name_isElem name Hname).
  unfold grammarElems.
  assert (forall e, loose e -> e <> "" -> isElem e = true) as Hl
    by (intros e [->|He] ?; done).
  repeat case_decide; simpl; forall_list; try done; by apply Hl.
Qed.

(** What [backupResource] joins below the staging directory, once cleaned. *)
Lemma staged_elems (gvr : GroupVersionResource) (namespace name : string) :
  loose (Group gvr) -> isElem (Version gvr) = true -> isElem (Resource gvr) = true ->
  loose namespace ->
  filter (fun e => e <> "")
    (if decide (namespace <> "")
     then ["namespaces"; namespace; Group gvr; Version gvr; Resource gvr]
     else ["cluster"; Group gvr; Version gvr; Resource gvr])
  ++ [name +:+ ".json"]
  = grammarElems gvr namespace name.
Proof.
  intros Hg (Hv & _)%isElem_spec (Hr & _)%isElem_spec Hns. unfold grammarElems.
  assert (forall e, isElem e = true -> e <> "") as Hne
    by (intros e He%isElem_spec; tauto).
  destruct gvr as [g v r]. simpl in *.
  destruct Hg as [->|Hg%Hne], Hns as [->|Hns%Hne];
    repeat case_decide; try done;
    repeat first [ rewrite filter_cons_True by done
                 | rewrite filter_cons_False by naive_solver ];
    rewrite filter_nil; done.
Qed.

Lemma archiveEntryName_grammar (ds : list string) (gvr : GroupVersionResource) (namespace name : string) :
  Forall (fun e => isElem e = true) ds ->
  loose (Group gvr) -> isElem (Version gvr) = true -> isElem (Resource gvr) = true ->
  loose namespace -> Contains name "/" = false ->
  archiveEntryName (absPath ds) gvr namespace name = Some (grammarPath gvr namespace name).
Proof.
  intros Hds Hg Hv Hr Hns Hname.
  pose proof (grammarElems_isElem gvr namespace name Hg Hv Hr Hns Hname) as Hall.
  pose proof (json_name_isElem name Hname) as Hjson.
  rewrite <- staged_elems in Hall by done.
  apply Forall_app in Hall as [Hdir _].
  unfold archiveEntryName, resourceFile.
  assert (resourceDir (absPath ds) gvr namespace
          = absPath (ds ++ filter (fun e => e <> "")
              (if decide (namespace <> "")
               then ["namespaces"; namespace; Group gvr; Version gvr; Resource gvr]
               else ["cluster"; Group gvr; Version gvr; Resource gvr]))) as ->.
  { unfold resourceDir. case_decide; apply Join_under; try done;
      forall_list; (done || by right || by left). }
  rewrite Join_under; [|by apply Forall_app|by forall_list; right|done].
  rewrite (filter_elems [name +:+ ".json"]) by by forall_list.
  rewrite <- app_assoc, Rel_under; [|done|by apply Forall_app; split; forall_list|].
  - unfold grammarPath. by rewrite staged_elems.
  - by destruct (filter _ _).
Qed.

Lemma parseArchiveEntry_grammar (gvr : GroupVersionResource) (namespace name : string) :
  loose (Group gvr) -> isElem (Version gvr) = true -> isElem (Resource gvr) = true ->
  loose namespace -> name <> "" -> Contains name "/" = false ->
  parseArchiveEntry (grammarPath gvr namespace name) = inr (gvr, namespace, name).
Proof.
  intros Hg Hv Hr Hns Hne Hname.
  pose proof (grammarElems_isElem gvr namespace name Hg Hv Hr Hns Hname) as Hall.
  assert (grammarElems gvr namespace name <> []) as Hnil
    by (unfold grammarElems; intros [_ [_ ?]%app_eq_nil]%app_eq_nil; done).
  unfold parseArchiveEntry, ToSlash, grammarPath.
  rewrite Clean_relPath by done.
  rewrite Split_Join by (done || by apply loose_no_sep, elems_loose).
  assert (forall e, isElem e = true -> e <> "") as Hnempty
    by (intros e He%isElem_spec; tauto).
  destruct gvr as [g v r]. unfold grammarElems. simpl in *.
  destruct Hg as [->|Hg%Hnempty], Hns as [->|Hns%Hnempty];
    repeat case_decide; simpl in *; rewrite ?TrimSuffix_app in *; done.
Qed.

End entry_paths.

(** C3, as the code has it: for a staging directory with plain elements and
    a coordinate whose version and resource are plain path elements (not
    empty, not [.] or [..], free of slashes), whose group and namespace are
    either empty or plain, and whose object name is not empty and free of
    slashes, the archive entry follows the path grammar and parsing it
    returns the same coordinate, namespace and name. *)
Theorem archive_entry_roundtrip (ds : list string) (gvr : GroupVersionResource) (namespace name : string) :
  forallb Filepath.isElem ds = true ->
  Filepath.isElem (Version gvr) = true -> Filepath.isElem (Resource gvr) = true ->
  Group gvr = "" \/ Filepath.isElem (Group gvr) = true ->
  namespace = "" \/ Filepath.isElem namespace = true ->
  name <> "" -> GoStrings.Contains name "/" = false ->
  archiveEntryName (Filepath.absPath ds) gvr namespace name
    = Some (grammarPath gvr namespace name)
  /\ parseArchiveEntry (grammarPath gvr namespace name) = inr (gvr, namespace, name).
Proof.
  intros Hds Hv Hr Hg Hns Hne Hname. split.
  - apply archiveEntryName_grammar; try done.
    apply Forall_forall. intros e He. apply list_elem_of_In in He.
    by apply (proj1 (forallb_forall _ _) Hds).
  - by apply parseArchiveEntry_grammar.
Qed.

Lemma archive_entry_roundtrip_witness :
  archiveEntryName "/tmp/cluster-backup-1" (mkGVR "apps" "v1" "deployments") "default" "web"
    = Some "namespaces/default/apps/v1/deployments/web.json"
  /\ parseArchiveEntry "namespaces/default/apps/v1/deployments/web.json"
    = inr (mkGVR "apps" "v1" "deployments", "default", "web").
Proof.
  apply (archive_entry_roundtrip ["tmp"; "cluster-backup-1"]
           (mkGVR "apps" "v1" "deployments") "default" "web");
    (reflexivity || (right; reflexivity) || discriminate).
Defined.

(** C3, as the claim words it, fails when a segment is empty: with the
    group [apps] and an empty version the entry has two segments after the
    scope prefix and is read back as the core group with version [apps]. *)
Lemma archive_entry_roundtrip_counterexample :
  archiveEntryName "/tmp/cluster-backup-1" (mkGVR "apps" "" "deployments") "" "web"
    = Some "cluster/apps/deployments/web.json"
  /\ parseArchiveEntry "cluster/apps/deployments/web.json"
    = inr (mkGVR "" "apps" "deployments", "", "web")
  /\ mkGVR "" "apps" "deployments" <> mkGVR "apps" "" "deployments".
Proof. repeat split; [vm_compute; reflexivity..|discriminate]. Qed.

(** ** The retention manager: what is removed *)

Section retention_frame.
Implicit Types (fs : FileSystem) (entries : gmap string DirEntry).
Implicit Types (f : string * DirEntry) (files : list (string * DirEntry)).

Lemma ReadDir_inr fs path files :
  ReadDir fs path = inr files ->
  exists entries, fs !! path = Some (Directory entries)
    /\ files = merge_sort byName (map_to_list entries).
Proof.
  unfold ReadDir. destruct (fs !! path) as [[|entries]|]; try done.
  intros [= <-]. by exists entries.
Qed.

Lemma elem_of_sorted_entries entries f :
  f ∈ merge_sort byName (map_to_list entries) <-> entries !! f.1 = Some f.2.
Proof.
  rewrite merge_sort_Permutation. destruct f as [name e].
  apply elem_of_map_to_list.
Qed.

Lemma elem_of_archiveFiles files f :
  f ∈ archiveFiles files <-> isArchiveFile f /\ f ∈ files.
Proof.
  unfold archiveFiles. rewrite merge_sort_Permutation. apply list_elem_of_filter.
Qed.

Lemma onlyArchivesRemoved_refl dir fs : onlyArchivesRemoved dir fs fs.
Proof.
  split; [done|]. destruct (fs !! dir) as [[|old]|]; try done.
  exists old. split; [done|]. by left.
Qed.

Lemma onlyArchivesRemoved_lookup dir fs0 fs old new name e :
  onlyArchivesRemoved dir fs0 fs ->
  fs0 !! dir = Some (Directory old) -> fs !! dir = Some (Directory new) ->
  new !! name = Some e -> old !! name = Some e.
Proof.
  intros [_ H] Hold Hnew Hname. rewrite Hold in H.
  destruct H as (new' & Hnew' & H). rewrite Hnew in Hnew'. injection Hnew' as <-.
  destruct (H name) as [<-|[Hnone _]]; [done|congruence].
Qed.

Lemma Remove_onlyArchivesRemoved dir fs0 fs f :
  onlyArchivesRemoved dir fs0 fs -> listed dir fs0 f ->
  onlyArchivesRemoved dir fs0 (Remove fs dir f.1).2.
Proof.
  intros Hpr [[Hdir Hname] (old & Hold & Hf)]. unfold Remove.
  destruct (fs !! dir) as [[|new]|] eqn:Hnew; try done.
  destruct (new !! f.1) as [e|] eqn:He; [|done].
  destruct (Locked e); [done|]. simpl.
  pose proof (onlyArchivesRemoved_lookup _ _ _ _ _ _ _ Hpr Hold Hnew He) as Holde.
  destruct Hpr as [Hother Hin]. split.
  - intros path Hpath. rewrite lookup_insert_ne by done. by apply Hother.
  - rewrite Hold in *. destruct Hin as (new' & Hnew' & Hin).
    rewrite Hnew in Hnew'. injection Hnew' as <-.
    exists (delete f.1 new). rewrite lookup_insert_eq. split; [done|].
    intros name. destruct (decide (name = f.1)) as [->|Hne].
    + right. rewrite lookup_delete_eq. split; [done|].
      exists f.2. by rewrite Hf.
    + rewrite lookup_delete_ne by done. apply Hin.
Qed.

Lemma removeExpired_onlyArchivesRemoved dir fs0 cutoff files fs :
  onlyArchivesRemoved dir fs0 fs -> Forall (listed dir fs0) files ->
  onlyArchivesRemoved dir fs0 (removeExpired fs dir cutoff files).2.
Proof.
  intros Hpr Hfiles. revert fs Hpr.
  induction Hfiles as [|f files Hf _ IH]; intros fs Hpr; [done|].
  simpl. destruct (ModTime f.2) as [modTime|]; [|by apply IH].
  destruct (modTime <? cutoff); [|by apply IH].
  pose proof (Remove_onlyArchivesRemoved dir fs0 fs f Hpr Hf) as Hrm.
  destruct (Remove fs dir f.1) as [[[]|[]] fs']; simpl in *; auto.
Qed.

Lemma removeOldest_onlyArchivesRemoved dir fs0 toDelete files fs :
  onlyArchivesRemoved dir fs0 fs -> Forall (listed dir fs0) files ->
  onlyArchivesRemoved dir fs0 (removeOldest fs dir toDelete files).2.
Proof.
  intros Hpr Hfiles. revert toDelete fs Hpr.
  induction Hfiles as [|f files Hf _ IH]; intros [|toDelete] fs Hpr; try done.
  simpl.
  pose proof (Remove_onlyArchivesRemoved dir fs0 fs f Hpr Hf) as Hrm.
  destruct (Remove fs dir f.1) as [[[]|[]] fs']; simpl in *; auto.
Qed.

Lemma ReadDir_listed dir fs0 fs files :
  onlyArchivesRemoved dir fs0 fs -> ReadDir fs dir = inr files ->
  Forall (listed dir fs0) (archiveFiles files).
Proof.
  intros Hpr (new & Hnew & ->)%ReadDir_inr. apply Forall_forall.
  intros f [Harch Hf%elem_of_sorted_entries]%elem_of_archiveFiles.
  split; [done|]. pose proof Hpr as [_ Hin].
  destruct (fs0 !! dir) as [[|old]|] eqn:Hold; try congruence.
  exists old. split; [done|].
  by eapply onlyArchivesRemoved_lookup.
Qed.

End retention_frame.

(** C8: a destination whose resolved directory does not exist is nothing to
    prune: [CleanupArchives] returns without an error and leaves the file
    system as it is, whatever the retention and the ceiling. *)
Theorem CleanupArchives_missing_directory (now : Z) (fs : FileSystem) (storagePath : string)
    (retentionDays maxArchives : option Z) :
  fs !! resolveStoragePath storagePath = None ->
  CleanupArchives now fs storagePath retentionDays maxArchives = (Returns (), fs).
Proof. intros Hmissing. unfold CleanupArchives, ReadDir. by rewrite Hmissing. Qed.

Lemma CleanupArchives_missing_directory_witness :
  ({[ "/srv" := Directory ∅ ]} : FileSystem) !! resolveStoragePath "/srv/missing" = None
  /\ CleanupArchives 0 {[ "/srv" := Directory ∅ ]} "/srv/missing" (Some 7) (Some 3)
     = (Returns (), {[ "/srv" := Directory ∅ ]}).
Proof.
  split; [reflexivity|].
  apply (CleanupArchives_missing_directory 0 {[ "/srv" := Directory ∅ ]} "/srv/missing"
           (Some 7) (Some 3)).
  reflexivity.
Defined.

(** C10: whatever [CleanupArchives] returns, all it has done to the file
    system is removing entries of the destination directory that are no
    directories and whose names start with [cluster-backup-] and end with
    [.tar.gz]; every other entry and every other path is as before. *)
Theorem CleanupArchives_removes_only_archives (now : Z) (fs : FileSystem) (storagePath : string)
    (retentionDays maxArchives : option Z) :
  onlyArchivesRemoved (resolveStoragePath storagePath) fs
    (CleanupArchives now fs storagePath retentionDays maxArchives).2.
Proof.
  unfold CleanupArchives. set (dir := resolveStoragePath storagePath).
  destruct (ReadDir fs dir) as [[]|entries] eqn:Hread;
    [apply onlyArchivesRemoved_refl..|].
  pose proof (ReadDir_listed dir fs fs entries (onlyArchivesRemoved_refl dir fs) Hread)
    as Hfiles.
  assert (Haged : onlyArchivesRemoved dir fs
            (match retentionDays with
             | None => (inr (), fs)
             | Some days => removeExpired fs dir (cutoffTime now days) (archiveFiles entries)
             end).2).
  { destruct retentionDays; [|apply onlyArchivesRemoved_refl].
    by apply removeExpired_onlyArchivesRemoved; [apply onlyArchivesRemoved_refl|]. }
  destruct (match retentionDays with
            | None => _
            | Some days => _
            end) as [[err|[]] fs1]; simpl in Haged; [done|].
  destruct maxArchives as [maxArchives|]; [|done].
  destruct (ReadDir fs1 dir) as [[]|entries2] eqn:Hread2; try done.
  destruct (maxArchives <? _); [|done].
  apply removeOldest_onlyArchivesRemoved; [done|].
  by eapply ReadDir_listed.
Qed.

(** ** Name filters *)

Section name_filters.

Lemma contains_elem_of (slice : list string) (item : string) :
  contains slice item = true <-> item ∈ slice.
Proof.
  induction slice as [|s slice IH]; simpl.
  - split; [done|]. by intros ?%elem_of_nil.
  - rewrite elem_of_cons. case_decide; naive_solver.
Qed.

Lemma elem_of_foldl_makeStringSet (f : string -> string) (values : list string)
    (acc : gset string) (x : string) :
  x ∈ foldl (fun set value =>
               if decide (f value = "") then set else {[ f value ]} ∪ set) acc values
  <-> x ∈ acc \/ (x <> "" /\ exists v, v ∈ values /\ f v = x).
Proof.
  revert acc. induction values as [|v values IH]; intros acc; simpl.
  - split; [by left|]. intros [?|(_ & v & ?%elem_of_nil & _)]; done.
  - rewrite IH. setoid_rewrite elem_of_cons. case_decide; set_solver.
Qed.

Lemma elem_of_makeStringSet (f : string -> string) (values : list string) (x : string) :
  x ∈ makeStringSet values (Some f) <-> x <> "" /\ exists v, v ∈ values /\ f v = x.
Proof.
  unfold makeStringSet. rewrite elem_of_foldl_makeStringSet. set_solver.
Qed.

Lemma size_pos_iff (X : gset string) : (0 <? size X)%nat = true <-> exists x, x ∈ X.
Proof.
  rewrite Nat.ltb_lt. split.
  - intros Hpos. apply set_choose_L. intros ->. rewrite size_empty in Hpos. lia.
  - intros [x Hx]. destruct (decide (size X = 0)%nat) as [H0%size_empty_iff|]; [|lia].
    set_solver.
Qed.

Lemma makeStringSet_trimmedExcludes (TrimSpace : string -> string) (opts : BackupOptions) :
  makeStringSet (ExcludeNamespaces opts) (Some TrimSpace) = trimmedExcludes TrimSpace opts.
Proof.
  apply set_eq. intros x. rewrite elem_of_makeStringSet. unfold trimmedExcludes.
  rewrite elem_of_list_to_set, list_elem_of_filter, list_elem_of_fmap. naive_solver.
Qed.

Lemma List_filter_bool {A} (f : A -> bool) (l : list A) :
  List.filter f l = filter (fun x => f x = true) l.
Proof.
  induction l as [|x l IH]; [done|]. simpl.
  destruct (f x) eqn:Hx.
  - by rewrite filter_cons_True, IH.
  - rewrite filter_cons_False, IH; [done|congruence].
Qed.

End name_filters.

(** C7, as the code has it: a non-empty include list is returned verbatim
    and the world is left as it was (no request is sent); otherwise the
    names the server lists are returned without those that equal a trimmed,
    non-empty entry of the exclude list; and an error is the error of the
    listing request. *)
Theorem getNamespacesToBackup_resolution (TrimSpace : string -> string)
    {W : Type} `{!DynamicClient W} (opts : BackupOptions) (w : W) :
  (IncludeNamespaces opts <> [] ->
     getNamespacesToBackup TrimSpace opts w = (inr (IncludeNamespaces opts), w))
  /\ (IncludeNamespaces opts = [] ->
        getNamespacesToBackup TrimSpace opts w
        = match clientList namespacesGVR "" w with
          | (inl err, w') => (inl err, w')
          | (inr items, w') =>
              (inr (filter (fun ns => ns ∉ trimmedExcludes TrimSpace opts) (GetName <$> items)),
               w')
          end)
  /\ (forall ns, ns ∈ trimmedExcludes TrimSpace opts
        <-> ns <> "" /\ exists e, e ∈ ExcludeNamespaces opts /\ TrimSpace e = ns)
  /\ (forall err w', getNamespacesToBackup TrimSpace opts w = (inl err, w') ->
        IncludeNamespaces opts = [] /\ clientList namespacesGVR "" w = (inl err, w')).
Proof.
  unfold getNamespacesToBackup. split; [|split; [|split]].
  - intros Hinc. by destruct (IncludeNamespaces opts).
  - intros ->. simpl.
    destruct (clientList namespacesGVR "" w) as [[err|items] w']; [done|].
    rewrite makeStringSet_trimmedExcludes, List_filter_bool. do 2 f_equal.
    apply list_filter_iff. intros ns.
    rewrite negb_true_iff, andb_false_iff, bool_decide_eq_false.
    split; [|tauto]. intros [Hsize|Hns]; [|done].
    intros Hin. apply not_true_iff_false in Hsize. apply Hsize, size_pos_iff. eauto.
  - intros ns. by rewrite <- makeStringSet_trimmedExcludes, elem_of_makeStringSet.
  - intros err w'. destruct (IncludeNamespaces opts); simpl; [|congruence].
    destruct (clientList namespacesGVR "" w) as [[err'|items] w'']; [|congruence].
    by intros [= -> ->].
Qed.

(** The scenario of [TestGetNamespacesToBackupExcludes]: of the namespaces
    [default], [kube-system] and [custom], excluding [kube-system] leaves
    the other two. *)
Example getNamespacesToBackup_excludes :
  let namespaceObject (name : string) : Object :=
    {[ "metadata" := JObject {[ "name" := JString name ]} ]} in
  let server := mkStore
    (list_to_map ((fun name => ((namespacesGVR, "", name), namespaceObject name))
                    <$> ["default"; "kube-system"; "custom"])) 0 [] in
  exists nss,
    (getNamespacesToBackup GoStrings.TrimSpaceASCII
       (mkBackupOptions [] ["kube-system"] true []) server).1 = inr nss
    /\ nss ≡ₚ ["default"; "custom"].
Proof.
  eexists. split; [vm_compute; reflexivity|]. apply Permutation_swap.
Qed.

(** C7, as the claim words it, fails for an exclude entry with blanks
    around it: the server lists [kube-system], the exclude list holds
    [" kube-system "] and not [kube-system], and the namespace is left out
    all the same. *)
Lemma getNamespacesToBackup_counterexample :
  let server := mkStore
    {[ (namespacesGVR, "", "kube-system")
         := {[ "metadata" := JObject {[ "name" := JString "kube-system" ]} ]} ]} 0 [] in
  let opts := mkBackupOptions [] [" kube-system "] true [] in
  (storeList namespacesGVR "" server).1
    = inr [ {[ "metadata" := JObject {[ "name" := JString "kube-system" ]} ]} ]
  /\ ("kube-system" ∉ ExcludeNamespaces opts)
  /\ (getNamespacesToBackup GoStrings.TrimSpaceASCII opts server).1 = inr [].
Proof.
  split; [vm_compute; reflexivity|]. split; [|vm_compute; reflexivity].
  simpl. intros [?|?%elem_of_nil]%elem_of_cons; done.
Qed.

(** ** Eligibility of a resource type *)

Section eligibility.
Variables ToLower TrimSpace : string -> string.

Lemma elem_of_resourceTypeFilterOf (opts : BackupOptions) (x : string) :
  x ∈ resourceTypeFilterOf ToLower TrimSpace opts
  <-> x <> "" /\ exists f, f ∈ ResourceTypes opts /\ ToLower (TrimSpace f) = x.
Proof. unfold resourceTypeFilterOf. apply elem_of_makeStringSet. Qed.

(** The filter passes a kind when it holds nothing, or holds the kind in
    lower case. *)
Lemma eligible_filter (opts : BackupOptions) (kind : string) :
  (if (0 <? size (resourceTypeFilterOf ToLower TrimSpace opts))%nat
   then bool_decide (ToLower kind ∈ resourceTypeFilterOf ToLower TrimSpace opts)
   else true) = true
  <-> (forall f, f ∈ ResourceTypes opts -> ToLower (TrimSpace f) = "")
      \/ (exists f, f ∈ ResourceTypes opts /\ ToLower (TrimSpace f) <> ""
                    /\ ToLower (TrimSpace f) = ToLower kind).
Proof.
  destruct (0 <? size _)%nat eqn:Hsize.
  - apply size_pos_iff in Hsize as [x Hx].
    rewrite bool_decide_eq_true, elem_of_resourceTypeFilterOf.
    apply elem_of_resourceTypeFilterOf in Hx as (Hx & f & Hf & <-).
    split.
    + intros (Hk & g & Hg & Heq). right. exists g. by rewrite Heq.
    + intros [Hall|(g & Hg & Hne & Heq)]; [by specialize (Hall f Hf)|].
      rewrite <- Heq. eauto.
  - split; [|done]. intros _. left. intros f Hf.
    destruct (decide (ToLower (TrimSpace f) = "")) as [|Hne]; [done|].
    apply not_true_iff_false in Hsize. exfalso. apply Hsize, size_pos_iff.
    exists (ToLower (TrimSpace f)). apply elem_of_resourceTypeFilterOf. eauto.
Qed.

Context {W : Type} `{!DynamicClient W}.

Lemma collectResource_fromEligible (opts : BackupOptions) (lists : list APIResourceList)
    (l : APIResourceList) (gv : string * string) (r : APIResource) (st st' : LoopState) :
  l ∈ lists -> ParseGroupVersion (GroupVersion l) = Some gv -> r ∈ APIResources l ->
  Forall (fromEligible ToLower TrimSpace opts lists) (captured st) ->
  collectResource ToLower TrimSpace opts gv st r = inr st' ->
  Forall (fromEligible ToLower TrimSpace opts lists) (captured st').
Proof.
  intros Hl Hgv Hr Hst. unfold collectResource.
  destruct (eligible _ _ r) eqn:Hel; simpl; [|by intros [= <-]].
  assert (forall ns, fromEligible ToLower TrimSpace opts lists (mkGVR gv.1 gv.2 (Name r), ns)) as Hcall
    by (intros ns; by exists l, gv, r).
  destruct (Namespaced r).
  - destruct (match namespaces st with
              | Some nss => _
              | None => _
              end) as [[err|nss] w]; [done|].
    intros [= <-]. clear Hel Hr.
    generalize (Some nss) as loaded. revert w.
    assert (forall nss' loaded w acc,
              Forall (fromEligible ToLower TrimSpace opts lists) acc ->
              Forall (fromEligible ToLower TrimSpace opts lists)
                (captured (foldl (fun st ns =>
                     mkLoopState (namespaces st)
                       (backupResourceRequest (mkGVR gv.1 gv.2 (Name r)) ns (world st))
                       ((mkGVR gv.1 gv.2 (Name r), ns) :: captured st))
                   (mkLoopState loaded w acc) nss'))) as Hfold.
    { induction nss' as [|ns nss' IH]; intros loaded w acc Hacc; [done|].
      simpl. apply IH. by constructor. }
    intros w loaded. by apply Hfold.
  - destruct (IncludeClusterResources opts); intros [= <-]; [|done].
    simpl. by constructor.
Qed.

Lemma collectResources_fromEligible (opts : BackupOptions) (lists : list APIResourceList)
    (l : APIResourceList) (gv : string * string) (rs : list APIResource) (st st' : LoopState) :
  l ∈ lists -> ParseGroupVersion (GroupVersion l) = Some gv -> rs ⊆ APIResources l ->
  Forall (fromEligible ToLower TrimSpace opts lists) (captured st) ->
  collectResources ToLower TrimSpace opts gv st rs = inr st' ->
  Forall (fromEligible ToLower TrimSpace opts lists) (captured st').
Proof.
  intros Hl Hgv. revert st. induction rs as [|r rs IH]; intros st Hrs Hst; simpl.
  - by intros [= <-].
  - destruct (collectResource _ _ opts gv st r) as [err|st1] eqn:Hr; [done|].
    apply IH; [set_solver|].
    apply (collectResource_fromEligible opts lists l gv r st st1); try done.
    apply Hrs. by left.
Qed.

Lemma collectLists_fromEligible (opts : BackupOptions) (lists ls : list APIResourceList)
    (st st' : LoopState) :
  ls ⊆ lists -> Forall (fromEligible ToLower TrimSpace opts lists) (captured st) ->
  collectLists ToLower TrimSpace opts st ls = inr st' ->
  Forall (fromEligible ToLower TrimSpace opts lists) (captured st').
Proof.
  revert st. induction ls as [|l ls IH]; intros st Hls Hst; simpl.
  - by intros [= <-].
  - destruct (ParseGroupVersion (GroupVersion l)) as [gv|] eqn:Hgv.
    + destruct (collectResources _ _ opts gv st (APIResources l)) as [err|st1] eqn:Hrs;
        [done|].
      apply IH; [set_solver|].
      apply (collectResources_fromEligible opts lists l gv (APIResources l) st st1);
        try done.
      apply Hls. by left.
    + apply IH; [set_solver|done].
Qed.

End eligibility.

(** C9, as the code has it: a resource type passes the three guards exactly
    when its name holds no slash, its verbs hold [list], and either every
    filter entry normalizes (trimmed, lower case) to the empty string or
    some entry normalizes to a non-empty string that is the kind in lower
    case; and every [backupResource] call of a run is for a resource type
    that passes them. *)
Theorem CreateBackup_eligibility (ToLower TrimSpace : string -> string)
    {W : Type} `{!DynamicClient W} (opts : BackupOptions) :
  (forall r : APIResource,
     eligible ToLower (resourceTypeFilterOf ToLower TrimSpace opts) r = true
     <-> GoStrings.Contains (Name r) "/" = false
         /\ "list" ∈ Verbs r
         /\ ((forall f, f ∈ ResourceTypes opts -> ToLower (TrimSpace f) = "")
             \/ (exists f, f ∈ ResourceTypes opts /\ ToLower (TrimSpace f) <> ""
                           /\ ToLower (TrimSpace f) = ToLower (Kind r))))
  /\ (forall (lists : list APIResourceList) (w : W) calls,
        CreateBackup_calls ToLower TrimSpace opts lists w = inr calls ->
        forall call, call ∈ calls ->
        exists l gv r,
          l ∈ lists /\ ParseGroupVersion (GroupVersion l) = Some gv /\ r ∈ APIResources l
          /\ call.1 = mkGVR gv.1 gv.2 (Name r)
          /\ eligible ToLower (resourceTypeFilterOf ToLower TrimSpace opts) r = true).
Proof.
  split.
  - intros r. unfold eligible.
    rewrite !andb_true_iff, negb_true_iff, contains_elem_of, eligible_filter. tauto.
  - intros lists w calls. unfold CreateBackup_calls.
    destruct (collectLists _ _ opts _ lists) as [err|st] eqn:Hrun; [done|].
    intros [= <-] call Hcall%list_elem_of_In%in_rev%list_elem_of_In.
    apply collectLists_fromEligible with (lists := lists) in Hrun; [|done|by constructor].
    by apply (proj1 (Forall_forall _ _) Hrun).
Qed.

(** Filter entries are matched trimmed and without regard to case, and a
    filter of blanks is no filter. *)
Example eligible_normalized :
  let pods := mkAPIResource "pods" true "Pod" ["get"; "list"] in
  let filterOf types :=
    resourceTypeFilterOf GoStrings.ToLowerASCII GoStrings.TrimSpaceASCII
      (mkBackupOptions [] [] true types) in
  eligible GoStrings.ToLowerASCII (filterOf ["  deployment "; " POD"]) pods = true
  /\ eligible GoStrings.ToLowerASCII (filterOf ["Deployment"]) pods = false
  /\ eligible GoStrings.ToLowerASCII (filterOf [" "; ""]) pods = true
  /\ eligible GoStrings.ToLowerASCII (filterOf ["Pod"])
       (mkAPIResource "pods/status" true "Pod" ["get"; "list"]) = false
  /\ eligible GoStrings.ToLowerASCII (filterOf ["Pod"])
       (mkAPIResource "pods" true "Pod" ["get"]) = false.
Proof. vm_compute. done. Qed.

(** C9, as the claim words it, fails for a kind that is empty in lower
    case: the entry [" "] normalizes to the empty string, which is the
    kind in lower case, and yet the resource type is passed over, because
    the filter holds [pod] and keeps no empty entry. *)
Lemma CreateBackup_eligibility_counterexample :
  let opts := mkBackupOptions [] [] true [" "; "Pod"] in
  let r := mkAPIResource "things" true "" ["list"] in
  GoStrings.Contains (Name r) "/" = false
  /\ "list" ∈ Verbs r
  /\ (exists f, f ∈ ResourceTypes opts
        /\ GoStrings.ToLowerASCII (GoStrings.TrimSpaceASCII f) = GoStrings.ToLowerASCII (Kind r))
  /\ eligible GoStrings.ToLowerASCII
       (resourceTypeFilterOf GoStrings.ToLowerASCII GoStrings.TrimSpaceASCII opts) r = false.
Proof.
  split; [reflexivity|]. split; [by left|]. split; [|vm_compute; reflexivity].
  exists " ". split; [by left|reflexivity].
Qed.

(** ** The retention manager: what is left *)

Section retention_policy.
Implicit Types (fs : FileSystem) (entries : gmap string DirEntry).
Implicit Types (f : string * DirEntry) (files : list (string * DirEntry)).

Lemma wrap64_small (z : Z) : - 2 ^ 63 <= z < 2 ^ 63 -> wrap64 z = z.
Proof. intros Hz. unfold wrap64. rewrite Z.mod_small; lia. Qed.

Lemma cutoffTime_exact (now days : Z) :
  -106751 <= days <= 106751 -> cutoffTime now days = now - days * (24 * Hour).
Proof.
  intros Hdays. unfold cutoffTime, Hour.
  rewrite (wrap64_small (- days)) by lia.
  rewrite (wrap64_small (- days * 24)) by lia.
  rewrite wrap64_small by lia. lia.
Qed.

Lemma lookup_deleteAll (names : list string) entries (name : string) :
  deleteAll names entries !! name
  = if decide (name ∈ names) then None else entries !! name.
Proof.
  revert entries. induction names as [|n names IH]; intros entries; [done|].
  change (deleteAll (n :: names) entries) with (deleteAll names (delete n entries)).
  rewrite IH. destruct (decide (name = n)) as [->|Hne].
  - rewrite lookup_delete_eq, (decide_True (P := n ∈ n :: names)) by by left.
    by case_decide.
  - rewrite lookup_delete_ne by done. repeat case_decide; set_solver.
Qed.

(** Removing an entry that is absent or not locked. *)
Lemma Remove_unlocked fs dir entries (name : string) :
  fs !! dir = Some (Directory entries) ->
  (forall e, entries !! name = Some e -> Locked e = false) ->
  exists r, Remove fs dir name = (r, <[dir := Directory (delete name entries)]> fs)
            /\ r <> inl ErrOther.
Proof.
  intros Hdir Hunlocked. unfold Remove. rewrite Hdir.
  destruct (entries !! name) as [e|] eqn:He.
  - rewrite (Hunlocked e) by done. by eexists.
  - exists (inl ErrNotExist). split; [|done].
    by rewrite delete_id, insert_id.
Qed.

Lemma unlocked_delete entries (name : string) files :
  Forall (unlocked entries) files -> Forall (unlocked (delete name entries)) files.
Proof.
  intros H. eapply Forall_impl; [done|]. intros f Hf e He. apply Hf.
  destruct (decide (f.1 = name)) as [Heq|Hne].
  - by rewrite Heq, lookup_delete_eq in He.
  - by rewrite lookup_delete_ne in He.
Qed.

Lemma removeExpired_run fs dir entries (cutoff : Z) files :
  fs !! dir = Some (Directory entries) -> Forall (unlocked entries) files ->
  removeExpired fs dir cutoff files
  = (inr (), <[dir := Directory (deleteAll (filter (expired cutoff) files).*1 entries)]> fs).
Proof.
  intros Hdir Hfiles. revert fs entries Hdir Hfiles.
  induction files as [|f files IH]; intros fs entries Hdir Hfiles.
  - simpl. by rewrite insert_id.
  - apply Forall_cons in Hfiles as [Hf Hfiles]. simpl.
    destruct (ModTime f.2) as [modTime|] eqn:Hmod.
    + destruct (modTime <? cutoff) eqn:Hlt.
      * apply Z.ltb_lt in Hlt.
        rewrite filter_cons_True by by exists modTime.
        destruct (Remove_unlocked fs dir entries f.1 Hdir Hf) as (r & -> & Hr).
        assert (removeExpired (<[dir := Directory (delete f.1 entries)]> fs) dir cutoff files
                = (inr (), <[dir := Directory
                     (deleteAll (filter (expired cutoff) files).*1 (delete f.1 entries))]> fs))
          as Hrest.
        { rewrite (IH _ (delete f.1 entries)).
          - by rewrite insert_insert_eq.
          - apply lookup_insert_eq.
          - by apply unlocked_delete. }
        destruct r as [[]|[]]; done.
      * apply Z.ltb_ge in Hlt.
        rewrite filter_cons_False; [by apply IH|].
        intros (? & Heq & ?). rewrite Hmod in Heq. injection Heq as <-. lia.
    + rewrite filter_cons_False; [by apply IH|].
      intros (? & Heq & _). by rewrite Hmod in Heq.
Qed.

Lemma removeOldest_run fs dir entries (toDelete : nat) files :
  fs !! dir = Some (Directory entries) -> Forall (unlocked entries) files ->
  (toDelete <= length files)%nat ->
  removeOldest fs dir toDelete files
  = (Returns (), <[dir := Directory (deleteAll (take toDelete files).*1 entries)]> fs).
Proof.
  intros Hdir Hfiles. revert fs entries toDelete Hdir Hfiles.
  induction files as [|f files IH]; intros fs entries [|toDelete] Hdir Hfiles Hlen;
    simpl in *; try lia; try by rewrite insert_id.
  apply Forall_cons in Hfiles as [Hf Hfiles].
  destruct (Remove_unlocked fs dir entries f.1 Hdir Hf) as (r & -> & Hr).
  assert (removeOldest (<[dir := Directory (delete f.1 entries)]> fs) dir toDelete files
          = (Returns (), <[dir := Directory
               (deleteAll (take toDelete files).*1 (delete f.1 entries))]> fs))
    as Hrest.
  { rewrite (IH _ (delete f.1 entries)).
    - by rewrite insert_insert_eq.
    - apply lookup_insert_eq.
    - by apply unlocked_delete.
    - lia. }
  destruct r as [[]|[]]; done.
Qed.

End retention_policy.

Section sorted_names.
Implicit Types (entries : gmap string DirEntry).
Implicit Types (f : string * DirEntry) (files : list (string * DirEntry)).

Lemma NoDup_names_filter (P : string * DirEntry -> Prop) `{!forall f, Decision (P f)} files :
  NoDup files.*1 -> NoDup (filter P files).*1.
Proof.
  induction files as [|f files IH]; [done|]. rewrite fmap_cons, NoDup_cons.
  intros [Hf Hfiles]. destruct (decide (P f)).
  - rewrite filter_cons_True, fmap_cons, NoDup_cons by done. split; [|by apply IH].
    intros (g & Hg1 & [_ Hg]%list_elem_of_filter)%list_elem_of_fmap.
    apply Hf, list_elem_of_fmap. eauto.
  - rewrite filter_cons_False by done. by apply IH.
Qed.

Lemma archiveFiles_spec entries f :
  f ∈ archiveFiles (merge_sort byName (map_to_list entries))
  <-> isArchiveFile f /\ entries !! f.1 = Some f.2.
Proof. by rewrite elem_of_archiveFiles, elem_of_sorted_entries. Qed.

Lemma archiveFiles_NoDup_names entries :
  NoDup (archiveFiles (merge_sort byName (map_to_list entries))).*1.
Proof.
  unfold archiveFiles. rewrite !merge_sort_Permutation.
  apply NoDup_names_filter, NoDup_fst_map_to_list.
Qed.

Lemma archiveFiles_sorted files : StronglySorted byName (archiveFiles files).
Proof. apply StronglySorted_merge_sort; apply _. Qed.

Lemma names_unique files f g :
  NoDup files.*1 -> f ∈ files -> g ∈ files -> f.1 = g.1 -> f = g.
Proof.
  intros Hnd Hf Hg Heq.
  apply list_elem_of_lookup in Hf as [i Hi]. apply list_elem_of_lookup in Hg as [j Hj].
  assert (i = j) as ->; [|congruence].
  eapply NoDup_lookup; [done| |]; rewrite list_lookup_fmap.
  - by rewrite Hi.
  - by rewrite Hj, Heq.
Qed.

Lemma newerCount_lt files f : f ∈ files -> (newerCount files f.1 < length files)%nat.
Proof. intros Hf. apply (length_filter_lt _ _ f); [done|]. intros H. by apply H. Qed.

Lemma filter_all {A} (P : A -> Prop) `{!forall x, Decision (P x)} (l : list A) :
  Forall P l -> filter P l = l.
Proof.
  induction 1 as [|x l Hx _ IH]; [done|]. by rewrite filter_cons_True, IH.
Qed.

(** In a list sorted by name without a name twice, the entries after the
    first one are the ones with a greater name. *)
Lemma newerCount_head f files :
  StronglySorted byName (f :: files) -> NoDup (f :: files).*1 ->
  newerCount (f :: files) f.1 = length files.
Proof.
  intros [Hle _]%StronglySorted_cons. rewrite fmap_cons. intros [Hnotin _]%NoDup_cons.
  unfold newerCount. rewrite filter_cons_False by (intros H; by apply H).
  f_equal. apply filter_all. apply Forall_forall. intros g Hg Hgf.
  apply Hnotin, list_elem_of_fmap. exists g. split; [|done].
  apply (anti_symm String.le); [|done].
  by apply (proj1 (Forall_forall _ _) Hle).
Qed.

Lemma newerCount_tail f files g :
  StronglySorted byName (f :: files) -> g ∈ files ->
  newerCount (f :: files) g.1 = newerCount files g.1.
Proof.
  intros [Hle _]%StronglySorted_cons Hg. unfold newerCount.
  rewrite filter_cons_False; [done|]. intros H. apply H.
  by apply (proj1 (Forall_forall _ _) Hle).
Qed.

(** The files the count phase removes: the first ones of the sorted list,
    which are the ones with [keep] or more names after them. *)
Lemma take_newerCount files (keep : nat) f :
  StronglySorted byName files -> NoDup files.*1 -> f ∈ files ->
  f ∈ take (length files - keep) files <-> (keep <= newerCount files f.1)%nat.
Proof.
  intros Hsorted Hnd Hf. revert keep.
  induction files as [|g files IH]; intros keep; [by apply elem_of_nil in Hf|].
  pose proof (newerCount_lt _ _ Hf) as Hlt. simpl in Hlt.
  destruct (decide (keep <= length files)%nat) as [Hkeep|Hkeep].
  - replace (length (g :: files) - keep)%nat with (S (length files - keep))
      by (simpl; lia).
    rewrite firstn_cons, elem_of_cons.
    apply elem_of_cons in Hf as [->|Hf].
    + rewrite newerCount_head by done. split; [lia|by left].
    + rewrite newerCount_tail by done.
      pose proof Hsorted as [_ Hs]%StronglySorted_cons.
      pose proof Hnd as Hnd'. rewrite fmap_cons in Hnd'.
      apply NoDup_cons in Hnd' as [Hg Hnd'].
      rewrite <- IH by done. split; [|by right].
      intros [->|?]; [|done]. exfalso. apply Hg, list_elem_of_fmap. eauto.
  - replace (length (g :: files) - keep)%nat with 0%nat by (simpl; lia).
    simpl. split; [by intros ?%elem_of_nil|lia].
Qed.

Lemma newerCount_Permutation files files' (name : string) :
  files ≡ₚ files' -> newerCount files name = newerCount files' name.
Proof. intros H. unfold newerCount. by rewrite H. Qed.

End sorted_names.

Section retention_run.
Variables (now days maxCount : Z).
Implicit Types (fs : FileSystem) (entries : gmap string DirEntry).
Implicit Types (f : string * DirEntry) (files : list (string * DirEntry)).

Let cutoff : Z := now - days * (24 * Hour).
Let listing entries := archiveFiles (merge_sort byName (map_to_list entries)).
Local Abbreviation aged := (aged now days).
Local Abbreviation counted := (counted now days maxCount).

Lemma listing_unlocked entries : tidy entries -> Forall (unlocked entries) (listing entries).
Proof.
  intros Htidy. apply Forall_forall. intros [name e] [Harch Hf]%archiveFiles_spec e' He'.
  simpl in *. rewrite Hf in He'. injection He' as <-.
  by destruct (Htidy name e Hf Harch).
Qed.

Lemma expired_notOlder entries (name : string) (e : DirEntry) :
  tidy entries -> entries !! name = Some e -> isArchiveFile (name, e) ->
  ~ expired cutoff (name, e) <-> notOlder now days (name, e).
Proof.
  intros Htidy He Harch. destruct (Htidy name e He Harch) as [[modTime Hmod] _].
  unfold expired, notOlder. simpl. rewrite Hmod. fold cutoff. split.
  - intros Hne. exists modTime. split; [done|].
    destruct (decide (cutoff <= modTime)); [done|]. exfalso. apply Hne.
    exists modTime. split; [done|lia].
  - intros (m & [= <-] & Hle) (m' & [= <-] & Hlt). lia.
Qed.

Lemma aged_lookup entries (name : string) (e : DirEntry) :
  tidy entries ->
  aged entries !! name = Some e
  <-> entries !! name = Some e /\ (isArchiveFile (name, e) -> notOlder now days (name, e)).
Proof.
  intros Htidy. unfold aged. rewrite lookup_deleteAll. case_decide as Hin.
  - apply list_elem_of_fmap in Hin as ([n g] & -> & [Hexp [Harch Hg]%archiveFiles_spec]%list_elem_of_filter).
    simpl in *. split; [done|]. intros [He Hold]. rewrite Hg in He. injection He as <-.
    by apply (expired_notOlder entries n g Htidy Hg Harch) in Hexp; [|apply Hold].
  - split; [|tauto]. intros He. split; [done|]. intros Harch.
    apply (expired_notOlder entries name e Htidy He Harch). intros Hexp.
    apply Hin, list_elem_of_fmap. exists (name, e). split; [done|].
    apply list_elem_of_filter. split; [done|]. by apply archiveFiles_spec.
Qed.

Lemma aged_tidy entries : tidy entries -> tidy (aged entries).
Proof.
  intros Htidy name e He Harch. apply aged_lookup in He as [He _]; [|done].
  exact (Htidy name e He Harch).
Qed.

Lemma listing_aged_fresh entries :
  tidy entries -> listing (aged entries) ≡ₚ freshArchives now days entries.
Proof.
  intros Htidy. apply NoDup_Permutation.
  - eapply NoDup_fmap_1, archiveFiles_NoDup_names.
  - apply NoDup_filter, NoDup_map_to_list.
  - intros [name e]. unfold listing, freshArchives.
    rewrite archiveFiles_spec, list_elem_of_filter, elem_of_map_to_list. simpl.
    rewrite aged_lookup by done. tauto.
Qed.

Lemma counted_lookup entries (name : string) (e : DirEntry) :
  tidy entries ->
  counted entries !! name = Some e
  <-> entries !! name = Some e /\ retained now days maxCount entries (name, e).
Proof.
  intros Htidy. unfold counted, retained. rewrite lookup_deleteAll.
  pose proof (archiveFiles_sorted (merge_sort byName (map_to_list (aged entries))))
    as Hsorted.
  pose proof (archiveFiles_NoDup_names (aged entries)) as Hnd.
  fold (listing (aged entries)) in *.
  assert (forall g, g ∈ listing (aged entries) ->
            g ∈ take (length (listing (aged entries)) - Z.to_nat maxCount)
                  (listing (aged entries))
            <-> ~ Z.of_nat (newerCount (freshArchives now days entries) g.1) < maxCount)
    as Htake.
  { intros g Hg. rewrite take_newerCount by done.
    rewrite (newerCount_Permutation _ _ _ (listing_aged_fresh entries Htidy)). lia. }
  case_decide as Hin.
  - apply list_elem_of_fmap in Hin as ([n g] & -> & Hg). simpl.
    assert ((n, g) ∈ listing (aged entries)) as Hl
      by (by eapply subseteq_take).
    apply Htake in Hg; [|done]. simpl in Hg.
    apply archiveFiles_spec in Hl as [Harch Hl]. simpl in Hl.
    apply aged_lookup in Hl as [Hl _]; [|done].
    split; [done|]. intros [He Hkeep]. rewrite Hl in He. injection He as <-.
    by destruct (Hkeep Harch).
  - rewrite aged_lookup by done. split.
    + intros [He Hold]. split; [done|]. intros Harch. split; [by apply Hold|].
      assert ((name, e) ∈ listing (aged entries)) as Hl.
      { apply archiveFiles_spec. split; [done|]. simpl. apply aged_lookup; tauto. }
      destruct (decide (Z.of_nat (newerCount (freshArchives now days entries) name)
                        < maxCount)) as [|Hmany]; [done|].
      exfalso. apply Hin, list_elem_of_fmap. exists (name, e). split; [done|].
      by apply Htake.
    + intros [He Hkeep]. split; [done|]. intros Harch. by destruct (Hkeep Harch).
Qed.

End retention_run.

Section retention_theorem.
Implicit Types (fs : FileSystem) (entries : gmap string DirEntry).

Lemma archiveFiles_length (files : list (string * DirEntry)) :
  (length (archiveFiles files) <= length files)%nat.
Proof.
  unfold archiveFiles. rewrite merge_sort_Permutation. apply length_filter.
Qed.

Lemma listing_aged_length (now days : Z) entries :
  tidy entries ->
  (length (archiveFiles (merge_sort byName (map_to_list (aged now days entries))))
   <= size entries)%nat.
Proof.
  intros Htidy. etrans; [apply archiveFiles_length|].
  rewrite merge_sort_Permutation, length_map_to_list.
  apply map_subseteq_size, map_subseteq_spec. intros name e He.
  by apply aged_lookup in He as [He _].
Qed.

(** Both phases of a cleanup on a tidy directory. *)
Lemma CleanupArchives_run (now days maxCount : Z) fs (storagePath : string) entries :
  -106751 <= days <= 106751 -> 0 <= maxCount < 2 ^ 63 ->
  fs !! resolveStoragePath storagePath = Some (Directory entries) ->
  tidy entries -> Z.of_nat (size entries) < 2 ^ 63 ->
  CleanupArchives now fs storagePath (Some days) (Some maxCount)
  = (Returns (),
     <[resolveStoragePath storagePath := Directory (counted now days maxCount entries)]> fs).
Proof.
  intros Hdays Hmax Hdir Htidy Hsize. unfold CleanupArchives, ReadDir. rewrite Hdir.
  rewrite cutoffTime_exact by done.
  rewrite (removeExpired_run _ _ entries) by (done || by apply listing_unlocked).
  fold (aged now days entries). rewrite lookup_insert_eq.
  pose proof (listing_aged_length now days entries Htidy) as Hlen.
  unfold counted.
  set (files := archiveFiles (merge_sort byName (map_to_list (aged now days entries)))) in *.
  destruct (maxCount <? Z.of_nat (length files)) eqn:Hover.
  - apply Z.ltb_lt in Hover. rewrite wrap64_small by lia.
    rewrite (removeOldest_run _ _ (aged now days entries)).
    + rewrite insert_insert_eq.
      by replace (Z.to_nat (Z.of_nat (length files) - maxCount))
        with (length files - Z.to_nat maxCount)%nat by lia.
    + apply lookup_insert_eq.
    + by apply listing_unlocked, aged_tidy.
    + lia.
  - apply Z.ltb_ge in Hover.
    replace (length files - Z.to_nat maxCount)%nat with 0%nat by lia. done.
Qed.

Lemma counted_tidy (now days maxCount : Z) entries :
  tidy entries -> tidy (counted now days maxCount entries).
Proof.
  intros Htidy name e He Harch. apply counted_lookup in He as [He _]; [|done].
  exact (Htidy name e He Harch).
Qed.

Lemma freshArchives_subset (now days : Z) entries entries' :
  (forall name e, entries' !! name = Some e -> entries !! name = Some e) ->
  forall (name : string),
    (newerCount (freshArchives now days entries') name
     <= newerCount (freshArchives now days entries) name)%nat.
Proof.
  intros Hsub name. unfold newerCount, freshArchives.
  apply submseteq_length, NoDup_submseteq.
  - apply NoDup_filter, NoDup_filter, NoDup_map_to_list.
  - intros [n e]. rewrite !list_elem_of_filter, !elem_of_map_to_list. naive_solver.
Qed.

(** A second cleanup finds nothing to remove. *)
Lemma counted_idempotent (now days maxCount : Z) entries :
  tidy entries ->
  counted now days maxCount (counted now days maxCount entries)
  = counted now days maxCount entries.
Proof.
  intros Htidy. apply map_eq. intros name. apply option_eq. intros e.
  rewrite (counted_lookup _ _ _ (counted now days maxCount entries))
    by by apply counted_tidy.
  split; [tauto|]. intros He. split; [done|].
  apply counted_lookup in He as [He Hkeep]; [|done].
  intros Harch. destruct (Hkeep Harch) as [Hold Hcount]. split; [done|].
  pose proof (freshArchives_subset now days entries (counted now days maxCount entries))
    as Hle.
  specialize (Hle (fun n e' H => proj1 (proj1 (counted_lookup _ _ _ _ n e' Htidy) H)) name).
  simpl in *. lia.
Qed.

End retention_theorem.

(** C2, as the code has it: for a destination directory whose archive
    files have known modification times and can be removed, a retention of
    [days] within 106751 days and a ceiling [maxCount] that is not negative,
    [CleanupArchives] returns without an error and leaves exactly the entries
    that are retained: everything that is no archive file, and the archive
    files that are not older than [now] minus [days] days and have fewer
    than [maxCount] such archives after them in the order of the names.  A
    second cleanup at the same clock reading leaves the directory as it
    is. *)
Theorem CleanupArchives_retention (now days maxCount : Z) (fs : FileSystem)
    (storagePath : string) (entries : gmap string DirEntry) :
  -106751 <= days <= 106751 -> 0 <= maxCount < 2 ^ 63 ->
  fs !! resolveStoragePath storagePath = Some (Directory entries) ->
  (forall name e, entries !! name = Some e -> isArchiveFile (name, e) ->
     is_Some (ModTime e) /\ Locked e = false) ->
  Z.of_nat (size entries) < 2 ^ 63 ->
  exists kept : gmap string DirEntry,
    let fs' := <[resolveStoragePath storagePath := Directory kept]> fs in
    CleanupArchives now fs storagePath (Some days) (Some maxCount) = (Returns (), fs')
    /\ (forall name e, kept !! name = Some e
          <-> entries !! name = Some e /\ retained now days maxCount entries (name, e))
    /\ CleanupArchives now fs' storagePath (Some days) (Some maxCount) = (Returns (), fs').
Proof.
  intros Hdays Hmax Hdir Htidy Hsize.
  exists (counted now days maxCount entries). simpl. split; [|split].
  - by apply CleanupArchives_run.
  - intros name e. by apply counted_lookup.
  - rewrite (CleanupArchives_run _ _ _ _ _ (counted now days maxCount entries)); try done.
    + by rewrite insert_insert_eq, counted_idempotent.
    + apply lookup_insert_eq.
    + by apply counted_tidy.
    + assert (size (counted now days maxCount entries) <= size entries)%nat; [|lia].
      apply map_subseteq_size, map_subseteq_spec. intros name e He.
      by apply counted_lookup in He as [He _].
Qed.

(** The concrete case of C2: of four archives aged 48, 2, 1 and 0 hours,
    one day of retention and a ceiling of two leave the archives aged 1 and
    0 hours, and a second cleanup leaves them again. *)
Lemma CleanupArchives_retention_witness :
  CleanupArchives testNow {[ "/backups" := Directory testArchives ]} "/backups"
    (Some 1) (Some 2)
  = (Returns (), {[ "/backups" := Directory testRemaining ]})
  /\ CleanupArchives testNow {[ "/backups" := Directory testRemaining ]} "/backups"
       (Some 1) (Some 2)
     = (Returns (), {[ "/backups" := Directory testRemaining ]}).
Proof.
  destruct (CleanupArchives_retention testNow 1 2
              {[ "/backups" := Directory testArchives ]} "/backups" testArchives)
    as (kept & Hrun & _ & Hagain).
  - lia.
  - lia.
  - reflexivity.
  - intros name e He _. revert name e He.
    apply (bool_decide_unpack
             (map_Forall (fun _ e => is_Some (ModTime e) /\ Locked e = false) testArchives)).
    vm_compute. exact I.
  - vm_compute. reflexivity.
  - assert (CleanupArchives testNow {[ "/backups" := Directory testArchives ]} "/backups"
              (Some 1) (Some 2)
            = (Returns (), {[ "/backups" := Directory testRemaining ]})) as Hout
      by (vm_compute; reflexivity).
    split; [exact Hout|]. cbv zeta in Hrun, Hagain.
    assert (<[resolveStoragePath "/backups" := Directory kept]>
              ({[ "/backups" := Directory testArchives ]} : FileSystem)
            = {[ "/backups" := Directory testRemaining ]}) as Hfs by congruence.
    rewrite Hfs in Hagain. exact Hagain.
Defined.

(** C2, as the claim words it, fails on the threshold: an archive whose
    modification time is exactly [now] minus one day is not newer than the
    threshold, and a cleanup with one day of retention leaves it. *)
Lemma CleanupArchives_retention_counterexample :
  let archive := mkDirEntry false (Some (testNow - 1 * (24 * Hour))) false in
  let fs : FileSystem :=
    {[ "/backups" := Directory {[ "cluster-backup-20250102-010000.tar.gz" := archive ]} ]} in
  ModTime archive = Some (testNow - 1 * (24 * Hour))
  /\ ~ (testNow - 1 * (24 * Hour) < testNow - 1 * (24 * Hour))
  /\ CleanupArchives testNow fs "/backups" (Some 1) (Some 2) = (Returns (), fs).
Proof. split; [reflexivity|]. split; [lia|]. vm_compute. reflexivity. Qed.

(** Outside the ranges of C2 the arithmetic of the code gives way: a
    negative ceiling removes every archive and then indexes past the end of
    the list, and a retention of 106752 days overflows the duration, so that
    the cutoff lies in the future and every archive is removed. *)
Example CleanupArchives_negative_ceiling :
  CleanupArchives testNow {[ "/backups" := Directory testArchives ]} "/backups"
    None (Some (-1))
  = (Panics, {[ "/backups" := Directory ∅ ]}).
Proof. vm_compute. reflexivity. Qed.

Example CleanupArchives_retention_overflow :
  cutoffTime testNow 106752 = testNow + 9223371273709551616
  /\ CleanupArchives testNow {[ "/backups" := Directory testArchives ]} "/backups"
       (Some 106752) None
     = (Returns (), {[ "/backups" := Directory ∅ ]}).
Proof. split; vm_compute; reflexivity. Qed.

(** ** The restorer: reading the archive *)

Section restore_reading.
Local Arguments ensureMetadata : simpl never.
Local Arguments parseArchiveEntry : simpl never.

Lemma parseArchiveEntry_name (path : string) (g : GroupVersionResource) (ns name : string) :
  parseArchiveEntry path = inr (g, ns, name) -> name <> "".
Proof.
  unfold parseArchiveEntry. destruct (_ <? 2)%nat; [done|].
  case_decide as Hname; [done|]. intros Hparse.
  repeat (case_match; simplify_eq); done.
Qed.

(** With a name from the path at hand, [ensureMetadata] returns an object
    whose [metadata] is a map with a name that is not empty. *)
Lemma ensureMetadata_named (obj : Object) (name ns : string) :
  name <> "" ->
  exists obj' meta resolved,
    ensureMetadata (Some obj) name ns = Returns obj'
    /\ obj' !! "metadata" = Some (JObject meta)
    /\ meta !! "name" = Some (JString resolved) /\ resolved <> ""
    /\ (ns <> "" -> meta !! "namespace" = Some (JString ns)).
Proof.
  intros Hname. unfold ensureMetadata.
  set (meta := match obj !! "metadata" with
               | Some (JObject m) => m
               | _ => ∅
               end).
  set (resolved := match meta !! "name" with
                   | Some (JString existingName) =>
                       if decide (existingName <> "") then existingName else name
                   | _ => name
                   end).
  assert (resolved <> "") as Hresolved.
  { unfold resolved. repeat case_match; done. }
  rewrite decide_False by done.
  eexists _, _, resolved. split; [done|]. rewrite lookup_insert_eq. split; [done|].
  case_decide.
  - rewrite lookup_insert_ne, lookup_insert_eq by done. split; [done|]. split; [done|].
    intros _. by rewrite lookup_insert_eq.
  - rewrite lookup_insert_eq. done.
Qed.

Lemma readEntry_accepted (item : TarItem) :
  accepted item <-> exists r, readEntry item = Returns r.
Proof.
  destruct item as [regular name data|]; simpl; [|naive_solver].
  destruct regular; simpl; [|naive_solver].
  destruct (GoStrings.HasSuffix name ".json"); simpl; [|naive_solver].
  destruct (parseArchiveEntry name) as [err|[[g ns] objName]] eqn:Hparse; [naive_solver|].
  destruct data as [|[[]|]]; simpl; try naive_solver.
  destruct (ensureMetadata_named fields objName ns) as (obj' & ? & ? & -> & _).
  { by eapply parseArchiveEntry_name. }
  naive_solver.
Qed.





End restore_reading.

(** ** The restorer: applying the resources *)

Section restore_applying.
Context {W : Type} `{!DynamicClient W}.




Lemma applyResources_count (resources : list archivedResource) (applied n : nat) (w w' : W) :
  applyResources resources applied w = (inr n, w') -> n = (applied + length resources)%nat.
Proof.
  revert applied w. induction resources as [|r rs IH]; intros applied w; simpl.
  - intros [= <- _]. lia.
  - destruct (applyResource r w) as [[err|[]] w1]; [done|].
    intros ->%IH. lia.
Qed.

End restore_applying.



(** ** Objects: names and resource versions *)

Section object_facts.
Implicit Types (obj : Object).

Lemma metadataString_set_other obj (field value other : string) :
  other <> field ->
  metadataString (setMetadataString obj field value) other = metadataString obj other.
Proof.
  intros Hne. unfold metadataString, setMetadataString.
  destruct (obj !! "metadata") as [[]|] eqn:Hmeta; rewrite ?Hmeta; try done.
  - by rewrite lookup_insert_eq, lookup_insert_ne.
  - by rewrite lookup_insert_eq, lookup_singleton_ne.
Qed.

Lemma metadataString_remove_other obj (field other : string) :
  other <> field ->
  metadataString (removeMetadataField obj field) other = metadataString obj other.
Proof.
  intros Hne. unfold metadataString, removeMetadataField.
  destruct (obj !! "metadata") as [[]|] eqn:Hmeta; rewrite ?Hmeta; try done.
  by rewrite lookup_insert_eq, lookup_delete_ne.
Qed.

Lemma GetName_SetResourceVersion obj (version : string) :
  GetName (SetResourceVersion obj version) = GetName obj.
Proof.
  unfold GetName, SetResourceVersion. case_decide.
  - by apply metadataString_remove_other.
  - by apply metadataString_set_other.
Qed.


(** After [SetResourceVersion] the object carries the version it was given,
    or none. *)
Lemma GetResourceVersion_SetResourceVersion obj (version : string) :
  GetResourceVersion (SetResourceVersion obj version) = version
  \/ GetResourceVersion (SetResourceVersion obj version) = "".
Proof.
  unfold GetResourceVersion, SetResourceVersion, metadataString.
  case_decide as Hv.
  - right. unfold removeMetadataField.
    destruct (obj !! "metadata") as [[]|] eqn:Hmeta; rewrite ?Hmeta; try done.
    by rewrite lookup_insert_eq, lookup_delete_eq.
  - unfold setMetadataString.
    destruct (obj !! "metadata") as [[]|] eqn:Hmeta; rewrite ?Hmeta; auto.
    + left. by rewrite !lookup_insert_eq.
    + left. by rewrite lookup_insert_eq, lookup_singleton_eq.
Qed.

End object_facts.

(** ** The server in memory: one turn of the applying loop *)

Section store_turn.
Implicit Types (st : Store) (res : archivedResource).

Lemma applyResource_store res st :
  applyResource res st
  = match storeCreate (gvr res) (namespace res) (desired res) st with
    | (inr _, st) => (inr (), st)
    | (inl err, st) =>
        if negb (IsAlreadyExists err) then (inl (CreateFailed err), st)
        else
          match storeGet (gvr res) (namespace res) (GetName (desired res)) st with
          | (inl getErr, st) => (inl (FetchFailed getErr), st)
          | (inr existing, st) =>
              match storeUpdate (gvr res) (namespace res)
                      (SetResourceVersion (desired res) (GetResourceVersion existing)) st with
              | (inl err, st) => (inl (UpdateFailed err), st)
              | (inr _, st) => (inr (), st)
              end
          end
    end.
Proof. done. Qed.

(** A turn that the server refuses: one create request, nothing written. *)
Lemma turn_refused res st :
  ~ admissible st res ->
  exists err st',
    applyResource res st = (inl err, st')
    /\ requests st' = CreateRequest (gvr res) (namespace res) (GetName (desired res))
                        :: requests st
    /\ objects st' = objects st.
Proof.
  intros Hno. rewrite applyResource_store. unfold storeCreate.
  case_decide as Hname; [by eauto|].
  destruct (decide (namespace res = "")) as [Hns|Hns].
  { exfalso. apply Hno. split; [done|by left]. }
  rewrite bool_decide_eq_false_2 by done.
  destruct (namespaceExists (namespace res) _) eqn:Hex.
  { exfalso. apply Hno. split; [done|by right]. }
  simpl. by eauto.
Qed.

(** A turn for an object that is not there: one create request, and the
    object is written under its key. *)
Lemma turn_creates res st :
  admissible st res -> objects st !! keyOf res = None ->
  exists st',
    applyResource res st = (inr (), st')
    /\ requests st' = CreateRequest (gvr res) (namespace res) (GetName (desired res))
                        :: requests st
    /\ dom (objects st') = {[ keyOf res ]} ∪ dom (objects st).
Proof.
  intros [Hname Hns] Hfree. rewrite applyResource_store. unfold storeCreate.
  rewrite decide_False by done.
  assert (negb (bool_decide (namespace res = ""))
          && negb (namespaceExists (namespace res)
                     (logRequest (CreateRequest (gvr res) (namespace res)
                                    (GetName (desired res))) st)) = false) as ->.
  { destruct Hns as [->|Hex]; [done|].
    unfold namespaceExists in *. simpl. rewrite Hex. by rewrite andb_false_r. }
  simpl. unfold keyOf in Hfree. rewrite Hfree. simpl.
  eexists. split; [done|]. split; [done|]. simpl. by rewrite dom_insert_L.
Qed.

(** A turn for an object that is there: create, fetch and update, and the
    keys of the server are as before. *)
Lemma turn_updates res st :
  admissible st res -> is_Some (objects st !! keyOf res) ->
  exists st',
    applyResource res st = (inr (), st')
    /\ requests st' = rev (upsertRequests res) ++ requests st
    /\ dom (objects st') = dom (objects st).
Proof.
  intros [Hname Hns] [live Hlive]. rewrite applyResource_store. unfold storeCreate.
  rewrite decide_False by done.
  assert (negb (bool_decide (namespace res = ""))
          && negb (namespaceExists (namespace res)
                     (logRequest (CreateRequest (gvr res) (namespace res)
                                    (GetName (desired res))) st)) = false) as ->.
  { destruct Hns as [->|Hex]; [done|].
    unfold namespaceExists in *. simpl. rewrite Hex. by rewrite andb_false_r. }
  simpl. unfold keyOf in Hlive. rewrite Hlive. simpl.
  unfold storeGet. simpl. rewrite Hlive.
  unfold storeUpdate. rewrite GetName_SetResourceVersion. simpl. rewrite Hlive.
  assert (negb (bool_decide (GetResourceVersion
                   (SetResourceVersion (desired res) (GetResourceVersion live)) = ""))
          && negb (bool_decide (GetResourceVersion
                   (SetResourceVersion (desired res) (GetResourceVersion live))
                   = GetResourceVersion live)) = false) as ->.
  { destruct (GetResourceVersion_SetResourceVersion (desired res)
                (GetResourceVersion live)) as [->| ->].
    - rewrite (bool_decide_eq_true_2 (_ = GetResourceVersion live)) by done.
      by rewrite andb_false_r.
    - by rewrite bool_decide_eq_true_2. }
  simpl. eexists. split; [done|]. split; [done|]. simpl.
  rewrite dom_insert_L. apply elem_of_dom_2 in Hlive. set_solver.
Qed.

End store_turn.

(** ** The server in memory: runs of the applying loop *)

Section store_runs.
Implicit Types (st : Store) (res : archivedResource) (rs : list archivedResource).

Lemma createNamespaces_app (new old : list Request) :
  createNamespaces (new ++ old) = createNamespaces old ++ createNamespaces new.
Proof. unfold createNamespaces. by rewrite rev_app_distr, omap_app. Qed.

Lemma namespaceExists_mono st st' (ns : string) :
  dom (objects st) ⊆ dom (objects st') ->
  namespaceExists ns st = true -> namespaceExists ns st' = true.
Proof.
  unfold namespaceExists. rewrite !bool_decide_eq_true, <- !elem_of_dom. set_solver.
Qed.

Lemma admissible_mono st st' res :
  dom (objects st) ⊆ dom (objects st') -> admissible st res -> admissible st' res.
Proof.
  intros Hdom [Hname [Hns|Hns]]; split; auto.
  right. by eapply namespaceExists_mono.
Qed.

(** Every turn sends one create request, for the namespace of its
    resource; it goes through exactly when it is admissible, and then the
    object is on the server; and no key of the server is lost. *)
Lemma turn_general res st :
  exists r st' more,
    applyResource res st = (r, st')
    /\ requests st' = more ++ requests st
    /\ createNamespaces more = [namespace res]
    /\ dom (objects st) ⊆ dom (objects st')
    /\ (r = inr () <-> admissible st res)
    /\ (admissible st res -> keyOf res ∈ dom (objects st')).
Proof.
  destruct (decide (admissible st res)) as [Hadm|Hno].
  - destruct (objects st !! keyOf res) as [live|] eqn:Hkey.
    + destruct (turn_updates res st Hadm) as (st' & Hrun & Hreq & Hdom); [by eauto|].
      exists (inr ()), st', (rev (upsertRequests res)).
      split; [done|]. split; [done|]. split; [done|]. split; [set_solver|].
      split; [done|]. intros _. rewrite Hdom. by apply elem_of_dom.
    + destruct (turn_creates res st Hadm Hkey) as (st' & Hrun & Hreq & Hdom).
      exists (inr ()), st', [CreateRequest (gvr res) (namespace res) (GetName (desired res))].
      split; [done|]. split; [done|]. split; [done|]. split; [set_solver|].
      split; [done|]. intros _. set_solver.
  - destruct (turn_refused res st Hno) as (err & st' & Hrun & Hreq & Hobj).
    exists (inl err), st', [CreateRequest (gvr res) (namespace res) (GetName (desired res))].
    split; [done|]. split; [done|]. split; [done|]. split; [by rewrite Hobj|].
    split; [|done]. split; [done|]. intros Hadm. by destruct Hno.
Qed.

(** The create requests of a run of the loop are those of the resources up
    to where it stopped, in order. *)
Lemma applyResources_creates rs (applied : nat) st r st' :
  applyResources rs applied st = (r, st') ->
  exists new (reached : nat),
    requests st' = new ++ requests st
    /\ createNamespaces new = namespace <$> take reached rs
    /\ dom (objects st) ⊆ dom (objects st').
Proof.
  revert applied st. induction rs as [|res rs IH]; intros applied st; simpl.
  - intros [= <- <-]. by exists [], 0%nat.
  - destruct (turn_general res st)
      as (r1 & st1 & more & Hturn & Hreq & Hcreate & Hdom & _).
    rewrite Hturn. destruct r1 as [err|[]].
    + intros [= <- <-]. exists more, 1%nat. destruct rs; done.
    + intros (new & reached & Hreq' & Hcreate' & Hdom')%IH.
      exists (new ++ more), (S reached). split; [|split].
      * by rewrite Hreq', Hreq, app_assoc.
      * by rewrite createNamespaces_app, Hcreate, Hcreate'.
      * set_solver.
Qed.


(** After a run that went through, every resource is admissible and on
    the server. *)
Lemma applyResources_done rs (applied n : nat) st st' :
  applyResources rs applied st = (inr n, st') ->
  dom (objects st) ⊆ dom (objects st')
  /\ Forall (fun res => admissible st' res /\ keyOf res ∈ dom (objects st')) rs.
Proof.
  revert applied st. induction rs as [|res rs IH]; intros applied st; simpl.
  - by intros [= _ <-].
  - destruct (turn_general res st)
      as (r1 & st1 & more & Hturn & _ & _ & Hdom & Hok & Hkey).
    rewrite Hturn. destruct r1 as [err|[]]; [done|].
    intros [Hdom' Hrs]%IH. split; [set_solver|]. constructor; [|done].
    assert (admissible st res) as Hadm by by apply Hok.
    split; [apply (admissible_mono st st'); [set_solver|done]|]. by apply Hdom', Hkey.
Qed.

(** A run over resources that are admissible and on the server takes the
    update path at every turn and leaves the keys as they are. *)
Lemma applyResources_again rs (applied : nat) st :
  Forall (fun res => admissible st res /\ keyOf res ∈ dom (objects st)) rs ->
  exists st',
    applyResources rs applied st = (inr (applied + length rs)%nat, st')
    /\ dom (objects st') = dom (objects st)
    /\ requests st' = rev (rs ≫= upsertRequests) ++ requests st.
Proof.
  revert applied st. induction rs as [|res rs IH]; intros applied st Hready; simpl.
  - exists st. by rewrite Nat.add_0_r.
  - apply Forall_cons in Hready as [[Hadm Hkey] Hrs].
    apply elem_of_dom in Hkey.
    destruct (turn_updates res st Hadm Hkey) as (st1 & Hturn & Hreq & Hdom).
    rewrite Hturn.
    destruct (IH (S applied) st1) as (st' & Hrun & Hdom' & Hreq').
    { eapply Forall_impl; [done|]. intros r [Hr Hk]. split.
      - eapply admissible_mono; [|done]. by rewrite Hdom.
      - by rewrite Hdom. }
    exists st'. split; [|split].
    + rewrite Hrun. do 2 f_equal. lia.
    + by rewrite Hdom', Hdom.
    + rewrite Hreq', Hreq. by rewrite <- !app_assoc.
Qed.

End store_runs.

(** ** The restorer: what the reading loop returns *)

Section restore_resources.
Local Arguments ensureMetadata : simpl never.
Local Arguments parseArchiveEntry : simpl never.
Local Arguments readEntry : simpl never.

(** On accepted items the reading loop returns the resources of the
    archive, the cluster-scoped and the namespaced ones apart, each in
    archive order. *)
Lemma readArchive_accepted (items : list TarItem) (c n : list archivedResource) :
  Forall accepted items ->
  readArchive items c n
  = Returns (c ++ filter (fun res => namespace res = "") (resourcesOf items),
             n ++ filter (fun res => namespace res <> "") (resourcesOf items)).
Proof.
  intros Hitems. revert c n.
  induction Hitems as [|item items Hitem _ IH]; intros c n; simpl.
  - by rewrite !app_nil_r.
  - apply readEntry_accepted in Hitem as [[res|] Hitem];
      unfold resourcesOf; simpl; rewrite Hitem; fold (resourcesOf items); [|done].
    case_decide.
    + rewrite IH, filter_cons_True, filter_cons_False by naive_solver.
      by rewrite <- app_assoc.
    + rewrite IH, filter_cons_False, filter_cons_True by done.
      by rewrite <- app_assoc.
Qed.

Lemma readArchive_Returns (items : list TarItem) (c n : list archivedResource) :
  readArchive items [] [] = Returns (c, n) ->
  Forall accepted items
  /\ c = filter (fun res => namespace res = "") (resourcesOf items)
  /\ n = filter (fun res => namespace res <> "") (resourcesOf items).
Proof.
  intros Hread.
  assert (Forall accepted items) as Hitems.
  { assert (forall c0 n0 r, readArchive items c0 n0 = Returns r -> Forall accepted items)
      as Hgen; [|by eapply Hgen].
    clear. induction items as [|item items IH]; intros c0 n0 r; simpl; [done|].
    destruct (readEntry item) as [[res|]|err|] eqn:Hitem; try done.
    - intros Hrest. constructor; [apply readEntry_accepted; eauto|].
      case_decide; by eapply IH.
    - intros Hrest. constructor; [apply readEntry_accepted; eauto|]. by eapply IH. }
  rewrite readArchive_accepted in Hread by done. by injection Hread as <- <-.
Qed.

(** Every accepted JSON entry gives one resource. *)
Lemma resourcesOf_length (items : list TarItem) :
  Forall accepted items -> length (resourcesOf items) = length (filter isJSONEntry items).
Proof.
  induction 1 as [|item items Hitem _ IH]; [done|].
  unfold resourcesOf. simpl. fold (resourcesOf items).
  destruct (decide (isJSONEntry item)) as [Hjson|Hjson].
  - rewrite filter_cons_True by done. simpl. rewrite <- IH.
    destruct item as [regular name data|]; [|done]. destruct Hjson as [-> Hsuffix].
    destruct Hitem as [?|[?|[[[[g ns] objName] Hparse] [fields ->]]]]; [done|congruence|].
    unfold readEntry. rewrite Hsuffix, Hparse. simpl.
    destruct (ensureMetadata_named fields objName ns) as (obj' & ? & ? & -> & _);
      [by eapply parseArchiveEntry_name|done].
  - rewrite filter_cons_False by done. rewrite <- IH.
    destruct item as [regular name data|]; [|done]. unfold readEntry.
    destruct regular; [|done].
    destruct (GoStrings.HasSuffix name ".json") eqn:Hsuffix; [|done].
    by destruct Hjson.
Qed.


End restore_resources.

Section restore_order.



End restore_order.

Section restore_sent.
Implicit Types (st : Store) (res : archivedResource) (rs : list archivedResource).





End restore_sent.



(** The scenario of [TestRestoreBackup], with the namespace object after
    the config map in the archive: both are applied, the namespace first. *)
Example RestoreBackup_namespace_listed_last :
  (RestoreBackup testFiles "/backups" "cluster-backup-restore.tar.gz" emptyStore).1
    = Returns 2%nat
  /\ rev (requests (RestoreBackup testFiles "/backups" "cluster-backup-restore.tar.gz"
                      emptyStore).2)
     = [ CreateRequest namespacesGVR "" "restore-ns";
         CreateRequest (mkGVR "" "v1" "configmaps") "restore-ns" "sample-config" ].
Proof. split; vm_compute; reflexivity. Qed.

(** C5: when [RestoreBackup] has returned [n] applied resources against the
    server in memory, a second [RestoreBackup] of the same archive returns
    [n] again, the number of JSON entries of the archive; it finds every
    object in place (each turn is a create answered [AlreadyExists], a
    fetch and an update), and the server holds the same keys as before, so
    that no object is created twice. *)
Theorem RestoreBackup_twice (files : gmap string ArchiveFile)
    (storagePath archiveName : string) (st st1 : Store) (n : nat) :
  RestoreBackup files storagePath archiveName st = (Returns n, st1) ->
  exists items st2,
    files !! Filepath.Join [resolveStoragePath storagePath; archiveName] = Some (Gzip items)
    /\ n = length (filter isJSONEntry items)
    /\ RestoreBackup files storagePath archiveName st1 = (Returns n, st2)
    /\ dom (objects st2) = dom (objects st1)
    /\ exists order,
         order ≡ₚ resourcesOf items
         /\ requests st2 = rev (order ≫= upsertRequests) ++ requests st1.
Proof.
  unfold RestoreBackup. case_decide; [done|].
  destruct (files !! _) as [[|items]|]; try done.
  destruct (readArchive items [] []) as [[c ns]|err|] eqn:Hread; try done.
  destruct (applyResources (c ++ ns) 0 st) as [[err|applied] st'] eqn:Hrun; [done|].
  intros [= -> ->].
  pose proof (applyResources_count _ _ _ _ _ Hrun) as ->.
  apply applyResources_done in Hrun as [_ Hready].
  destruct (applyResources_again (c ++ ns) 0 st1 Hready) as (st2 & Hagain & Hdom & Hreq).
  apply readArchive_Returns in Hread as (Hitems & -> & ->).
  exists items, st2. split; [done|]. split; [|split; [|split]].
  - rewrite <- resourcesOf_length by done.
    rewrite <- (filter_app_complement (fun res => namespace res = "") (resourcesOf items))
      at 3.
    done.
  - by rewrite Hagain.
  - done.
  - eexists. split; [|done]. apply filter_app_complement.
Qed.

Lemma RestoreBackup_twice_witness :
  let first := RestoreBackup testFiles "/backups" "cluster-backup-restore.tar.gz" emptyStore in
  exists items st2,
    testFiles !! Filepath.Join [resolveStoragePath "/backups"; "cluster-backup-restore.tar.gz"]
      = Some (Gzip items)
    /\ 2%nat = length (filter isJSONEntry items)
    /\ RestoreBackup testFiles "/backups" "cluster-backup-restore.tar.gz" first.2
       = (Returns 2%nat, st2)
    /\ dom (objects st2) = dom (objects first.2)
    /\ exists order,
         order ≡ₚ resourcesOf items
         /\ requests st2 = rev (order ≫= upsertRequests) ++ requests first.2.
Proof.
  apply (RestoreBackup_twice testFiles "/backups" "cluster-backup-restore.tar.gz"
           emptyStore).
  vm_compute. reflexivity.
Defined.

(** C5 as it is worded counts every entry of the archive: with a directory
    entry before the one JSON entry, both restores return 1 for an archive
    of two entries. *)
Lemma RestoreBackup_twice_counterexample :
  let items := [ Entry false "cluster" (Bytes None);
                 Entry true "cluster/v1/namespaces/restore-ns.json"
                   (Bytes (Some (JObject testNamespace))) ] in
  let files : gmap string ArchiveFile := {[ "/backups/one.tar.gz" := Gzip items ]} in
  let first := RestoreBackup files "/backups" "one.tar.gz" emptyStore in
  first.1 = Returns 1%nat
  /\ (RestoreBackup files "/backups" "one.tar.gz" first.2).1 = Returns 1%nat
  /\ length items = 2%nat.
Proof. repeat split; vm_compute; reflexivity. Qed.

(** ** The storage path resolver *)

(** The cases of [TestResolveStoragePath]. *)
Example resolveStoragePath_tests :
  resolveStoragePath "/var/backups" = "/var/backups"
  /\ resolveStoragePath "host:///var/backups" = "/tmp/var/backups"
  /\ resolveStoragePath "host:///../etc" = "/tmp/etc"
  /\ resolveStoragePath "host://" = "/tmp".
Proof. repeat split; vm_compute; reflexivity. Qed.

(** C1 fails on the code: a host path whose first element is [tmp..]
    passes the prefix test for the sandbox root, its remainder [..] is
    joined to the root, and the result lies outside the sandbox; for
    [host:///tmp..] it is [/] itself. *)
Theorem resolveStoragePath_escapes :
  resolveStoragePath "host:///tmp../etc" = "/etc"
  /\ resolveStoragePath "host:///tmp.." = "/"
  /\ GoStrings.HasPrefix "/etc" (nodeTmp +:+ "/") = false.
Proof. repeat split; vm_compute; reflexivity. Qed.

(** Where the resolver does keep to the sandbox: a rooted path cleans to a
    rooted path of plain elements, and the resolver puts those below the
    root, unless the first of them is [tmp..]. *)
Section resolver_sandbox.
Import GoStrings Filepath.

Lemma Split_pieces (s : string) :
  Forall (fun piece => Contains piece "/" = false) (Split s "/").
Proof.
  induction s as [|c s IH]; simpl; [by repeat constructor|].
  destruct (Ascii.eqb c "/") eqn:Hc; [by constructor|].
  pose proof (Split_nonempty s "/") as Hne.
  destruct (Split s "/") as [|piece pieces]; [done|].
  apply Forall_cons in IH as [Hpiece Hpieces]. constructor; [|done].
  by rewrite Contains_slash_cons, Hc.
Qed.

Lemma cleanStep_rooted (out : list string) (e : string) :
  Forall (fun e => isElem e = true) out -> Contains e "/" = false ->
  Forall (fun e => isElem e = true) (cleanStep true out e).
Proof.
  intros Hout He. unfold cleanStep. repeat case_decide; try done.
  - destruct out as [|e' out]; [done|].
    apply Forall_cons in Hout as [(_ & _ & He' & _)%isElem_spec Hout].
    by rewrite decide_False.
  - constructor; [|done]. by apply isElem_spec.
Qed.

Lemma cleanElems_rooted (pieces : list string) :
  Forall (fun piece => Contains piece "/" = false) pieces ->
  Forall (fun e => isElem e = true) (cleanElems true pieces).
Proof.
  intros Hpieces. unfold cleanElems. apply Forall_rev.
  assert (forall out, Forall (fun e => isElem e = true) out ->
            Forall (fun e => isElem e = true) (fold_left (cleanStep true) pieces out))
    as Hfold; [|by apply Hfold].
  induction Hpieces as [|piece pieces Hpiece _ IH]; intros out Hout; [done|].
  simpl. by apply IH, cleanStep_rooted.
Qed.

Lemma Clean_rooted (s : string) :
  HasPrefix s "/" = true ->
  exists es, Forall (fun e => isElem e = true) es /\ Clean s = absPath es.
Proof.
  intros Hrooted. unfold Clean. rewrite decide_False by by intros ->.
  rewrite Hrooted. eexists. split; [|done]. apply cleanElems_rooted, Split_pieces.
Qed.

Lemma HasPrefix_inv (s prefix : string) :
  HasPrefix s prefix = true -> s = prefix +:+ sliceFrom (String.length prefix) s.
Proof.
  revert s. induction prefix as [|p prefix IH]; intros s; [done|].
  destruct s as [|c s]; [done|]. simpl.
  destruct (Ascii.eqb c p) eqn:Hc; [|done]. apply Ascii.eqb_eq in Hc as ->.
  intros Hs. rewrite app_cons_str. f_equal. by apply IH.
Qed.

Lemma HasPrefix_elem (e rest : string) :
  Contains e "/" = false ->
  HasPrefix (e +:+ String "/" rest) "tmp" = HasPrefix e "tmp".
Proof.
  intros He. destruct e as [|a [|b [|c e]]]; try done;
    rewrite ?app_cons_str, ?app_nil_str; simpl;
    repeat (destruct (Ascii.eqb _ _); try done).
Qed.

Lemma Join_cons_tail (e : string) (es : list string) :
  GoStrings.Join (e :: es) "/" = e +:+ joinedTail es.
Proof. destruct es; [by rewrite app_empty_r|done]. Qed.

Lemma Join_nodeTmp (rest : string) :
  Filepath.Join [nodeTmp; rest] = Clean ("/tmp/" +:+ rest).
Proof. done. Qed.

Lemma Clean_nodeTmp_elems (es : list string) :
  Forall loose es ->
  Clean ("/tmp/" +:+ GoStrings.Join es "/")
  = absPath ("tmp" :: filter (fun e => e <> "") es).
Proof.
  intros Hes. destruct es as [|e es]; [by vm_compute|].
  change ("/tmp/" +:+ GoStrings.Join (e :: es) "/") with (absPath ("tmp" :: e :: es)).
  rewrite Clean_absPath by (constructor; [by right|done]).
  by rewrite filter_cons_True by done.
Qed.

Lemma Split_absPath_pieces (es : list string) :
  es <> [] -> Forall (fun e => Contains e "/" = false) es ->
  Split (absPath es) "/" = "" :: es.
Proof.
  intros Hne Hes. unfold absPath.
  change ("/" +:+ ?s) with (String "/" s). simpl.
  by rewrite Split_Join.
Qed.

(** Cleaning a rooted path whose second element is [.] or [..]. *)
Lemma Clean_nodeTmp_dots (dots : string) (es : list string) :
  Forall (fun e => isElem e = true) es -> dots = "." \/ dots = ".." ->
  Clean ("/tmp/" +:+ GoStrings.Join (dots :: es) "/")
  = absPath (if decide (dots = ".") then "tmp" :: es else es).
Proof.
  intros Hes Hdots.
  change ("/tmp/" +:+ GoStrings.Join (dots :: es) "/")
    with (absPath ("tmp" :: dots :: es)).
  unfold Clean. rewrite decide_False by done.
  change (HasPrefix (absPath ("tmp" :: dots :: es)) "/") with true. cbv zeta iota.
  rewrite Split_absPath_pieces.
  2: done.
  2:{ constructor; [done|]. constructor; [by destruct Hdots as [->| ->]|].
      by apply loose_no_sep, elems_loose. }
  unfold cleanElems.
  destruct Hdots as [->| ->]; simpl;
    rewrite fold_cleanStep_loose by (by apply elems_loose);
    rewrite filter_elems by done;
    by rewrite ?rev_app_distr, rev_involutive, ?app_nil_r.
Qed.

End resolver_sandbox.

(** The part of the sandbox the code keeps: a host path resolves to a clean path
    at or below the sandbox root, unless the first element of the cleaned
    host path is [tmp..]; then it resolves to the rest of the host path,
    wherever that leads. *)
Theorem resolveStoragePath_sandbox (storagePath : string) :
  GoStrings.HasPrefix storagePath "host://" = true ->
  (exists es, Forall (fun e => Filepath.isElem e = true) es
     /\ resolveStoragePath storagePath = Filepath.absPath ("tmp" :: es))
  \/ (exists es, Forall (fun e => Filepath.isElem e = true) es
       /\ Filepath.Clean
            ("/" +:+ GoStrings.TrimPrefix
                       (GoStrings.TrimPrefix storagePath "host://") "/")
          = Filepath.absPath ("tmp.." :: es)
       /\ resolveStoragePath storagePath = Filepath.absPath es).
Proof.
  intros Hhost. unfold resolveStoragePath. rewrite Hhost. cbv zeta.
  destruct (Clean_rooted
              ("/" +:+ GoStrings.TrimPrefix
                         (GoStrings.TrimPrefix storagePath "host://") "/"))
    as (es & Hes & Hclean); [done|].
  rewrite Hclean. destruct es as [|e es].
  { left. exists []. split; [done|]. by rewrite decide_True. }
  apply Forall_cons in Hes as [He Hes].
  pose proof He as (Hne & Hdot & Hdots & Hsep)%isElem_spec.
  rewrite decide_False.
  2:{ unfold Filepath.absPath. rewrite Join_cons_tail. by destruct e. }
  assert (GoStrings.HasPrefix (Filepath.absPath (e :: es)) nodeTmp
          = GoStrings.HasPrefix e "tmp") as ->.
  { unfold Filepath.absPath. rewrite Join_cons_tail.
    change ("/" +:+ ?s) with (String "/" s).
    change (GoStrings.HasPrefix (String "/" ?s) nodeTmp)
      with (GoStrings.HasPrefix s "tmp").
    destruct es; [by rewrite app_empty_r|by apply HasPrefix_elem]. }
  destruct (GoStrings.HasPrefix e "tmp") eqn:Hpre.
  - apply HasPrefix_inv in Hpre. simpl String.length in Hpre.
    set (sfx := GoStrings.sliceFrom 3 e) in Hpre.
    assert (GoStrings.Contains sfx "/" = false) as Hsfx.
    { rewrite Hpre, Contains_slash_app in Hsep. by apply orb_false_elim in Hsep as [_ ?]. }
    assert (GoStrings.TrimPrefix (Filepath.absPath (e :: es)) nodeTmp
            = sfx +:+ joinedTail es) as ->.
    { unfold Filepath.absPath. rewrite Join_cons_tail, Hpre.
      change ("/" +:+ ("tmp" +:+ sfx) +:+ joinedTail es)
        with (nodeTmp +:+ sfx +:+ joinedTail es).
      apply TrimPrefix_app. }
    rewrite Join_nodeTmp.
    destruct (decide (sfx = "")) as [Hempty|Hfull].
    + left. exists es. split; [done|]. rewrite Hempty, app_nil_str.
      replace (GoStrings.TrimPrefix (joinedTail es) "/") with (GoStrings.Join es "/")
        by (by destruct es).
      by rewrite Clean_nodeTmp_elems, filter_elems
        by first [done | by apply elems_loose].
    + replace (GoStrings.TrimPrefix (sfx +:+ joinedTail es) "/")
        with (GoStrings.Join (sfx :: es) "/").
      2:{ rewrite Join_cons_tail. destruct sfx as [|c sfx]; [done|].
          rewrite Contains_slash_cons in Hsfx. apply orb_false_elim in Hsfx as [Hc _].
          rewrite app_cons_str. unfold GoStrings.TrimPrefix. simpl. by rewrite Hc. }
      destruct (decide (sfx = ".")) as [Hone|Hnone];
        [|destruct (decide (sfx = "..")) as [Htwo|Hnone']].
      * left. exists es. split; [done|].
        rewrite Clean_nodeTmp_dots by (done || by left).
        by rewrite decide_True.
      * right. exists es. split; [done|]. split; [by rewrite Hpre, Htwo|].
        rewrite Clean_nodeTmp_dots by (done || by right).
        by rewrite decide_False by by rewrite Htwo.
      * left. exists (sfx :: es).
        assert (Filepath.isElem sfx = true) as Helem by by apply isElem_spec.
        split; [by constructor|].
        by rewrite Clean_nodeTmp_elems, filter_elems
          by first [by constructor | by apply elems_loose; constructor].
  - left. exists (e :: es). split; [by constructor|].
    replace (GoStrings.TrimPrefix (Filepath.absPath (e :: es)) "/")
      with (GoStrings.Join (e :: es) "/") by (symmetry; apply (TrimPrefix_app "/")).
    rewrite Join_nodeTmp.
    by rewrite Clean_nodeTmp_elems, filter_elems
      by first [by constructor | by apply elems_loose; constructor].
Qed.

(** Any other storage path is used as it is. *)
Lemma resolveStoragePath_plain (storagePath : string) :
  GoStrings.HasPrefix storagePath "host://" = false ->
  resolveStoragePath storagePath = storagePath.
Proof. intros Hplain. unfold resolveStoragePath. by rewrite Hplain. Qed.

(** ** The earlier variant *)

(** The earlier resolution follows a traversal out of its mount point. *)
Example Legacy_resolve_traversal :
  Legacy.resolve "host:///var/backups" = "/host-mounts/var/backups"
  /\ Legacy.resolve "host:///../etc" = "/etc".
Proof. split; vm_compute; reflexivity. Qed.

(** The earlier cleanup returns an error for a directory that is missing. *)
Example Legacy_CleanupArchives_missing_directory
    (now : Z) (retentionDays maxArchives : option Z) :
  Legacy.CleanupArchives now ∅ "/backups" retentionDays maxArchives
  = (Fails ReadStorageFailed, ∅).
Proof. done. Qed.

(** The earlier guards compare a kind with the filter entries as they are
    written. *)
Example Legacy_eligible_as_written :
  Legacy.eligible ["pod"] (mkAPIResource "pods" true "Pod" ["list"]) = false
  /\ Legacy.eligible ["Pod"] (mkAPIResource "pods" true "Pod" ["list"]) = true.
Proof. split; vm_compute; reflexivity. Qed.

(** * Properties of the engine and its callers *)

(** ** Cleaning an object for the backup *)

Section clean_resource.
Implicit Types (obj : Object) (field : string).

Lemma removeMetadataField_lookup obj field (key : string) :
  key <> "metadata" -> removeMetadataField obj field !! key = obj !! key.
Proof.
  intros Hkey. unfold removeMetadataField.
  destruct (obj !! "metadata") as [[]|]; try done. by rewrite lookup_insert_ne.
Qed.

Lemma removeMetadataField_metadata obj field :
  removeMetadataField obj field !! "metadata"
  = match obj !! "metadata" with
    | Some (JObject m) => Some (JObject (delete field m))
    | other => other
    end.
Proof.
  unfold removeMetadataField.
  destruct (obj !! "metadata") as [[]|] eqn:Hm; try done. by rewrite lookup_insert_eq.
Qed.

Lemma metadataField_remove obj field (other : string) :
  metadataField (removeMetadataField obj field) other
  = if decide (other = field) then None else metadataField obj other.
Proof.
  unfold metadataField. rewrite removeMetadataField_metadata.
  destruct (obj !! "metadata") as [[]|]; try by case_decide.
  case_decide as Heq.
  - by rewrite Heq, lookup_delete_eq.
  - by rewrite lookup_delete_ne.
Qed.

Lemma lookup_foldr_delete_fields (m : gmap string JSON) (fields : list string) field :
  foldr delete m fields !! field = if decide (field ∈ fields) then None else m !! field.
Proof.
  induction fields as [|f fields IH]; simpl; [done|].
  destruct (decide (field = f)) as [->|Hne].
  - rewrite lookup_delete_eq. by rewrite decide_True by set_solver.
  - rewrite lookup_delete_ne, IH by done.
    case_decide; [by rewrite decide_True by set_solver|].
    by rewrite decide_False by set_solver.
Qed.

Lemma cleanResource_metadata obj :
  cleanResource obj !! "metadata"
  = match obj !! "metadata" with
    | Some (JObject m) => Some (JObject (foldr delete m (reverse runtimeFields)))
    | other => other
    end.
Proof.
  unfold cleanResource. rewrite lookup_delete_ne by done.
  rewrite !removeMetadataField_metadata.
  by destruct (obj !! "metadata") as [[]|].
Qed.

Lemma cleanResource_field obj field :
  metadataField (cleanResource obj) field
  = if decide (field ∈ runtimeFields) then None else metadataField obj field.
Proof.
  unfold cleanResource, metadataField at 1.
  rewrite lookup_delete_ne by done.
  fold (metadataField
          (removeMetadataField (removeMetadataField (removeMetadataField
             (removeMetadataField (removeMetadataField (removeMetadataField obj
                "managedFields") "resourceVersion") "uid") "selfLink")
             "creationTimestamp") "generation") field).
  rewrite !metadataField_remove. unfold runtimeFields.
  repeat (case_decide; [subst; by rewrite decide_True by set_solver|]).
  by rewrite decide_False by set_solver.
Qed.

Lemma metadataString_as_field obj field :
  metadataString obj field
  = match metadataField obj field with
    | Some (JString s) => s
    | _ => ""
    end.
Proof.
  unfold metadataString, metadataField. by destruct (obj !! "metadata") as [[]|].
Qed.

Lemma GetName_cleanResource obj : GetName (cleanResource obj) = GetName obj.
Proof.
  unfold GetName. rewrite !metadataString_as_field, cleanResource_field.
  by rewrite decide_False by (unfold runtimeFields; set_solver).
Qed.

End clean_resource.

(** [cleanResource] takes [status] and the six runtime fields of [metadata]
    out of an object and leaves everything else where it is: every other
    top-level field, every other field of [metadata], and a [metadata] that
    is no map. *)
Theorem cleanResource_removes_runtime_fields (obj : Object) :
  cleanResource obj !! "status" = None
  /\ (forall key, key <> "status" -> key <> "metadata" ->
        cleanResource obj !! key = obj !! key)
  /\ (forall field, field ∈ runtimeFields ->
        metadataField (cleanResource obj) field = None)
  /\ (forall field, field ∉ runtimeFields ->
        metadataField (cleanResource obj) field = metadataField obj field)
  /\ (forall value, obj !! "metadata" = Some value ->
        (forall m, value <> JObject m) ->
        cleanResource obj !! "metadata" = Some value)
  /\ GetName (cleanResource obj) = GetName obj
  /\ GetNamespace (cleanResource obj) = GetNamespace obj
  /\ GetResourceVersion (cleanResource obj) = "".
Proof.
  pose proof (cleanResource_field obj) as Hfield.
  pose proof (metadataString_as_field (cleanResource obj)) as Hstring.
  pose proof (metadataString_as_field obj) as Hstring'.
  split; [by apply lookup_delete_eq|]. split; [|split; [|split; [|split; [|split; [|split]]]]].
  - intros key Hs Hm. unfold cleanResource. rewrite lookup_delete_ne by done.
    by rewrite !removeMetadataField_lookup.
  - intros field Hin. by rewrite Hfield, decide_True.
  - intros field Hout. by rewrite Hfield, decide_False.
  - intros value Hvalue Hmap. rewrite cleanResource_metadata, Hvalue.
    destruct value; try done. by destruct (Hmap fields).
  - unfold GetName. rewrite Hstring, Hstring', Hfield.
    by rewrite decide_False by (unfold runtimeFields; set_solver).
  - unfold GetNamespace. rewrite Hstring, Hstring', Hfield.
    by rewrite decide_False by (unfold runtimeFields; set_solver).
  - unfold GetResourceVersion. rewrite Hstring, Hfield.
    by rewrite decide_True by (unfold runtimeFields; set_solver).
Qed.

(** Cleaning an object that is clean changes nothing. *)
Theorem cleanResource_idempotent (obj : Object) :
  cleanResource (cleanResource obj) = cleanResource obj.
Proof.
  apply map_eq. intros key.
  destruct (decide (key = "status")) as [->|Hs].
  { unfold cleanResource at 1 3. by rewrite !lookup_delete_eq. }
  destruct (decide (key = "metadata")) as [->|Hm].
  - rewrite (cleanResource_metadata (cleanResource obj)), cleanResource_metadata.
    destruct (obj !! "metadata") as [[]|]; try done.
    do 2 f_equal. apply map_eq. intros field.
    rewrite !lookup_foldr_delete_fields. by case_decide.
  - unfold cleanResource at 1. rewrite lookup_delete_ne by done.
    by rewrite !removeMetadataField_lookup.
Qed.

(** ** The metadata of a restored object *)

Section ensure_metadata.
Implicit Types (obj : Object).

Lemma metadataField_insert obj (m : gmap string JSON) (field : string) :
  metadataField (<["metadata" := JObject m]> obj) field = m !! field.
Proof. unfold metadataField. by rewrite lookup_insert_eq. Qed.

End ensure_metadata.

(** [ensureMetadata] on a decoded object: a name in the body wins over the
    name of the path, the namespace of the path wins over a namespace in
    the body, and the call fails only when neither body nor path has a
    name.  Every other field of the object and of its [metadata] is kept. *)
Theorem ensureMetadata_resolves_names (obj : Object) (name namespace : string) :
  match ensureMetadata (Some obj) name namespace with
  | Panics => False
  | Fails _ => GetName obj = "" /\ name = ""
  | Returns obj' =>
      GetName obj' = (if decide (GetName obj = "") then name else GetName obj)
      /\ GetName obj' <> ""
      /\ GetNamespace obj'
         = (if decide (namespace = "") then GetNamespace obj else namespace)
      /\ (forall key, key <> "metadata" -> obj' !! key = obj !! key)
      /\ (forall field, field <> "name" -> field <> "namespace" ->
            metadataField obj' field = metadataField obj field)
  end.
Proof.
  unfold ensureMetadata. cbv zeta.
  set (metaObj := match obj !! "metadata" with
                  | Some (JObject m) => m
                  | _ => ∅
                  end).
  assert (forall field, metadataField obj field = metaObj !! field) as Hfield.
  { intros field. unfold metadataField, metaObj.
    by destruct (obj !! "metadata") as [[]|]. }
  set (resolved := match metaObj !! "name" with
                   | Some (JString existingName) =>
                       if decide (existingName <> "") then existingName else name
                   | _ => name
                   end).
  assert (resolved = if decide (GetName obj = "") then name else GetName obj)
    as Hresolved.
  { unfold resolved, GetName. rewrite metadataString_as_field, Hfield.
    destruct (metaObj !! "name") as [[]|]; try done.
    repeat case_decide; done. }
  destruct (decide (resolved = "")) as [Hname|Hname].
  { rewrite Hresolved in Hname. by case_decide. }
  rewrite <- Hresolved.
  clearbody resolved. clear Hresolved.
  unfold GetName, GetNamespace. rewrite !metadataString_as_field, !metadataField_insert.
  destruct (decide (namespace <> "")) as [Hns|Hns].
  - rewrite (decide_False (P := namespace = "")) by done.
    rewrite lookup_insert_ne, !lookup_insert_eq by done.
    split; [done|]. split; [done|]. split; [done|]. split.
    + intros key Hkey. by rewrite lookup_insert_ne.
    + intros field Hn Hf. by rewrite metadataField_insert, Hfield, !lookup_insert_ne.
  - apply dec_stable in Hns. rewrite (decide_True (P := namespace = "")) by done.
    rewrite lookup_insert_eq, lookup_insert_ne by done.
    split; [done|]. split; [done|]. split; [by rewrite Hfield|]. split.
    + intros key Hkey. by rewrite lookup_insert_ne.
    + intros field Hn Hf. by rewrite metadataField_insert, Hfield, !lookup_insert_ne.
Qed.

(** ** Errors the restorer cannot return *)

Section restore_errors.
Context {W : Type} `{!DynamicClient W}.
Local Arguments ensureMetadata : simpl never.
Local Arguments parseArchiveEntry : simpl never.

Lemma readEntry_no_MetadataFailed (item : TarItem) (err : RestoreError) :
  readEntry item = Fails err -> isMetadataFailed err = false.
Proof.
  destruct item as [regular name data|]; simpl; [|by intros [= <-]].
  destruct regular; simpl; [|done].
  destruct (GoStrings.HasSuffix name ".json"); simpl; [|done].
  destruct (parseArchiveEntry name) as [perr|[[g ns] objName]] eqn:Hparse;
    [by intros [= <-]|].
  destruct data as [|parsed]; [by intros [= <-]|].
  destruct (unmarshalObject parsed) as [[fields|]|]; [| |by intros [= <-]].
  - destruct (ensureMetadata_named fields objName ns) as (obj' & ? & ? & -> & _);
      [by eapply parseArchiveEntry_name|done].
  - done.
Qed.

Lemma readArchive_no_MetadataFailed (items : list TarItem) (c n : list archivedResource)
    (err : RestoreError) :
  readArchive items c n = Fails err -> isMetadataFailed err = false.
Proof.
  revert c n. induction items as [|item items IH]; intros c n; simpl; [done|].
  destruct (readEntry item) as [[res|]|err'|] eqn:Hitem; try done.
  - case_decide; apply IH.
  - apply IH.
  - intros [= <-]. by eapply readEntry_no_MetadataFailed.
Qed.

Lemma applyResources_no_MetadataFailed (rs : list archivedResource) (applied : nat)
    (w w' : W) (err : RestoreError) :
  applyResources rs applied w = (inl err, w') -> isMetadataFailed err = false.
Proof.
  revert applied w. induction rs as [|res rs IH]; intros applied w; simpl; [done|].
  destruct (applyResource res w) as [[err'|[]] w1] eqn:Hturn; [|apply IH].
  intros [= <- <-]. unfold applyResource in Hturn.
  destruct (clientCreate _ _ _ w) as [[cerr|created] w2]; [|done].
  destruct (negb (IsAlreadyExists cerr)); [by injection Hturn as <- _|].
  destruct (clientGet _ _ _ w2) as [[gerr|existing] w3]; [by injection Hturn as <- _|].
  destruct (clientUpdate _ _ _ w3) as [[uerr|updated] w4]; [by injection Hturn as <- _|].
  done.
Qed.

End restore_errors.

(** The error [resource missing metadata.name] never comes out of
    [RestoreBackup]: an entry without a name in its path is refused by
    [parseArchiveEntry] before [ensureMetadata] sees it. *)
Theorem RestoreBackup_never_misses_name {W : Type} `{!DynamicClient W}
    (files : gmap string ArchiveFile) (storagePath archiveName : string) (w : W) :
  match (RestoreBackup files storagePath archiveName w).1 with
  | Fails err => isMetadataFailed err = false
  | _ => True
  end.
Proof.
  unfold RestoreBackup. case_decide; [done|].
  destruct (files !! _) as [[|items]|]; try done.
  destruct (readArchive items [] []) as [[c n]|err|] eqn:Hread; simpl; [| |done].
  - destruct (applyResources (c ++ n) 0 w) as [[err|applied] w'] eqn:Hrun; [|done].
    simpl. by eapply applyResources_no_MetadataFailed.
  - by eapply readArchive_no_MetadataFailed.
Qed.

(** ** The storage path resolver: where it stays *)

Section resolver_results.
Import GoStrings Filepath.

Lemma absPath_not_host (es : list string) : HasPrefix (absPath es) "host://" = false.
Proof. done. Qed.

Lemma absPath_under (e : string) (es : list string) :
  absPath (e :: es) = "/" +:+ e \/ HasPrefix (absPath (e :: es)) ("/" +:+ e +:+ "/") = true.
Proof.
  unfold absPath. rewrite Join_cons_tail. destruct es as [|e' es].
  - left. unfold joinedTail. by rewrite app_empty_r.
  - right. unfold joinedTail.
    replace ("/" +:+ e +:+ String "/" (GoStrings.Join (e' :: es) "/"))
      with (("/" +:+ e +:+ "/") +:+ GoStrings.Join (e' :: es) "/").
    + apply (HasPrefix_app ("/" +:+ e +:+ "/")).
    + change ("/" +:+ ?s) with (String "/" s). rewrite !app_cons_str.
      by rewrite app_assoc_str.
Qed.

End resolver_results.

(** A host path stays in the sandbox unless the first element of the
    cleaned host path is [tmp..]: it resolves to the sandbox root or to a
    path below it. *)
Theorem resolveStoragePath_stays_under_tmp (storagePath : string) :
  GoStrings.HasPrefix storagePath "host://" = true ->
  (forall es, Filepath.Clean
                ("/" +:+ GoStrings.TrimPrefix
                           (GoStrings.TrimPrefix storagePath "host://") "/")
              <> Filepath.absPath ("tmp.." :: es)) ->
  resolveStoragePath storagePath = nodeTmp
  \/ GoStrings.HasPrefix (resolveStoragePath storagePath) (nodeTmp +:+ "/") = true.
Proof.
  intros Hhost Hfirst.
  destruct (resolveStoragePath_sandbox storagePath Hhost)
    as [(es & _ & ->)|(es & _ & Hclean & _)]; [|by destruct (Hfirst es)].
  apply absPath_under.
Qed.

Lemma resolveStoragePath_stays_under_tmp_witness :
  resolveStoragePath "host:///../etc" = nodeTmp
  \/ GoStrings.HasPrefix (resolveStoragePath "host:///../etc") (nodeTmp +:+ "/") = true.
Proof.
  apply (resolveStoragePath_stays_under_tmp "host:///../etc"); [reflexivity|].
  intros [|e es] Hclean; vm_compute in Hclean; discriminate.
Defined.

(** Resolving a resolved path changes nothing: what a host path resolves to
    is rooted, so it is no host path. *)
Theorem resolveStoragePath_idempotent (storagePath : string) :
  resolveStoragePath (resolveStoragePath storagePath) = resolveStoragePath storagePath.
Proof.
  destruct (GoStrings.HasPrefix storagePath "host://") eqn:Hhost.
  - destruct (resolveStoragePath_sandbox storagePath Hhost)
      as [(es & _ & ->)|(es & _ & _ & ->)];
      by apply resolveStoragePath_plain, absPath_not_host.
  - by rewrite !(resolveStoragePath_plain storagePath Hhost).
Qed.

(** ** String sets *)

(** [makeStringSet] holds exactly the normalized values that are not empty;
    so the order of the values and their repetitions do not matter, and the
    empty string is never a member. *)
Theorem makeStringSet_members (values : list string) (normalize : option (string -> string)) :
  (forall x, x ∈ makeStringSet values normalize
     <-> x <> "" /\ exists v, v ∈ values /\ default id normalize v = x)
  /\ ("" ∉ makeStringSet values normalize)
  /\ (forall values', (forall v, v ∈ values <-> v ∈ values') ->
        makeStringSet values' normalize = makeStringSet values normalize).
Proof.
  assert (forall vs x, x ∈ makeStringSet vs normalize
            <-> x <> "" /\ exists v, v ∈ vs /\ default id normalize v = x) as Hmem.
  { intros vs x. destruct normalize as [f|]; simpl.
    - apply elem_of_makeStringSet.
    - unfold makeStringSet. rewrite (elem_of_foldl_makeStringSet id). set_solver. }
  split; [apply Hmem|]. split.
  - rewrite Hmem. by intros [? _].
  - intros values' Hsame. apply set_eq. intros x. rewrite !Hmem.
    by setoid_rewrite Hsame.
Qed.

(** ** The restorer and the objects of the server *)

Section store_objects.
Implicit Types (st : Store) (res : archivedResource) (rs : list archivedResource).

Lemma setMetadataString_twice (obj : Object) (field v1 v2 : string) :
  setMetadataString (setMetadataString obj field v1) field v2
  = setMetadataString obj field v2.
Proof.
  unfold setMetadataString.
  destruct (obj !! "metadata") as [[]|] eqn:Hmeta; rewrite ?Hmeta; try done.
  - by rewrite lookup_insert_eq, insert_insert_eq, insert_insert_eq.
  - by rewrite lookup_insert_eq, insert_insert_eq, insert_singleton_eq.
Qed.

Lemma setMetadataString_removed (obj : Object) (field v : string) :
  setMetadataString (removeMetadataField obj field) field v
  = setMetadataString obj field v.
Proof.
  unfold setMetadataString, removeMetadataField.
  destruct (obj !! "metadata") as [[]|] eqn:Hmeta; rewrite ?Hmeta; try done.
  by rewrite lookup_insert_eq, insert_insert_eq, insert_delete_eq.
Qed.

Lemma stamped_SetResourceVersion (obj : Object) (live v : string) :
  setMetadataString (SetResourceVersion obj live) "resourceVersion" v
  = setMetadataString obj "resourceVersion" v.
Proof.
  unfold SetResourceVersion. case_decide.
  - apply setMetadataString_removed.
  - apply setMetadataString_twice.
Qed.

(** One turn: it writes at most the key of its resource, what it writes is
    the resource stamped, and it sends no list request. *)
Lemma turn_objects res st :
  exists r st' more,
    applyResource res st = (r, st')
    /\ requests st' = more ++ requests st
    /\ Forall (fun q => isListRequest q = false) more
    /\ (forall key, key <> keyOf res -> objects st' !! key = objects st !! key)
    /\ (is_Some (objects st !! keyOf res) -> is_Some (objects st' !! keyOf res))
    /\ (r = inr () -> exists v, objects st' !! keyOf res = Some (stamped res v)).
Proof.
  rewrite applyResource_store. unfold storeCreate.
  set (create := CreateRequest (gvr res) (namespace res) (GetName (desired res))).
  case_decide as Hname.
  { eexists _, _, [create].
    split; [done|]. split; [done|]. split; [by repeat constructor|]. by repeat split. }
  destruct (negb (bool_decide (namespace res = "")) && _) eqn:Hns.
  { eexists _, _, [create].
    split; [done|]. split; [done|]. split; [by repeat constructor|]. by repeat split. }
  simpl. fold (keyOf res). destruct (objects st !! keyOf res) as [live|] eqn:Hkey.
  - simpl. unfold storeGet. simpl. fold (keyOf res). rewrite Hkey.
    unfold storeUpdate. rewrite GetName_SetResourceVersion. simpl.
    fold (keyOf res). rewrite Hkey.
    destruct (negb (bool_decide (GetResourceVersion _ = "")) && _).
    + eexists _, _,
        [UpdateRequest (gvr res) (namespace res) (GetName (desired res));
         GetRequest (gvr res) (namespace res) (GetName (desired res)); create].
      split; [done|]. split; [done|]. split; [by repeat constructor|].
      simpl. rewrite Hkey. by repeat split.
    + eexists _, _,
        [UpdateRequest (gvr res) (namespace res) (GetName (desired res));
         GetRequest (gvr res) (namespace res) (GetName (desired res)); create].
      split; [done|]. split; [done|]. split; [by repeat constructor|]. simpl.
      split; [intros key Hne; by rewrite lookup_insert_ne|].
      rewrite lookup_insert_eq. split; [by eauto|]. intros _.
      eexists. unfold stamped. by rewrite stamped_SetResourceVersion.
  - simpl. eexists _, _, [create].
    split; [done|]. split; [done|]. split; [by repeat constructor|]. simpl.
    split; [intros key Hne; by rewrite lookup_insert_ne|].
    rewrite lookup_insert_eq. split; [by eauto|]. intros _. by eexists.
Qed.

(** A run of the applying loop, whatever its outcome. *)
Lemma applyResources_frame rs (applied : nat) st r st' :
  applyResources rs applied st = (r, st') ->
  (exists more, requests st' = more ++ requests st
                /\ Forall (fun q => isListRequest q = false) more)
  /\ (forall key, is_Some (objects st !! key) -> is_Some (objects st' !! key))
  /\ (forall key, (forall res, res ∈ rs -> keyOf res <> key) ->
        objects st' !! key = objects st !! key).
Proof.
  revert applied st. induction rs as [|res rs IH]; intros applied st; simpl.
  - intros [= <- <-]. split; [by exists []|]. done.
  - destruct (turn_objects res st)
      as (r1 & st1 & more & Hturn & Hreq & Hmore & Hframe & Hkeep & _).
    rewrite Hturn.
    assert (forall key, is_Some (objects st !! key) -> is_Some (objects st1 !! key))
      as Hkeep1.
    { intros key Hkey. destruct (decide (key = keyOf res)) as [->|Hne]; [by auto|].
      by rewrite Hframe. }
    destruct r1 as [err|[]].
    + intros [= <- <-]. split; [by exists more|]. split; [done|].
      intros key Hkey. apply Hframe. intros ->. eapply Hkey; [by left|done].
    + intros ((more' & Hreq' & Hmore') & Hkeep' & Hframe')%IH. split; [|split].
      * exists (more' ++ more). rewrite Hreq', Hreq, app_assoc. split; [done|].
        by apply Forall_app.
      * intros key Hkey. by apply Hkeep', Hkeep1.
      * intros key Hkey. rewrite Hframe', Hframe; [done| |].
        -- intros ->. eapply Hkey; [by left|done].
        -- intros res' Hres'. apply Hkey. by right.
Qed.

(** A run that went through: every key of a resource holds a resource of
    the run with that key, stamped. *)
Lemma applyResources_stored rs (applied n : nat) st st' :
  applyResources rs applied st = (inr n, st') ->
  forall res, res ∈ rs ->
    exists res' v, res' ∈ rs /\ keyOf res' = keyOf res
                   /\ objects st' !! keyOf res = Some (stamped res' v).
Proof.
  revert applied st. induction rs as [|r rs IH]; intros applied st; simpl.
  - intros _ res ?%elem_of_nil. done.
  - destruct (turn_objects r st)
      as (r1 & st1 & more & Hturn & _ & _ & _ & _ & Hstored).
    rewrite Hturn. destruct r1 as [err|[]]; [done|]. intros Hrun res Hres.
    destruct (decide (Exists (fun res' => keyOf res' = keyOf res) rs))
      as [(res' & Hres' & Hkey)%Exists_exists|Hnone];
      [|rewrite Exists_exists in Hnone].
    + destruct (IH _ _ Hrun res' Hres') as (res'' & v & Hin & Hk & Hobj).
      exists res'', v. split; [by right|]. split; [congruence|]. by rewrite <- Hkey.
    + apply elem_of_cons in Hres as [->|Hres]; [|destruct Hnone; by eauto].
      destruct (Hstored eq_refl) as [v Hv].
      exists r, v. split; [by left|]. split; [done|].
      apply applyResources_frame in Hrun as (_ & _ & Hframe).
      rewrite Hframe; [done|]. intros res' Hres' Hk. apply Hnone. by eauto.
Qed.

End store_objects.

(** [RestoreBackup] against the server in memory, whatever its outcome:
    it sends no list request, it removes no object, and an object whose key
    no resource of the archive has is left as it is. *)
Theorem RestoreBackup_touches_only_archived (files : gmap string ArchiveFile)
    (storagePath archiveName : string) (st : Store) :
  let st' := (RestoreBackup files storagePath archiveName st).2 in
  (exists more, requests st' = more ++ requests st
                /\ Forall (fun q => isListRequest q = false) more)
  /\ (forall key, is_Some (objects st !! key) -> is_Some (objects st' !! key))
  /\ (forall key,
        objects st' !! key = objects st !! key
        \/ exists items res,
             files !! Filepath.Join [resolveStoragePath storagePath; archiveName]
               = Some (Gzip items)
             /\ res ∈ resourcesOf items /\ keyOf res = key).
Proof.
  unfold RestoreBackup. case_decide.
  { split; [by exists []|]. split; [done|]. by left. }
  destruct (files !! _) as [[|items]|] eqn:Hfile;
    try (split; [by exists []|]; split; [done|]; by left).
  destruct (readArchive items [] []) as [[c n]|err|] eqn:Hread;
    try (split; [by exists []|]; split; [done|]; by left).
  apply readArchive_Returns in Hread as (_ & -> & ->).
  destruct (applyResources _ 0 st) as [r st1] eqn:Hrun.
  apply applyResources_frame in Hrun as (Hreq & Hkeep & Hframe).
  assert ((let st' := st1 in
           (exists more, requests st' = more ++ requests st
                         /\ Forall (fun q => isListRequest q = false) more)
           /\ (forall key, is_Some (objects st !! key) -> is_Some (objects st' !! key))
           /\ (forall key,
                 objects st' !! key = objects st !! key
                 \/ exists items' res,
                      Some (Gzip items) = Some (Gzip items')
                      /\ res ∈ resourcesOf items' /\ keyOf res = key))) as Hgoal.
  { split; [done|]. split; [done|]. intros key.
    destruct (decide (Exists (fun res => keyOf res = key) (resourcesOf items)))
      as [(res & Hres & Hkey)%Exists_exists|Hnone];
      [|rewrite Exists_exists in Hnone].
    - right. by exists items, res.
    - left. apply Hframe. intros res Hres Hkey. apply Hnone. exists res.
      split; [|done].
      apply elem_of_app in Hres as [Hres|Hres];
        by apply list_elem_of_filter in Hres as [_ ?]. }
  by destruct r.
Qed.

(** After a [RestoreBackup] that went through, the server holds, under the
    key of every resource of the archive, a resource of the archive with
    that key as it was sent, stamped with a resource version: the live
    object is replaced, not merged. *)
Theorem RestoreBackup_stores_archived (files : gmap string ArchiveFile)
    (storagePath archiveName : string) (st st' : Store) (n : nat) :
  RestoreBackup files storagePath archiveName st = (Returns n, st') ->
  exists items,
    files !! Filepath.Join [resolveStoragePath storagePath; archiveName] = Some (Gzip items)
    /\ forall res, res ∈ resourcesOf items ->
         exists res' v, res' ∈ resourcesOf items /\ keyOf res' = keyOf res
                        /\ objects st' !! keyOf res = Some (stamped res' v).
Proof.
  unfold RestoreBackup. case_decide; [done|].
  destruct (files !! _) as [[|items]|]; try done.
  destruct (readArchive items [] []) as [[c ns]|err|] eqn:Hread; try done.
  destruct (applyResources (c ++ ns) 0 st) as [[err|applied] st1] eqn:Hrun; [done|].
  intros [= -> ->]. exists items. split; [done|].
  apply readArchive_Returns in Hread as (_ & -> & ->).
  intros res Hres.
  assert (forall r, r ∈ filter (fun res => namespace res = "") (resourcesOf items)
                          ++ filter (fun res => namespace res <> "") (resourcesOf items)
                    <-> r ∈ resourcesOf items) as Hsame.
  { intros r. rewrite elem_of_app, !list_elem_of_filter.
    destruct (decide (namespace r = "")); naive_solver. }
  destruct (applyResources_stored _ _ _ _ _ Hrun res) as (res' & v & Hin & Hk & Hobj);
    [by apply Hsame|].
  exists res', v. split; [by apply Hsame|]. done.
Qed.

Lemma RestoreBackup_stores_archived_witness :
  let run := RestoreBackup testFiles "/backups" "cluster-backup-restore.tar.gz" emptyStore in
  exists items,
    testFiles !! Filepath.Join [resolveStoragePath "/backups"; "cluster-backup-restore.tar.gz"]
      = Some (Gzip items)
    /\ forall res, res ∈ resourcesOf items ->
         exists res' v, res' ∈ resourcesOf items /\ keyOf res' = keyOf res
                        /\ objects run.2 !! keyOf res = Some (stamped res' v).
Proof.
  apply (RestoreBackup_stores_archived testFiles "/backups" "cluster-backup-restore.tar.gz"
           emptyStore _ 2%nat).
  vm_compute. reflexivity.
Defined.

(** ** The retention manager: one policy alone, and a ceiling below zero *)

Section retention_single.
Implicit Types (fs : FileSystem) (entries : gmap string DirEntry).
Implicit Types (f : string * DirEntry) (files : list (string * DirEntry)).

Lemma listing_archivesOf entries :
  archiveFiles (merge_sort byName (map_to_list entries)) ≡ₚ archivesOf entries.
Proof.
  unfold archiveFiles, archivesOf. by rewrite !merge_sort_Permutation.
Qed.

Lemma listing_removable entries :
  (forall name e, entries !! name = Some e -> isArchiveFile (name, e) -> Locked e = false) ->
  Forall (unlocked entries) (archiveFiles (merge_sort byName (map_to_list entries))).
Proof.
  intros Hfree. apply Forall_forall. intros [name e] [Harch Hf]%archiveFiles_spec e' He'.
  simpl in *. rewrite Hf in He'. injection He' as <-. by eapply Hfree.
Qed.

Lemma listing_size entries :
  (length (archiveFiles (merge_sort byName (map_to_list entries))) <= size entries)%nat.
Proof.
  etrans; [apply archiveFiles_length|].
  by rewrite merge_sort_Permutation, length_map_to_list.
Qed.

Lemma listing_gone entries (name : string) (e : DirEntry) :
  deleteAll (archiveFiles (merge_sort byName (map_to_list entries))).*1 entries !! name
    = Some e
  <-> entries !! name = Some e /\ ~ isArchiveFile (name, e).
Proof.
  rewrite lookup_deleteAll. case_decide as Hin.
  - apply list_elem_of_fmap in Hin as ([n g] & -> & [Harch Hg]%archiveFiles_spec).
    simpl in *. split; [done|]. intros [He Hno]. rewrite Hg in He.
    injection He as <-. done.
  - split; [|tauto]. intros He. split; [done|]. intros Harch.
    apply Hin, list_elem_of_fmap. exists (name, e). split; [done|].
    by apply archiveFiles_spec.
Qed.


End retention_single.

(** A ceiling without a retention, in a directory where [os.Remove] is
    refused for no archive file: the archive files with the ceiling's
    number of archive files, or more, after them in the order of the names
    are removed, whatever their age, and nothing else; a ceiling of zero,
    which is what the deletion of a [ClusterBackup] asks for, leaves no
    archive file at the destination. *)
Theorem CleanupArchives_ceiling_only (now maxCount : Z) (fs : FileSystem)
    (storagePath : string) (entries : gmap string DirEntry) :
  0 <= maxCount < 2 ^ 63 ->
  fs !! resolveStoragePath storagePath = Some (Directory entries) ->
  (forall name e, entries !! name = Some e -> isArchiveFile (name, e) -> Locked e = false) ->
  Z.of_nat (size entries) < 2 ^ 63 ->
  exists kept : gmap string DirEntry,
    CleanupArchives now fs storagePath None (Some maxCount)
    = (Returns (), <[resolveStoragePath storagePath := Directory kept]> fs)
    /\ (forall name e,
          kept !! name = Some e
          <-> entries !! name = Some e
              /\ (isArchiveFile (name, e) ->
                  Z.of_nat (newerCount (archivesOf entries) name) < maxCount))
    /\ (maxCount = 0 -> forall name e, kept !! name = Some e -> ~ isArchiveFile (name, e)).
Proof.
  intros Hmax Hdir Hfree Hsize.
  pose proof (listing_size entries) as Hlen.
  pose proof (archiveFiles_sorted (merge_sort byName (map_to_list entries))) as Hsorted.
  pose proof (archiveFiles_NoDup_names entries) as Hnd.
  pose proof (listing_removable entries Hfree) as Hunlocked.
  set (files := archiveFiles (merge_sort byName (map_to_list entries))) in *.
  exists (deleteAll (take (length files - Z.to_nat maxCount) files).*1 entries).
  assert (forall name e,
            deleteAll (take (length files - Z.to_nat maxCount) files).*1 entries !! name
              = Some e
            <-> entries !! name = Some e
                /\ (isArchiveFile (name, e) ->
                    Z.of_nat (newerCount (archivesOf entries) name) < maxCount)) as Hkept.
  { intros name e. rewrite lookup_deleteAll.
    assert (forall g, g ∈ files ->
              g ∈ take (length files - Z.to_nat maxCount) files
              <-> ~ Z.of_nat (newerCount (archivesOf entries) g.1) < maxCount) as Htake.
    { intros g Hg. rewrite take_newerCount by done.
      rewrite (newerCount_Permutation _ _ _ (listing_archivesOf entries)). lia. }
    case_decide as Hin.
    - apply list_elem_of_fmap in Hin as ([n g] & -> & Hg). simpl.
      assert ((n, g) ∈ files) as Hl by (by eapply subseteq_take).
      apply Htake in Hg; [|done]. simpl in Hg.
      apply archiveFiles_spec in Hl as [Harch Hl]. simpl in Hl.
      split; [done|]. intros [He Hkeep]. rewrite Hl in He. injection He as <-.
      destruct Hg. by apply Hkeep.
    - split; [|tauto]. intros He. split; [done|]. intros Harch.
      destruct (decide (Z.of_nat (newerCount (archivesOf entries) name) < maxCount))
        as [|Hmany]; [done|].
      exfalso. apply Hin, list_elem_of_fmap. exists (name, e). split; [done|].
      apply Htake; [|done]. by apply archiveFiles_spec. }
  split; [|split; [done|]].
  - unfold CleanupArchives, ReadDir. rewrite Hdir. fold files.
    destruct (maxCount <? Z.of_nat (length files)) eqn:Hover.
    + apply Z.ltb_lt in Hover. rewrite wrap64_small by lia.
      rewrite (removeOldest_run _ _ entries) by (done || lia).
      by replace (Z.to_nat (Z.of_nat (length files) - maxCount))
        with (length files - Z.to_nat maxCount)%nat by lia.
    + apply Z.ltb_ge in Hover.
      replace (length files - Z.to_nat maxCount)%nat with 0%nat by lia.
      simpl. by rewrite insert_id.
  - intros -> name e [_ Hcount]%Hkept Harch. specialize (Hcount Harch). lia.
Qed.

Lemma CleanupArchives_ceiling_only_witness :
  exists kept : gmap string DirEntry,
    CleanupArchives testNow {[ "/backups" := Directory testArchives ]} "/backups"
      None (Some 0)
    = (Returns (),
       <[resolveStoragePath "/backups" := Directory kept]>
         {[ "/backups" := Directory testArchives ]})
    /\ (forall name e,
          kept !! name = Some e
          <-> testArchives !! name = Some e
              /\ (isArchiveFile (name, e) ->
                  Z.of_nat (newerCount (archivesOf testArchives) name) < 0))
    /\ (0 = 0 -> forall name e, kept !! name = Some e -> ~ isArchiveFile (name, e)).
Proof.
  apply (CleanupArchives_ceiling_only testNow 0
           {[ "/backups" := Directory testArchives ]} "/backups" testArchives).
  - lia.
  - reflexivity.
  - intros name e He _. revert name e He.
    apply (bool_decide_unpack (map_Forall (fun _ e => Locked e = false) testArchives)).
    vm_compute. exact I.
  - vm_compute. reflexivity.
Defined.



(** A retention without a ceiling, within 106751 days, in a directory
    whose archive files have a modification time that can be read and are
    not refused by [os.Remove]: the archive files older than the retention
    are removed and nothing else, however many are left. *)
Theorem CleanupArchives_retention_only (now days : Z) (fs : FileSystem)
    (storagePath : string) (entries : gmap string DirEntry) :
  -106751 <= days <= 106751 ->
  fs !! resolveStoragePath storagePath = Some (Directory entries) ->
  (forall name e, entries !! name = Some e -> isArchiveFile (name, e) ->
     is_Some (ModTime e) /\ Locked e = false) ->
  exists kept : gmap string DirEntry,
    CleanupArchives now fs storagePath (Some days) None
    = (Returns (), <[resolveStoragePath storagePath := Directory kept]> fs)
    /\ (forall name e,
          kept !! name = Some e
          <-> entries !! name = Some e
              /\ (isArchiveFile (name, e) -> notOlder now days (name, e))).
Proof.
  intros Hdays Hdir Htidy. exists (aged now days entries). split.
  - unfold CleanupArchives, ReadDir. rewrite Hdir.
    rewrite cutoffTime_exact by done.
    by rewrite (removeExpired_run _ _ entries) by (done || by apply listing_unlocked).
  - intros name e. by apply aged_lookup.
Qed.

Lemma CleanupArchives_retention_only_witness :
  exists kept : gmap string DirEntry,
    CleanupArchives testNow {[ "/backups" := Directory testArchives ]} "/backups"
      (Some 1) None
    = (Returns (),
       <[resolveStoragePath "/backups" := Directory kept]>
         {[ "/backups" := Directory testArchives ]})
    /\ (forall name e,
          kept !! name = Some e
          <-> testArchives !! name = Some e
              /\ (isArchiveFile (name, e) -> notOlder testNow 1 (name, e))).
Proof.
  apply (CleanupArchives_retention_only testNow 1
           {[ "/backups" := Directory testArchives ]} "/backups" testArchives).
  - lia.
  - reflexivity.
  - intros name e He _. revert name e He.
    apply (bool_decide_unpack
             (map_Forall (fun _ e => is_Some (ModTime e) /\ Locked e = false) testArchives)).
    vm_compute. exact I.
Defined.

(** ** The calls of a backup run *)

Section backup_calls_facts.
Variables ToLower TrimSpace : string -> string.
Context {W : Type} `{!DynamicClient W}.
Implicit Types (opts : BackupOptions) (st : LoopState (W := W)).

Lemma captured_foldl (gvr : GroupVersionResource) (nss : list string) st :
  let st' := foldl (fun st ns =>
                      mkLoopState (namespaces st)
                        (backupResourceRequest gvr ns (world st))
                        ((gvr, ns) :: captured st)) st nss in
  namespaces st' = namespaces st
  /\ rev (captured st') = rev (captured st) ++ ((fun ns => (gvr, ns)) <$> nss).
Proof.
  revert st. induction nss as [|ns nss IH]; intros st; simpl.
  - by rewrite app_nil_r.
  - destruct (IH (mkLoopState (namespaces st) (backupResourceRequest gvr ns (world st))
                    ((gvr, ns) :: captured st))) as [Hns Hcap].
    split; [done|]. rewrite Hcap. simpl. by rewrite <- app_assoc.
Qed.

Lemma getNamespacesToBackup_include opts (w w' : W) (nss : list string) :
  getNamespacesToBackup TrimSpace opts w = (inr nss, w') ->
  IncludeNamespaces opts <> [] -> nss = IncludeNamespaces opts.
Proof.
  unfold getNamespacesToBackup. destruct (IncludeNamespaces opts) as [|ns rest]; [done|].
  simpl. by intros [= <- _].
Qed.

Lemma getNamespacesToBackup_error opts (w w' : W) (err : APIError) :
  getNamespacesToBackup TrimSpace opts w = (inl err, w') ->
  IncludeNamespaces opts = [] /\ clientList namespacesGVR "" w = (inl err, w').
Proof.
  unfold getNamespacesToBackup. destruct (IncludeNamespaces opts) as [|ns rest]; [|done].
  simpl. destruct (clientList namespacesGVR "" w) as [[e|items] w1]; [|done].
  by intros [= <- <-].
Qed.

Lemma collectResource_calls opts (gv : string * string) st (r : APIResource) :
  match collectResource ToLower TrimSpace opts gv st r with
  | inr st' =>
      (forall nss, agrees opts st' nss -> agrees opts st nss)
      /\ (forall nss, agrees opts st' nss ->
            rev (captured st')
            = rev (captured st) ++ callsOfResource ToLower TrimSpace opts nss gv r)
  | inl err =>
      IncludeNamespaces opts = []
      /\ exists w1 w2, clientList namespacesGVR "" w1 = (inl err, w2)
  end.
Proof.
  unfold collectResource, callsOfResource.
  destruct (eligible _ _ r); simpl;
    [|split; [done|]; intros; by rewrite app_nil_r].
  destruct (Namespaced r).
  - destruct (namespaces st) as [loaded|] eqn:Hloaded.
    + pose proof (captured_foldl (mkGVR gv.1 gv.2 (Name r)) loaded
                    (mkLoopState (Some loaded) (world st) (captured st))) as [Hns Hcap].
      simpl in *. split.
      * intros nss. unfold agrees. by rewrite Hns, Hloaded.
      * intros nss. unfold agrees. rewrite Hns. intros ->. exact Hcap.
    + destruct (getNamespacesToBackup TrimSpace opts (world st)) as [[err|nss0] w1] eqn:Hget.
      * apply getNamespacesToBackup_error in Hget as [? ?]. eauto.
      * pose proof (captured_foldl (mkGVR gv.1 gv.2 (Name r)) nss0
                      (mkLoopState (Some nss0) w1 (captured st))) as [Hns Hcap].
        simpl in *. split.
        -- intros nss. unfold agrees. rewrite Hns, Hloaded. intros -> Hinc.
           by eapply getNamespacesToBackup_include.
        -- intros nss. unfold agrees. rewrite Hns. intros ->. exact Hcap.
  - destruct (IncludeClusterResources opts); simpl.
    + by split.
    + split; [done|]. intros. by rewrite app_nil_r.
Qed.

Lemma collectResources_calls opts (gv : string * string) st (rs : list APIResource) :
  match collectResources ToLower TrimSpace opts gv st rs with
  | inr st' =>
      (forall nss, agrees opts st' nss -> agrees opts st nss)
      /\ (forall nss, agrees opts st' nss ->
            rev (captured st')
            = rev (captured st) ++ (rs ≫= callsOfResource ToLower TrimSpace opts nss gv))
  | inl err =>
      IncludeNamespaces opts = []
      /\ exists w1 w2, clientList namespacesGVR "" w1 = (inl err, w2)
  end.
Proof.
  revert st. induction rs as [|r rs IH]; intros st; simpl.
  - split; [done|]. intros. by rewrite app_nil_r.
  - pose proof (collectResource_calls opts gv st r) as Hr.
    destruct (collectResource ToLower TrimSpace opts gv st r) as [err|st1]; [done|].
    destruct Hr as [Hagree Hcalls]. specialize (IH st1).
    destruct (collectResources ToLower TrimSpace opts gv st1 rs) as [err|st2]; [done|].
    destruct IH as [Hagree' Hcalls']. split; [by auto|].
    intros nss Hnss. rewrite (Hcalls' nss), (Hcalls nss) by auto.
      by rewrite <- app_assoc.
Qed.

Lemma collectLists_calls opts st (lists : list APIResourceList) :
  match collectLists ToLower TrimSpace opts st lists with
  | inr st' =>
      (forall nss, agrees opts st' nss -> agrees opts st nss)
      /\ (forall nss, agrees opts st' nss ->
            rev (captured st')
            = rev (captured st) ++ callsOfLists ToLower TrimSpace opts nss lists)
  | inl err =>
      IncludeNamespaces opts = []
      /\ exists w1 w2, clientList namespacesGVR "" w1 = (inl err, w2)
  end.
Proof.
  revert st. induction lists as [|l lists IH]; intros st; simpl.
  - split; [done|]. intros. by rewrite app_nil_r.
  - unfold callsOfLists. simpl. unfold callsOfList at 1.
    destruct (ParseGroupVersion (GroupVersion l)) as [gv|].
    + pose proof (collectResources_calls opts gv st (APIResources l)) as Hl.
      destruct (collectResources ToLower TrimSpace opts gv st (APIResources l))
        as [err|st1]; [done|].
      destruct Hl as [Hagree Hcalls]. specialize (IH st1).
      destruct (collectLists ToLower TrimSpace opts st1 lists) as [err|st2]; [done|].
      destruct IH as [Hagree' Hcalls']. split; [by auto|].
      intros nss Hnss. rewrite (Hcalls' nss), (Hcalls nss) by auto.
      by rewrite <- app_assoc.
    + apply IH.
Qed.

End backup_calls_facts.

(** The [backupResource] calls of a run are those of one list of
    namespaces, the same for every resource type: for each list whose group
    and version parse, in order, and for each of its eligible resource
    types, in order, one call per namespace when the type is namespaced,
    and one cluster-wide call when it is not and cluster resources are
    included.  With an include list the namespaces are that list.  The
    collection fails only on the error of a namespace listing, which an
    include list rules out. *)
Theorem CreateBackup_calls_flat (ToLower TrimSpace : string -> string)
    {W : Type} `{!DynamicClient W} (opts : BackupOptions)
    (lists : list APIResourceList) (w : W) :
  match CreateBackup_calls ToLower TrimSpace opts lists w with
  | inr calls =>
      exists nss,
        calls = callsOfLists ToLower TrimSpace opts nss lists
        /\ (IncludeNamespaces opts <> [] -> nss = IncludeNamespaces opts)
  | inl err =>
      IncludeNamespaces opts = []
      /\ exists w1 w2, clientList namespacesGVR "" w1 = (inl err, w2)
  end.
Proof.
  unfold CreateBackup_calls.
  pose proof (collectLists_calls ToLower TrimSpace opts (mkLoopState None w []) lists)
    as Hrun.
  destruct (collectLists ToLower TrimSpace opts (mkLoopState None w []) lists)
    as [err|st]; [done|].
  destruct Hrun as [Hagree Hcalls].
  exists (match namespaces st with
          | Some loaded => loaded
          | None => IncludeNamespaces opts
          end).
  assert (agrees opts st (match namespaces st with
                          | Some loaded => loaded
                          | None => IncludeNamespaces opts
                          end)) as Hnss.
  { unfold agrees. by destruct (namespaces st). }
  split.
  - by rewrite (Hcalls _ Hnss).
  - apply (Hagree _ Hnss).
Qed.

(** ** The controller's options *)

(** [performBackup] never hands [CreateBackup] an empty list of resource
    types, and includes the cluster resources unless the spec says no.
    When the spec names no resource type, the filter of the run holds the
    default kinds in lower case: a listable resource type that is no
    subresource is backed up exactly when its kind is, case aside, one of
    the defaults, so every other kind (custom resources among them) is
    left out. *)
Theorem performBackup_default_kinds (ToLower TrimSpace : string -> string)
    (spec : v1alpha1.ClusterBackupSpec) :
  ResourceTypes (performBackupOptions spec) <> []
  /\ IncludeClusterResources (performBackupOptions spec)
     = default true (v1alpha1.IncludeClusterResources spec)
  /\ (v1alpha1.ResourceTypes spec <> [] ->
        ResourceTypes (performBackupOptions spec) = v1alpha1.ResourceTypes spec)
  /\ (v1alpha1.ResourceTypes spec = [] ->
      Forall (fun d => ToLower (TrimSpace d) = GoStrings.ToLowerASCII d)
        GetDefaultResourceTypes ->
      forall r : APIResource,
        eligible ToLower (resourceTypeFilterOf ToLower TrimSpace (performBackupOptions spec)) r
          = true
        <-> GoStrings.Contains (Name r) "/" = false
            /\ "list" ∈ Verbs r
            /\ ToLower (Kind r) ∈ (GoStrings.ToLowerASCII <$> GetDefaultResourceTypes)).
Proof.
  unfold performBackupOptions. simpl.
  destruct (v1alpha1.ResourceTypes spec) as [|t ts] eqn:Htypes; simpl.
  - split; [done|]. split; [by destruct (v1alpha1.IncludeClusterResources spec)|].
    split; [done|]. intros _ Hascii r. unfold eligible.
    rewrite !andb_true_iff, negb_true_iff, contains_elem_of.
    rewrite (eligible_filter ToLower TrimSpace _ (Kind r)). simpl.
    assert ((forall f, f ∈ GetDefaultResourceTypes -> ToLower (TrimSpace f) = "")
            \/ (exists f, f ∈ GetDefaultResourceTypes /\ ToLower (TrimSpace f) <> ""
                          /\ ToLower (TrimSpace f) = ToLower (Kind r))
            <-> ToLower (Kind r) ∈ (GoStrings.ToLowerASCII <$> GetDefaultResourceTypes))
      as ->; [|tauto].
    rewrite list_elem_of_fmap. split.
    + intros [Hall|(f & Hf & _ & Heq)].
      * specialize (Hall "Pod"). 
        rewrite (proj1 (Forall_forall _ _) Hascii "Pod") in Hall
          by (unfold GetDefaultResourceTypes; set_solver).
        by specialize (Hall ltac:(unfold GetDefaultResourceTypes; set_solver)).
      * exists f. split; [|done].
        by rewrite <- Heq, (proj1 (Forall_forall _ _) Hascii f).
    + intros (f & Heq & Hf). right. exists f. split; [done|].
      rewrite (proj1 (Forall_forall _ _) Hascii f) by done. split; [|done].
      clear Heq. revert f Hf. apply Forall_forall. unfold GetDefaultResourceTypes.
      repeat (apply Forall_cons_2; [by vm_compute|]). apply Forall_nil_2.
  - split; [done|]. split; [by destruct (v1alpha1.IncludeClusterResources spec)|].
    done.
Qed.

(** ** Archive entry paths: from the parsed coordinate back to the path *)

Section entry_inverse.
Import GoStrings Filepath.

Lemma slice_split (n : nat) (s : string) : sliceTo n s +:+ sliceFrom n s = s.
Proof.
  revert s. induction n as [|n IH]; intros s; [done|].
  destruct s as [|c s]; [done|]. simpl. by rewrite app_cons_str, IH.
Qed.

Lemma HasSuffix_inv (s suffix : string) :
  HasSuffix s suffix = true -> s = TrimSuffix s suffix +:+ suffix.
Proof.
  intros Hs. unfold TrimSuffix. rewrite Hs. unfold HasSuffix in Hs.
  apply andb_true_iff in Hs as [_ Heq%String.eqb_eq].
  rewrite <- (slice_split (String.length s - String.length suffix) s) at 1.
  by rewrite Heq.
Qed.

Lemma removelast_cons {A} (x : A) (l : list A) :
  l <> [] -> removelast (x :: l) = x :: removelast l.
Proof. by destruct l. Qed.

Lemma last_cons {A} (x d : A) (l : list A) : l <> [] -> List.last (x :: l) d = List.last l d.
Proof. by destruct l. Qed.

(** Appending text without a separator lengthens the last piece. *)
Lemma Split_app_last (p q : string) :
  Contains q "/" = false ->
  Split (p +:+ q) "/"
  = removelast (Split p "/") ++ [List.last (Split p "/") "" +:+ q].
Proof.
  intros Hq. induction p as [|c p IH].
  - rewrite app_nil_str. by rewrite Split_no_sep.
  - rewrite app_cons_str. simpl. rewrite IH.
    pose proof (Split_nonempty p "/") as Hne.
    destruct (Ascii.eqb c "/").
    + by rewrite removelast_cons, last_cons.
    + destruct (Split p "/") as [|piece pieces]; [done|].
      destruct pieces as [|piece' pieces]; [done|].
      rewrite !(removelast_cons _ (piece' :: pieces)) by done.
      by rewrite !(last_cons _ _ (piece' :: pieces)) by done.
Qed.

Lemma HasSuffix_last_piece (s suffix : string) :
  Contains suffix "/" = false -> HasSuffix s suffix = true ->
  HasSuffix (List.last (Split s "/") "") suffix = true.
Proof.
  intros Hsep Hs. apply HasSuffix_inv in Hs. rewrite Hs.
  rewrite Split_app_last by done. rewrite last_last. apply HasSuffix_app.
Qed.

Lemma Join_Split (s : string) : GoStrings.Join (Split s "/") "/" = s.
Proof.
  induction s as [|c s IH]; [done|]. simpl.
  pose proof (Split_nonempty s "/") as Hne.
  destruct (Ascii.eqb c "/") eqn:Hc.
  - apply Ascii.eqb_eq in Hc as ->.
    destruct (Split s "/") as [|piece pieces]; [done|].
    rewrite Join_cons_cons, IH. done.
  - destruct (Split s "/") as [|piece pieces]; [done|].
    destruct pieces as [|piece' pieces].
    + simpl in *. by rewrite IH.
    + rewrite Join_cons_cons in *. by rewrite app_cons_str, IH.
Qed.

(** What [Clean] keeps of the pieces of a path is not empty and holds no
    separator. *)
Lemma cleanStep_pieces (rooted : bool) (out : list string) (e : string) :
  Forall (fun e => e <> "" /\ Contains e "/" = false) out -> Contains e "/" = false ->
  Forall (fun e => e <> "" /\ Contains e "/" = false) (cleanStep rooted out e).
Proof.
  intros Hout He. unfold cleanStep. repeat case_decide; try done.
  - destruct out as [|e' out].
    + destruct rooted; by repeat constructor.
    + case_decide; [by constructor|]. by apply Forall_cons in Hout as [_ ?].
  - by constructor.
Qed.

Lemma cleanElems_pieces (rooted : bool) (pieces : list string) :
  Forall (fun piece => Contains piece "/" = false) pieces ->
  Forall (fun e => e <> "" /\ Contains e "/" = false) (cleanElems rooted pieces).
Proof.
  intros Hpieces. unfold cleanElems. apply Forall_rev.
  assert (forall out, Forall (fun e => e <> "" /\ Contains e "/" = false) out ->
            Forall (fun e => e <> "" /\ Contains e "/" = false)
              (fold_left (cleanStep rooted) pieces out)) as Hfold; [|by apply Hfold].
  induction Hpieces as [|piece pieces Hpiece _ IH]; intros out Hout; [done|].
  simpl. by apply IH, cleanStep_pieces.
Qed.

(** The pieces of a cleaned path that does not begin at the root: none of
    them is empty. *)
Lemma Clean_parts (path : string) :
  hd "" (Split (Clean path) "/") <> "" ->
  Forall (fun e => e <> "") (Split (Clean path) "/").
Proof.
  unfold Clean. case_decide; [by repeat constructor|].
  pose proof (cleanElems_pieces (HasPrefix path "/") (Split path Separator)
                (Split_pieces path)) as Hout.
  destruct (HasPrefix path "/").
  { change ("/" +:+ ?s) with (String "/" s). by simpl. }
  destruct (cleanElems false (Split path Separator)) as [|e out]; [by repeat constructor|].
  rewrite Split_Join; [|done|].
  - intros _. eapply Forall_impl; [done|]. by intros ? [? _].
  - eapply Forall_impl; [done|]. by intros ? [_ ?].
Qed.

End entry_inverse.

(** If [parseArchiveEntry] reads a coordinate, a namespace and a name off a
    path that ends, cleaned, in [.json], then the cleaned path is the path
    the archive layout gives that coordinate, namespace and name, and
    none of version, resource and name is empty: two entries that parse
    alike are the same entry, up to cleaning. *)
Theorem parseArchiveEntry_inverse (path : string) (gvr : GroupVersionResource)
    (namespace name : string) :
  parseArchiveEntry path = inr (gvr, namespace, name) ->
  GoStrings.HasSuffix (Filepath.Clean path) ".json" = true ->
  Filepath.Clean path = grammarPath gvr namespace name
  /\ Version gvr <> "" /\ Resource gvr <> "" /\ name <> "".
Proof.
  intros Hparse Hjson.
  pose proof (Join_Split (Filepath.Clean path)) as Hjoin.
  pose proof (Clean_parts path) as Hparts.
  pose proof (HasSuffix_last_piece (Filepath.Clean path) ".json" eq_refl Hjson) as Hlast.
  apply HasSuffix_inv in Hlast.
  unfold parseArchiveEntry, Filepath.ToSlash in Hparse.
  rewrite <- Hjoin. unfold grammarPath, grammarElems.
  destruct (GoStrings.Split (Filepath.Clean path) "/")
    as [|p0 [|p1 [|p2 [|p3 [|p4 [|p5 [|p6 rest]]]]]]];
    simpl in Hparse, Hlast, Hparts; try done;
    repeat (case_decide; simplify_eq; simpl in *; try done);
    (assert (Forall (fun e : string => e <> "") _) as Hne by (by apply Hparts));
    repeat (apply Forall_cons in Hne as [? Hne]);
    rewrite ?decide_False by done; rewrite <- ?Hlast; done.
Qed.

Lemma parseArchiveEntry_inverse_witness :
  Filepath.Clean "./namespaces/restore-ns//v1/configmaps/sample-config.json"
    = grammarPath (mkGVR "" "v1" "configmaps") "restore-ns" "sample-config"
  /\ Version (mkGVR "" "v1" "configmaps") <> ""
  /\ Resource (mkGVR "" "v1" "configmaps") <> ""
  /\ "sample-config" <> "".
Proof.
  apply (parseArchiveEntry_inverse
           "./namespaces/restore-ns//v1/configmaps/sample-config.json");
    vm_compute; reflexivity.
Defined.

(** ** The names of the archives and their order *)

Section archive_names.
Import GoStrings.

Lemma appendInt_fixed (width : nat) (bound : N) :
  forallb (fun u => String.eqb (appendInt u width) (fixedWidth width u))
    (N.of_nat <$> seq 0 (N.to_nat bound)) = true ->
  forall u, (u < bound)%N -> appendInt u width = fixedWidth width u.
Proof.
  intros Hall u Hu. rewrite forallb_forall in Hall. apply String.eqb_eq, Hall.
  apply list_elem_of_In, list_elem_of_fmap. exists (N.to_nat u).
  split; [lia|]. apply list_elem_of_In, in_seq. lia.
Qed.

Lemma appendInt_2 (u : N) : (u < 100)%N -> appendInt u 2 = fixedWidth 2 u.
Proof. apply appendInt_fixed. vm_compute. reflexivity. Qed.

Lemma appendInt_4 (u : N) : (u < 10000)%N -> appendInt u 4 = fixedWidth 4 u.
Proof. apply appendInt_fixed. vm_compute. reflexivity. Qed.

Lemma compare_app_same (p s1 s2 : string) :
  String.compare (p +:+ s1) (p +:+ s2) = String.compare s1 s2.
Proof.
  induction p as [|c p IH]; [done|]. rewrite !app_cons_str. simpl.
  unfold Ascii.compare. by rewrite N.compare_refl.
Qed.

Lemma digitChar_compare (a b : N) :
  (a < 10)%N -> (b < 10)%N -> Ascii.compare (digitChar a) (digitChar b) = (a ?= b)%N.
Proof.
  intros Ha Hb. unfold Ascii.compare, digitChar.
  rewrite !N_ascii_embedding by lia.
  destruct (N.compare_spec a b), (N.compare_spec (48 + a) (48 + b));
    first [done | exfalso; lia].
Qed.

(** Numbers written at one width compare as their digits do. *)
Lemma fixedWidth_compare (width : nat) (u v : N) (s1 s2 : string) :
  (u < 10 ^ N.of_nat width)%N -> (v < 10 ^ N.of_nat width)%N ->
  String.compare (fixedWidth width u +:+ s1) (fixedWidth width v +:+ s2)
  = match (u ?= v)%N with
    | Eq => String.compare s1 s2
    | c => c
    end.
Proof.
  revert u v s1 s2. induction width as [|width IH]; intros u v s1 s2 Hu Hv.
  - simpl in *. assert (u = 0%N) as -> by lia. assert (v = 0%N) as -> by lia. done.
  - rewrite Nat2N.inj_succ, N.pow_succ_r' in Hu, Hv.
    pose proof (N.div_mod u 10 ltac:(done)) as Hdu.
    pose proof (N.div_mod v 10 ltac:(done)) as Hdv.
    pose proof (N.mod_lt u 10 ltac:(done)) as Hmu.
    pose proof (N.mod_lt v 10 ltac:(done)) as Hmv.
    assert (u / 10 < 10 ^ N.of_nat width)%N as Hu'
      by (apply N.Div0.div_lt_upper_bound; lia).
    assert (v / 10 < 10 ^ N.of_nat width)%N as Hv'
      by (apply N.Div0.div_lt_upper_bound; lia).
    simpl. rewrite !app_assoc_str, !app_cons_str, !app_nil_str.
    rewrite IH by done. simpl. rewrite digitChar_compare by lia.
    clear IH Hu Hv Hu' Hv'.
    set (a := (u / 10)%N) in *. set (b := (v / 10)%N) in *.
    set (c := (u mod 10)%N) in *. set (d := (v mod 10)%N) in *.
    clearbody a b c d.
    destruct (N.compare_spec a b), (N.compare_spec c d), (N.compare_spec u v);
      first [done | exfalso; lia].
Qed.

Lemma formatTimestamp_calendar (t : DateTime) :
  inCalendar t ->
  formatTimestamp t
  = fixedWidth 4 (year t) +:+ fixedWidth 2 (month t) +:+ fixedWidth 2 (day t) +:+ "-"
    +:+ fixedWidth 2 (hour t) +:+ fixedWidth 2 (minute t) +:+ fixedWidth 2 (second t).
Proof.
  intros (Hy & Hmo & Hd & Hh & Hmi & Hs). unfold formatTimestamp.
  by rewrite appendInt_4, !appendInt_2.
Qed.

Lemma archiveFileName_compare (t1 t2 : DateTime) :
  inCalendar t1 -> inCalendar t2 ->
  String.compare (archiveFileName t1) (archiveFileName t2) = (stampOf t1 ?= stampOf t2)%N.
Proof.
  intros H1 H2. unfold archiveFileName.
  rewrite compare_app_same, !formatTimestamp_calendar by done.
  destruct H1 as (Hy1 & Hmo1 & Hd1 & Hh1 & Hmi1 & Hs1).
  destruct H2 as (Hy2 & Hmo2 & Hd2 & Hh2 & Hmi2 & Hs2).
  rewrite !app_assoc_str.
  rewrite (fixedWidth_compare 4), !(fixedWidth_compare 2) by (simpl; lia).
  change ("-" +:+ ?s) with (String "-" s). cbn [String.compare].
  change (Ascii.compare "-" "-") with Eq. cbv iota.
  rewrite !(fixedWidth_compare 2) by (simpl; lia).
  change (String.compare ".tar.gz" ".tar.gz") with Eq. unfold stampOf.
  destruct (N.compare_spec (year t1) (year t2)), (N.compare_spec (month t1) (month t2)),
    (N.compare_spec (day t1) (day t2)), (N.compare_spec (hour t1) (hour t2)),
    (N.compare_spec (minute t1) (minute t2)), (N.compare_spec (second t1) (second t2));
    simpl; symmetry;
    first [ apply N.compare_eq_iff; lia | apply N.compare_lt_iff; lia
          | apply N.compare_gt_iff; lia ].
Qed.

End archive_names.

(** The file [createArchive] writes is one [CleanupArchives] counts as an
    archive, whatever the clock reads. *)
Theorem archiveFileName_is_archive (t : DateTime) :
  isArchiveName (archiveFileName t) = true.
Proof.
  unfold isArchiveName, archiveFileName. apply andb_true_iff. split.
  - apply HasPrefix_app.
  - rewrite <- app_assoc_str. apply HasSuffix_app.
Qed.

(** For dates of four-digit years the names of the archives are ordered as
    the times they were made at, which is the order [CleanupArchives] sorts
    them in; and two archives have the same name exactly when they were
    made within the same second. *)
Theorem archiveFileName_order (t1 t2 : DateTime) :
  inCalendar t1 -> inCalendar t2 ->
  (String.le (archiveFileName t1) (archiveFileName t2) <-> (stampOf t1 <= stampOf t2)%N)
  /\ (archiveFileName t1 = archiveFileName t2 <-> t1 = t2).
Proof.
  intros H1 H2. pose proof (archiveFileName_compare t1 t2 H1 H2) as Hcmp. split.
  - unfold String.le, String.leb. rewrite Hcmp.
    destruct (N.compare_spec (stampOf t1) (stampOf t2)); simpl; split;
      first [done | lia].
  - split; [|by intros ->]. intros Heq.
    rewrite Heq in Hcmp.
    pose proof (compare_app_same (archiveFileName t2) "" "") as Hrefl.
    rewrite app_empty_r in Hrefl. rewrite Hrefl in Hcmp. simpl in Hcmp.
    symmetry in Hcmp. apply N.compare_eq_iff in Hcmp.
    destruct H1 as (Hy1 & Hmo1 & Hd1 & Hh1 & Hmi1 & Hs1).
    destruct H2 as (Hy2 & Hmo2 & Hd2 & Hh2 & Hmi2 & Hs2).
    unfold stampOf in Hcmp. destruct t1, t2; simpl in *. f_equal; lia.
Qed.

Lemma archiveFileName_order_witness :
  (String.le (archiveFileName (mkDateTime 2025 1 2 1 0 0))
     (archiveFileName (mkDateTime 2025 1 3 1 0 0))
   <-> (stampOf (mkDateTime 2025 1 2 1 0 0) <= stampOf (mkDateTime 2025 1 3 1 0 0))%N)
  /\ (archiveFileName (mkDateTime 2025 1 2 1 0 0) = archiveFileName (mkDateTime 2025 1 3 1 0 0)
      <-> mkDateTime 2025 1 2 1 0 0 = mkDateTime 2025 1 3 1 0 0).
Proof.
  apply (archiveFileName_order (mkDateTime 2025 1 2 1 0 0) (mkDateTime 2025 1 3 1 0 0));
    unfold inCalendar; simpl; lia.
Defined.

(** ** Status conditions *)

Section conditions.
Import metav1 meta.
Implicit Types (c : Condition) (cs : list Condition).

Lemma SetStatusCondition_others (later : Z) cs (new : Condition) :
  filter (fun c => Type_ c <> Type_ new) (SetStatusCondition later cs new)
  = filter (fun c => Type_ c <> Type_ new) cs.
Proof.
  induction cs as [|c cs IH]; simpl.
  - rewrite filter_cons_False; [done|]. intros H. apply H. by destruct (IsZero _).
  - case_decide as Heq.
    + rewrite !filter_cons_False; [done| |]; intros H; by apply H.
    + by rewrite !filter_cons_True, IH by done.
Qed.

Lemma SetStatusCondition_types (later : Z) cs (new : Condition) :
  Type_ <$> SetStatusCondition later cs new
  = if decide (Type_ new ∈ Type_ <$> cs) then Type_ <$> cs
    else (Type_ <$> cs) ++ [Type_ new].
Proof.
  induction cs as [|c cs IH]; simpl.
  - by destruct (IsZero _).
  - destruct (decide (Type_ c = Type_ new)) as [Heq|Hne].
    + rewrite decide_True; [done|]. rewrite Heq. by left.
    + rewrite fmap_cons, IH.
      destruct (decide (Type_ new ∈ Type_ <$> cs)) as [Hin|Hout].
      * rewrite decide_True; [done|]. by right.
      * rewrite decide_False; [done|]. intros [?|?]%elem_of_cons; by auto.
Qed.

End conditions.

(** [SetCondition] leaves the conditions of the other types as they are
    and in their order, keeps one condition per type where there was one,
    and appends a condition only when the type had none.  The first
    condition of the type then carries the status, the reason and the
    message it was given and an observed generation of zero; its
    transition time is kept when the status is the one it had, and is the
    time of the call otherwise. *)
Theorem SetCondition_updates_in_place (now later : Z) (conditions : list metav1.Condition)
    (conditionType status reason message : string) :
  let updated := SetCondition now later conditions conditionType status reason message in
  filter (fun c => metav1.Type_ c <> conditionType) updated
    = filter (fun c => metav1.Type_ c <> conditionType) conditions
  /\ metav1.Type_ <$> updated
     = (if decide (conditionType ∈ metav1.Type_ <$> conditions)
        then metav1.Type_ <$> conditions
        else (metav1.Type_ <$> conditions) ++ [conditionType])
  /\ (NoDup (metav1.Type_ <$> conditions) -> NoDup (metav1.Type_ <$> updated))
  /\ exists i c,
       list_find (fun c => metav1.Type_ c = conditionType) updated = Some (i, c)
       /\ metav1.Status c = status /\ metav1.Reason c = reason
       /\ metav1.Message c = message /\ metav1.ObservedGeneration c = 0
       /\ match list_find (fun c => metav1.Type_ c = conditionType) conditions with
          | Some (j, old) =>
              i = j
              /\ metav1.LastTransitionTime c
                 = (if decide (metav1.Status old = status)
                    then metav1.LastTransitionTime old
                    else if decide (now = 0) then later else now)
          | None =>
              i = length conditions
              /\ metav1.LastTransitionTime c = (if decide (now = 0) then later else now)
          end.
Proof.
  unfold SetCondition. cbv zeta.
  set (new := metav1.mkCondition conditionType status 0 now reason message).
  split; [apply (SetStatusCondition_others later conditions new)|].
  split; [apply (SetStatusCondition_types later conditions new)|].
  split.
  { intros Hnd. rewrite (SetStatusCondition_types later conditions new).
    destruct (decide (metav1.Type_ new ∈ metav1.Type_ <$> conditions)) as [Hin|Hout];
      [done|].
    apply NoDup_app. split; [done|]. split; [|apply NoDup_singleton].
    intros t Ht ->%list_elem_of_singleton. done. }
  induction conditions as [|c cs IH]; simpl.
  - unfold metav1.IsZero. simpl. destruct (Z.eqb_spec now 0) as [->|Hnow].
    + rewrite (decide_True (P := conditionType = conditionType)) by done.
      eexists 0%nat, _. by rewrite decide_True.
    + rewrite (decide_True (P := conditionType = conditionType)) by done.
      eexists 0%nat, _. by rewrite decide_False.
  - destruct (decide (metav1.Type_ c = conditionType)) as [Heq|Hne]; simpl.
    + rewrite (decide_True (P := metav1.Type_ c = conditionType)) by done.
      eexists 0%nat, _. split; [done|]. simpl. unfold metav1.IsZero. simpl.
      destruct (String.eqb_spec (metav1.Status c) status) as [->|Hstatus]; simpl.
      * by rewrite decide_True.
      * rewrite decide_False by done. split; [done|]. split; [done|]. split; [done|].
        split; [done|]. split; [done|]. by destruct (Z.eqb_spec now 0); case_decide.
    + rewrite (decide_False (P := metav1.Type_ c = conditionType)) by done.
      destruct IH as (i & c' & Hfind & Hs & Hr & Hm & Ho & Hrest).
      exists (S i), c'. rewrite Hfind. simpl. split; [done|].
      split; [done|]. split; [done|]. split; [done|]. split; [done|].
      destruct (list_find (fun c => metav1.Type_ c = conditionType) cs) as [[j old]|];
        simpl; destruct Hrest as [-> ?]; done.
Qed.

(** ** The names of the Helm chart *)

Section helm_names.
Import GoStrings.

Lemma length_sliceTo (n : nat) (s : string) : (String.length (sliceTo n s) <= n)%nat.
Proof.
  revert s. induction n as [|n IH]; intros [|c s]; simpl; try lia.
  specialize (IH s). lia.
Qed.

Lemma length_sliceTo_le (n : nat) (s : string) :
  (String.length (sliceTo n s) <= String.length s)%nat.
Proof.
  revert s. induction n as [|n IH]; intros [|c s]; simpl; try lia.
  specialize (IH s). lia.
Qed.

Lemma length_trunc (s : string) : (String.length (Helm.trunc 63 s) <= 63)%nat.
Proof.
  unfold Helm.trunc. destruct (63 <? String.length s)%nat eqn:Hlen.
  - apply length_sliceTo.
  - apply Nat.ltb_ge in Hlen. lia.
Qed.

Lemma length_trimSuffix (suffix s : string) :
  (String.length (Helm.trimSuffix suffix s) <= String.length s)%nat.
Proof.
  unfold Helm.trimSuffix, TrimSuffix. destruct (HasSuffix s suffix); [|done].
  apply length_sliceTo_le.
Qed.

Lemma length_trimmed (s : string) :
  (String.length (Helm.trimSuffix "-" (Helm.trunc 63 s)) <= 63)%nat.
Proof.
  etrans; [apply length_trimSuffix|apply length_trunc].
Qed.

End helm_names.

(** The names the chart's helpers render fit a DNS label: the name and the
    full name are at most 63 bytes long whatever the chart, the release
    and the overrides are called, and so is the name of a service account
    the chart creates. *)
Theorem Helm_names_fit_a_label (ctx : Helm.Context) :
  (String.length (Helm.name ctx) <= 63)%nat
  /\ (String.length (Helm.fullname ctx) <= 63)%nat
  /\ (Helm.serviceAccountCreate (Helm.values ctx) = true ->
      (String.length (Helm.serviceAccount ctx) <= 63)%nat).
Proof.
  split; [apply length_trimmed|]. split.
  - unfold Helm.fullname. case_decide; [apply length_trimmed|].
    cbv zeta. destruct (Helm.contains _ _); apply length_trimmed.
  - intros Hcreate. unfold Helm.serviceAccount. rewrite Hcreate. apply length_trimmed.
Qed.

(** ** A backup run and its files *)

Section backup_files_facts.
Variables ToLower TrimSpace : string -> string.
Context {W : Type} `{!DynamicClient W}.
Implicit Types (env : BackupEnv) (rs : RunState (W := W)) (ls : LoopState (W := W)).

Lemma stageItem_files env (dirPath : string) (items : list Object)
    (acc : nat * list (string * Object)) :
  exists new,
    (foldl (stageItem env dirPath) acc items).2 = acc.2 ++ new
    /\ (foldl (stageItem env dirPath) acc items).1 = (acc.1 + length new)%nat
    /\ Forall (fun f => exists item, item ∈ items
                 /\ f = (Filepath.Join [dirPath; GetName item +:+ ".json"],
                         cleanResource item)) new.
Proof.
  revert acc. induction items as [|item items IH]; intros acc; simpl.
  - exists []. by rewrite app_nil_r, Nat.add_0_r.
  - destruct (IH (stageItem env dirPath acc item)) as (new & Hfiles & Hcount & Hnew).
    assert (Forall (fun f => exists item', item' ∈ item :: items
                      /\ f = (Filepath.Join [dirPath; GetName item' +:+ ".json"],
                              cleanResource item')) new) as Hnew'.
    { eapply Forall_impl; [done|]. intros f (item' & ? & ->). exists item'.
      split; [by right|done]. }
    rewrite Hfiles, Hcount. clear Hfiles Hcount. unfold stageItem.
    destruct (marshalFails env (cleanResource item)); [by exists new|].
    destruct (writeFileFails env _); [by exists new|].
    simpl. eexists (_ :: new). rewrite <- app_assoc. simpl.
    split; [done|]. split; [lia|]. constructor; [|done].
    exists item. split; [by left|]. by rewrite GetName_cleanResource.
Qed.

(** A call: the world goes where the list request takes it, and the files
    written are those of listed items, as many as the count says. *)
Lemma backupResource_files env (gvr : GroupVersionResource) (ns tempDir : string) (w : W) :
  (backupResource env gvr ns tempDir w).2 = backupResourceRequest gvr ns w
  /\ match (backupResource env gvr ns tempDir w).1 with
     | inr (count, files) =>
         count = length files /\ Forall (fromCall tempDir [(gvr, ns)]) files
     | inl _ => True
     end.
Proof.
  unfold backupResource, backupResourceRequest.
  destruct (clientList gvr ns w) as [[err|items] w'] eqn:Hlist; [done|].
  destruct (length items =? 0)%nat; [by repeat constructor|].
  destruct (mkdirAllFails env _); [done|]. simpl. split; [done|].
  destruct (stageItem_files env (resourceDir tempDir gvr ns) items (0%nat, []))
    as (new & Hfiles & Hcount & Hnew).
  simpl in *. destruct (foldl _ _ items) as [count files]. simpl in *. subst.
  split; [done|]. eapply Forall_impl; [done|]. intros f (item & Hitem & ->).
  exists gvr, ns, w, items, item. rewrite Hlist. split; [by left|]. done.
Qed.

Lemma fromCall_more (tempDir : string) (calls calls' : list (GroupVersionResource * string))
    (files : list (string * Object)) :
  calls ⊆ calls' -> Forall (fromCall tempDir calls) files ->
  Forall (fromCall tempDir calls') files.
Proof.
  intros Hsub Hfiles. eapply Forall_impl; [done|].
  intros f (gvr & ns & w & items & item & Hin & ?). exists gvr, ns, w, items, item.
  split; [by apply Hsub|done].
Qed.

Lemma runCall_step env (tempDir : string) (gvr : GroupVersionResource) (ns : string) ls rs :
  sameRun ls rs -> counted_files tempDir rs ->
  sameRun (mkLoopState (namespaces ls) (backupResourceRequest gvr ns (world ls))
             ((gvr, ns) :: captured ls))
    (runCall env tempDir gvr ns rs)
  /\ counted_files tempDir (runCall env tempDir gvr ns rs).
Proof.
  intros (Hns & Hw & Hc) [Hcount Hfiles]. unfold runCall.
  pose proof (backupResource_files env gvr ns tempDir (runWorld rs)) as [Hworld Hres].
  destruct (backupResource env gvr ns tempDir (runWorld rs)) as [[err|[count files]] w'];
    simpl in *; subst w'.
  - split; [by rewrite Hw, Hc|]. split; [done|]. simpl.
    eapply fromCall_more; [|done]. set_solver.
  - destruct Hres as [-> Hnew]. split; [by rewrite Hw, Hc|]. split; simpl.
    + rewrite length_app. lia.
    + apply Forall_app. split; (eapply fromCall_more; [|done]); set_solver.
Qed.

Lemma runCalls_step env (tempDir : string) (gvr : GroupVersionResource)
    (nss : list string) ls rs :
  sameRun ls rs -> counted_files tempDir rs ->
  sameRun (foldl (fun st ns =>
                    mkLoopState (namespaces st)
                      (backupResourceRequest gvr ns (world st))
                      ((gvr, ns) :: captured st)) ls nss)
    (foldl (fun st ns => runCall env tempDir gvr ns st) rs nss)
  /\ counted_files tempDir (foldl (fun st ns => runCall env tempDir gvr ns st) rs nss).
Proof.
  revert ls rs. induction nss as [|ns nss IH]; intros ls rs Hsame Hinv; [done|].
  simpl. destruct (runCall_step env tempDir gvr ns ls rs Hsame Hinv) as [Hsame' Hinv'].
  by apply IH.
Qed.

Lemma runResource_step env (tempDir : string) (opts : BackupOptions) (gv : string * string)
    ls rs (r : APIResource) :
  sameRun ls rs -> counted_files tempDir rs ->
  match collectResource ToLower TrimSpace opts gv ls r,
        runResource ToLower TrimSpace env tempDir opts gv rs r with
  | inr ls', inr rs' => sameRun ls' rs' /\ counted_files tempDir rs'
  | inl err, inl err' => err = err'
  | _, _ => False
  end.
Proof.
  intros Hsame Hinv. unfold collectResource, runResource, eligible.
  destruct (GoStrings.Contains (Name r) "/"); [done|].
  destruct (contains (Verbs r) "list"); [|done]. simpl.
  destruct (0 <? size _)%nat; simpl.
  - destruct (bool_decide _); simpl; [|done].
    destruct (Namespaced r).
    + destruct Hsame as (Hns & Hw & Hc). rewrite <- Hns, <- Hw.
      destruct (namespaces ls) as [nss|].
      * destruct (length nss =? 0)%nat eqn:Hlen.
        -- apply Nat.eqb_eq, nil_length_inv in Hlen as ->. simpl.
           split; [by repeat split|]. done.
        -- apply runCalls_step; [by repeat split|done].
      * destruct (getNamespacesToBackup TrimSpace opts (world ls)) as [[err|nss] w'];
          [done|].
        destruct (length nss =? 0)%nat eqn:Hlen.
        -- apply Nat.eqb_eq, nil_length_inv in Hlen as ->. simpl.
           split; [by repeat split|]. done.
        -- apply runCalls_step; [by repeat split|done].
    + destruct (IncludeClusterResources opts); [|done].
      by apply runCall_step.
  - destruct (Namespaced r).
    + destruct Hsame as (Hns & Hw & Hc). rewrite <- Hns, <- Hw.
      destruct (namespaces ls) as [nss|].
      * destruct (length nss =? 0)%nat eqn:Hlen.
        -- apply Nat.eqb_eq, nil_length_inv in Hlen as ->. simpl.
           split; [by repeat split|]. done.
        -- apply runCalls_step; [by repeat split|done].
      * destruct (getNamespacesToBackup TrimSpace opts (world ls)) as [[err|nss] w'];
          [done|].
        destruct (length nss =? 0)%nat eqn:Hlen.
        -- apply Nat.eqb_eq, nil_length_inv in Hlen as ->. simpl.
           split; [by repeat split|]. done.
        -- apply runCalls_step; [by repeat split|done].
    + destruct (IncludeClusterResources opts); [|done].
      by apply runCall_step.
Qed.

Lemma runResources_step env (tempDir : string) (opts : BackupOptions) (gv : string * string)
    ls rs (resources : list APIResource) :
  sameRun ls rs -> counted_files tempDir rs ->
  match collectResources ToLower TrimSpace opts gv ls resources,
        runResources ToLower TrimSpace env tempDir opts gv rs resources with
  | inr ls', inr rs' => sameRun ls' rs' /\ counted_files tempDir rs'
  | inl err, inl err' => err = err'
  | _, _ => False
  end.
Proof.
  revert ls rs. induction resources as [|r resources IH]; intros ls rs Hsame Hinv;
    simpl; [done|].
  pose proof (runResource_step env tempDir opts gv ls rs r Hsame Hinv) as Hr.
  destruct (collectResource ToLower TrimSpace opts gv ls r) as [err|ls'],
    (runResource ToLower TrimSpace env tempDir opts gv rs r) as [err'|rs']; try done.
  destruct Hr. by apply IH.
Qed.

Lemma runLists_step env (tempDir : string) (opts : BackupOptions)
    ls rs (lists : list APIResourceList) :
  sameRun ls rs -> counted_files tempDir rs ->
  match collectLists ToLower TrimSpace opts ls lists,
        runLists ToLower TrimSpace env tempDir opts rs lists with
  | inr ls', inr rs' => sameRun ls' rs' /\ counted_files tempDir rs'
  | inl err, inl err' => err = err'
  | _, _ => False
  end.
Proof.
  revert ls rs. induction lists as [|l lists IH]; intros ls rs Hsame Hinv;
    simpl; [done|].
  destruct (ParseGroupVersion (GroupVersion l)) as [gv|]; [|by apply IH].
  pose proof (runResources_step env tempDir opts gv ls rs (APIResources l) Hsame Hinv)
    as Hl.
  destruct (collectResources ToLower TrimSpace opts gv ls (APIResources l)) as [err|ls'],
    (runResources ToLower TrimSpace env tempDir opts gv rs (APIResources l))
      as [err'|rs']; try done.
  destruct Hl. by apply IH.
Qed.

End backup_files_facts.

Section backup_staged.
Variables ToLower TrimSpace : string -> string.
Context {W : Type} `{!DynamicClient W}.
Variables (env : BackupEnv) (tempDir : string) (opts : BackupOptions) (w0 : W).
Implicit Types (rs : RunState (W := W)).

Lemma stagedOfCalls_app (l1 l2 : list (GroupVersionResource * string)) (w : W) :
  stagedOfCalls env tempDir (l1 ++ l2) w
  = ((stagedOfCalls env tempDir l1 w).1
     ++ (stagedOfCalls env tempDir l2 (stagedOfCalls env tempDir l1 w).2).1,
     (stagedOfCalls env tempDir l2 (stagedOfCalls env tempDir l1 w).2).2).
Proof.
  revert w. induction l1 as [|call l1 IH]; intros w; simpl.
  - by destruct (stagedOfCalls env tempDir l2 w).
  - rewrite IH. simpl. by rewrite app_assoc.
Qed.

Lemma stageItem_exact (gvr : GroupVersionResource) (ns : string) (items : list Object)
    (acc : nat * list (string * Object)) :
  let new :=
    omap (fun item =>
            if marshalFails env (cleanResource item)
               || writeFileFails env (resourceFile tempDir gvr ns (GetName item))
            then None
            else Some (resourceFile tempDir gvr ns (GetName item), cleanResource item))
      items in
  foldl (stageItem env (resourceDir tempDir gvr ns)) acc items
  = ((acc.1 + length new)%nat, acc.2 ++ new).
Proof.
  revert acc. induction items as [|item items IH]; intros [count files]; simpl.
  - by rewrite Nat.add_0_r, app_nil_r.
  - rewrite IH. unfold stageItem. rewrite GetName_cleanResource.
    fold (resourceFile tempDir gvr ns (GetName item)).
    destruct (marshalFails env (cleanResource item)); simpl; [done|].
    destruct (writeFileFails env _); simpl; [done|].
    rewrite <- app_assoc. f_equal. by rewrite Nat.add_succ_r.
Qed.

(** A call writes the files of its answer, and counts them. *)
Lemma backupResource_exact (gvr : GroupVersionResource) (ns : string) (w : W) :
  let here := match (clientList gvr ns w).1 with
              | inl _ => []
              | inr items => stagedOfItems env tempDir gvr ns items
              end in
  (backupResource env gvr ns tempDir w).2 = (clientList gvr ns w).2
  /\ match (backupResource env gvr ns tempDir w).1 with
     | inr (count, files) => files = here /\ count = length here
     | inl _ => here = []
     end.
Proof.
  unfold backupResource, stagedOfItems.
  destruct (clientList gvr ns w) as [[err|items] w']; [done|]. simpl.
  destruct (length items =? 0)%nat eqn:Hlen.
  { apply Nat.eqb_eq, nil_length_inv in Hlen as ->. simpl. by destruct (mkdirAllFails _ _). }
  destruct (mkdirAllFails env _); [done|]. simpl. split; [done|].
  by rewrite stageItem_exact.
Qed.

Lemma runCall_fields (gvr : GroupVersionResource) (ns : string) rs :
  let here := match (clientList gvr ns (runWorld rs)).1 with
              | inl _ => []
              | inr items => stagedOfItems env tempDir gvr ns items
              end in
  runNamespaces (runCall env tempDir gvr ns rs) = runNamespaces rs
  /\ runWorld (runCall env tempDir gvr ns rs) = (clientList gvr ns (runWorld rs)).2
  /\ written (runCall env tempDir gvr ns rs) = written rs ++ here
  /\ called (runCall env tempDir gvr ns rs) = (gvr, ns) :: called rs.
Proof.
  unfold runCall.
  pose proof (backupResource_exact gvr ns (runWorld rs)) as [Hw Hres].
  destruct (backupResource env gvr ns tempDir (runWorld rs)) as [[err|[count files]] w'];
    simpl in *; subst w'.
  - by rewrite Hres, app_nil_r.
  - by destruct Hres as [-> _].
Qed.

Lemma runCall_staged (gvr : GroupVersionResource) (ns : string) rs :
  stagedRun TrimSpace env tempDir opts w0 rs ->
  stagedRun TrimSpace env tempDir opts w0 (runCall env tempDir gvr ns rs).
Proof.
  intros (before & after & w1 & w2 & Hcalls & Hw1 & Hloaded & Hworld & Hfiles).
  destruct (runCall_fields gvr ns rs) as (Hns & Hw & Hwritten & Hcalled).
  unfold stagedRun. rewrite Hns, Hw, Hwritten, Hcalled. simpl rev. rewrite Hcalls.
  destruct (runNamespaces rs) as [nss|].
  - exists before, (after ++ [(gvr, ns)]), w1, w2.
    rewrite stagedOfCalls_app. simpl. rewrite Hworld, app_nil_r, Hfiles.
    by rewrite !app_assoc.
  - destruct Hloaded as [-> ->]. simpl in *. subst.
    exists (before ++ [(gvr, ns)]), [], (clientList gvr ns (runWorld rs)).2,
      (clientList gvr ns (runWorld rs)).2.
    rewrite stagedOfCalls_app. simpl. rewrite !app_nil_r in *. rewrite Hfiles.
    by rewrite <- Hworld.
Qed.

Lemma runCalls_staged (gvr : GroupVersionResource) (nss : list string) rs :
  stagedRun TrimSpace env tempDir opts w0 rs ->
  stagedRun TrimSpace env tempDir opts w0
    (foldl (fun st ns => runCall env tempDir gvr ns st) rs nss).
Proof.
  revert rs. induction nss as [|ns nss IH]; intros rs Hinv; [done|].
  simpl. by apply IH, runCall_staged.
Qed.

Lemma runResource_staged (gv : string * string) rs rs' (r : APIResource) :
  stagedRun TrimSpace env tempDir opts w0 rs ->
  runResource ToLower TrimSpace env tempDir opts gv rs r = inr rs' ->
  stagedRun TrimSpace env tempDir opts w0 rs'.
Proof.
  intros Hinv. unfold runResource.
  destruct (GoStrings.Contains (Name r) "/"); [by intros [= <-]|].
  destruct (negb (contains (Verbs r) "list")); [by intros [= <-]|].
  destruct (_ && _); [by intros [= <-]|].
  destruct (Namespaced r).
  - assert (forall nss w,
              match runNamespaces rs with
              | Some nss' => (inr nss', runWorld rs)
              | None => getNamespacesToBackup TrimSpace opts (runWorld rs)
              end = (inr nss, w) ->
              stagedRun TrimSpace env tempDir opts w0
                (mkRunState (Some nss) w (resourceCount rs) (written rs) (called rs)))
      as Hload.
    { intros nss w Hloaded.
      destruct Hinv as (before & after & w1 & w2 & Hcalls & Hw1 & Hns & Hworld & Hfiles).
      destruct (runNamespaces rs) as [nss'|].
      - injection Hloaded as <- <-. by exists before, after, w1, w2.
      - destruct Hns as [-> ->]. simpl in Hworld. rewrite <- Hworld in Hloaded.
        by exists before, [], w1, w. }
    destruct (match runNamespaces rs with
              | Some nss' => (inr nss', runWorld rs)
              | None => getNamespacesToBackup TrimSpace opts (runWorld rs)
              end) as [[err|nss] w]; [done|].
    specialize (Hload nss w eq_refl).
    destruct (length nss =? 0)%nat; intros [= <-]; [done|].
    by apply runCalls_staged.
  - destruct (IncludeClusterResources opts); intros [= <-]; [|done].
    by apply runCall_staged.
Qed.

Lemma runResources_staged (gv : string * string) rs rs' (resources : list APIResource) :
  stagedRun TrimSpace env tempDir opts w0 rs ->
  runResources ToLower TrimSpace env tempDir opts gv rs resources = inr rs' ->
  stagedRun TrimSpace env tempDir opts w0 rs'.
Proof.
  revert rs. induction resources as [|r resources IH]; intros rs Hinv; simpl.
  - by intros [= <-].
  - destruct (runResource ToLower TrimSpace env tempDir opts gv rs r) as [err|rs1] eqn:Hr;
      [done|].
    apply IH. by eapply runResource_staged.
Qed.

Lemma runLists_staged rs rs' (lists : list APIResourceList) :
  stagedRun TrimSpace env tempDir opts w0 rs ->
  runLists ToLower TrimSpace env tempDir opts rs lists = inr rs' ->
  stagedRun TrimSpace env tempDir opts w0 rs'.
Proof.
  revert rs. induction lists as [|l lists IH]; intros rs Hinv; simpl.
  - by intros [= <-].
  - destruct (ParseGroupVersion (GroupVersion l)) as [gv|]; [|by apply IH].
    destruct (runResources ToLower TrimSpace env tempDir opts gv rs (APIResources l))
      as [err|rs1] eqn:Hl; [done|].
    apply IH. by eapply runResources_staged.
Qed.

End backup_staged.

(** [CreateBackup] with its files.  It fails for three reasons only: no
    staging directory, a failed namespace listing (exactly when the calls
    of the run fail with it), or an archive that cannot be written; a
    resource type that cannot be listed, or a file that cannot be encoded
    or written, fails nothing.  When it returns, the calls it has made are
    the calls of the run, each listing in the world the request before it
    has left, the namespaces being loaded between the calls before them
    and the calls after.  The files in the staging directory are, call by
    call and item by item, the cleaned items of the answers whose encoding
    and whose write went through, for the calls whose directory could be
    made; the count it reports is their number.  The archive is at the
    resolved destination under the name of the clock's reading, holding
    the entries of what [filepath.Walk] has reported of those files. *)
Theorem CreateBackup_counts_written_files (ToLower TrimSpace : string -> string)
    {W : Type} `{!DynamicClient W} (env : BackupEnv) (storagePath : string)
    (opts : BackupOptions) (lists : list APIResourceList) (w : W)
    (files : gmap string ArchiveFile) :
  match CreateBackup ToLower TrimSpace env storagePath opts lists w files with
  | inl TempDirFailed => mkdirTemp env = None
  | inl (NamespacesFailed err) =>
      CreateBackup_calls ToLower TrimSpace opts lists w = inl err
  | inl (ArchiveFailed _) =>
      exists calls, CreateBackup_calls ToLower TrimSpace opts lists w = inr calls
  | inr (result, w', files') =>
      exists tempDir before after w1 w2 items,
        let first := stagedOfCalls env tempDir before w in
        let second := stagedOfCalls env tempDir after w2 in
        mkdirTemp env = Some tempDir
        /\ CreateBackup_calls ToLower TrimSpace opts lists w = inr (before ++ after)
        /\ first.2 = w1
        /\ ((after = [] /\ w2 = w1)
            \/ exists nss, getNamespacesToBackup TrimSpace opts w1 = (inr nss, w2))
        /\ second.2 = w'
        /\ ResourceCount result = length (first.1 ++ second.1)
        /\ mapM (walkEntry tempDir) (walk env (first.1 ++ second.1)) = Some items
        /\ FilePath result = archivePathOf storagePath (clock env)
        /\ files' = <[FilePath result := Gzip items]> files
  end.
Proof.
  unfold CreateBackup, CreateBackup_calls.
  destruct (mkdirTemp env) as [tempDir|]; [|done].
  assert (sameRun (mkLoopState None w []) (mkRunState None w 0 [] [])) as Hsame
    by done.
  assert (counted_files tempDir (mkRunState None w 0 [] [])) as Hinv
    by (by split; [|constructor]).
  assert (stagedRun TrimSpace env tempDir opts w (mkRunState None w 0 [] [])) as Hstaged
    by (by exists [], [], w, w).
  pose proof (runLists_step ToLower TrimSpace env tempDir opts _ _ lists Hsame Hinv)
    as Hrun.
  destruct (collectLists ToLower TrimSpace opts (mkLoopState None w []) lists)
    as [err|ls],
    (runLists ToLower TrimSpace env tempDir opts (mkRunState None w 0 [] []) lists)
      as [err'|rs] eqn:Hlists; try done.
  { by rewrite Hrun. }
  destruct Hrun as [(_ & _ & Hcalls) [Hcount _]].
  apply (runLists_staged ToLower TrimSpace env tempDir opts w _ _ lists Hstaged)
    in Hlists as (before & after & w1 & w2 & Hcalled & Hw1 & Hloaded & Hworld & Hfiles).
  unfold createArchive.
  destruct (mkdirAllFails env _); [by eauto|].
  destruct (createFails env _); [by eauto|].
  destruct (mapM (walkEntry tempDir) (walk env (written rs))) as [items|] eqn:Hitems;
    [|by eauto].
  exists tempDir, before, after, w1, w2, items. simpl.
  rewrite <- Hfiles, <- Hcalled, Hcalls.
  split; [done|]. split; [done|]. split; [done|]. split; [|done].
  unfold namespacesLoaded in Hloaded. destruct (runNamespaces rs); [right|left]; eauto.
Qed.

(** ** From the staged file to the resource read back *)

Section entry_contents.
Import GoStrings Filepath.

Lemma Join_last_suffix (es : list string) (e r : string) :
  HasSuffix (GoStrings.Join (es ++ [e +:+ r]) "/") r = true.
Proof.
  assert (exists q, GoStrings.Join (es ++ [e +:+ r]) "/" = q +:+ (e +:+ r)) as [q ->].
  { induction es as [|e' es [q IH]].
    - exists "". by rewrite app_nil_str.
    - exists (e' +:+ "/" +:+ q). simpl app. unfold GoStrings.Join in *.
      destruct (es ++ [e +:+ r]) as [|e'' es'] eqn:Heq.
      + by destruct es.
      + change (String.concat "/" (e' :: e'' :: es'))
          with (e' +:+ "/" +:+ String.concat "/" (e'' :: es')).
        by rewrite IH, !app_assoc_str. }
  rewrite <- app_assoc_str. apply HasSuffix_app.
Qed.

Lemma grammarPath_json (gvr : GroupVersionResource) (namespace name : string) :
  HasSuffix (grammarPath gvr namespace name) ".json" = true.
Proof.
  unfold grammarPath, grammarElems.
  replace (_ ++ _ ++ [Version gvr; Resource gvr; name +:+ ".json"])
    with (((if decide (namespace = "") then ["cluster"] else ["namespaces"; namespace])
           ++ (if decide (Group gvr = "") then [] else [Group gvr])
           ++ [Version gvr; Resource gvr]) ++ [name +:+ ".json"])
    by (by rewrite <- !app_assoc).
  apply Join_last_suffix.
Qed.

Lemma ensureMetadata_kept (obj : Object) (name namespace : string) :
  name <> "" -> GetName obj = name ->
  namespace = "" \/ metadataField obj "namespace" = Some (JString namespace) ->
  ensureMetadata (Some obj) name namespace = Returns obj.
Proof.
  intros Hne Hname Hns. unfold ensureMetadata, GetName, metadataString, metadataField in *.
  destruct (obj !! "metadata") as [[| | | | |m]|] eqn:Hmeta; try done.
  destruct (m !! "name") as [[| | |s| |]|] eqn:Hn; try done. subst s.
  destruct (decide (name <> "")); [|done].
  rewrite decide_False by done. rewrite (insert_id m "name") by done.
  destruct (decide (namespace <> "")) as [Hset|_].
  - destruct Hns as [?|Hns]; [done|]. by rewrite (insert_id m), insert_id.
  - by rewrite insert_id.
Qed.

End entry_contents.

(** From the staged file to the resource read back.  For a staging
    directory and a coordinate with plain path elements, an item whose
    name is not empty and free of slashes, and a JSON object that carries
    the item's name and, for a namespaced call, that namespace in its
    [metadata]: [backupResource] writes the cleaned item to the item's file
    when its encoding and the write go through, and nothing otherwise; the
    callback of [createArchive] archives that file, its bytes decoding to
    the object, as a regular entry under the path of the grammar; and
    [RestoreBackup] reads the entry as a resource with the same coordinate
    and namespace whose object is the decoded object as it is.  The cleaned
    item is such an object when the item is in the namespace it was listed
    in; whether the bytes decode to it is no part of the statement. *)
Theorem staged_object_read_back (env : BackupEnv) (ds : list string)
    (gvr : GroupVersionResource) (namespace : string) (item body : Object)
    (acc : nat * list (string * Object)) :
  let tempDir := Filepath.absPath ds in
  let file := resourceFile tempDir gvr namespace (GetName item) in
  let entry := Entry true (grammarPath gvr namespace (GetName item))
                 (Bytes (Some (JObject body))) in
  forallb Filepath.isElem ds = true ->
  Filepath.isElem (Version gvr) = true -> Filepath.isElem (Resource gvr) = true ->
  Group gvr = "" \/ Filepath.isElem (Group gvr) = true ->
  namespace = "" \/ Filepath.isElem namespace = true ->
  GetName item <> "" -> GoStrings.Contains (GetName item) "/" = false ->
  GetName body = GetName item ->
  namespace = "" \/ metadataField body "namespace" = Some (JString namespace) ->
  stageItem env (resourceDir tempDir gvr namespace) acc item
    = (if marshalFails env (cleanResource item) || writeFileFails env file
       then acc
       else (S acc.1, acc.2 ++ [(file, cleanResource item)]))
  /\ walkEntry tempDir (file, WalkFile (Bytes (Some (JObject body)))) = Some entry
  /\ readEntry entry = Returns (Some (mkArchived gvr namespace body))
  /\ GetName (cleanResource item) = GetName item
  /\ (metadataField item "namespace" = Some (JString namespace) ->
      metadataField (cleanResource item) "namespace" = Some (JString namespace)).
Proof.
  intros tempDir file entry Hds Hv Hr Hg Hns Hne Hname Hbody Hmeta.
  assert (Forall (fun e => Filepath.isElem e = true) ds) as Hds'.
  { apply Forall_forall. intros e He. apply list_elem_of_In in He.
    by apply (proj1 (forallb_forall _ _) Hds). }
  split; [|split; [|split; [|split]]].
  - unfold stageItem. rewrite GetName_cleanResource.
    fold (resourceFile tempDir gvr namespace (GetName item)). fold file.
    destruct (marshalFails env (cleanResource item)); [done|].
    by destruct (writeFileFails env file).
  - unfold walkEntry. simpl.
    pose proof (archiveEntryName_grammar ds gvr namespace (GetName item)
                  Hds' Hg Hv Hr Hns Hname) as Hrel.
    unfold archiveEntryName in Hrel. fold tempDir in Hrel. fold file in Hrel.
    by rewrite Hrel.
  - unfold entry, readEntry. simpl negb. rewrite grammarPath_json. simpl negb.
    rewrite parseArchiveEntry_grammar by done. simpl unmarshalObject. cbv iota beta.
    by rewrite ensureMetadata_kept.
  - apply GetName_cleanResource.
  - intros Hitem. rewrite cleanResource_field.
    by rewrite decide_False by (unfold runtimeFields; set_solver).
Qed.

Lemma staged_object_read_back_witness :
  let env := mkBackupEnv (Some "/tmp/cluster-backup-1") (fun _ => false) (fun _ => false)
               (fun _ => false) (fun _ => false) (fun _ => [])
               (mkDateTime 2025 1 3 1 0 0) in
  let gvr := mkGVR "" "v1" "configmaps" in
  let file := "/tmp/cluster-backup-1/namespaces/default/v1/configmaps/sample-config.json" in
  let body := cleanResource listedConfigMap in
  let entry := Entry true "namespaces/default/v1/configmaps/sample-config.json"
                 (Bytes (Some (JObject body))) in
  stageItem env (resourceDir "/tmp/cluster-backup-1" gvr "default") (0%nat, [])
      listedConfigMap
    = (1%nat, [(file, cleanResource listedConfigMap)])
  /\ walkEntry "/tmp/cluster-backup-1" (file, WalkFile (Bytes (Some (JObject body))))
     = Some entry
  /\ readEntry entry = Returns (Some (mkArchived gvr "default" body))
  /\ GetName (cleanResource listedConfigMap) = GetName listedConfigMap
  /\ (metadataField listedConfigMap "namespace" = Some (JString "default") ->
      metadataField (cleanResource listedConfigMap) "namespace"
        = Some (JString "default")).
Proof.
  apply (staged_object_read_back
           (mkBackupEnv (Some "/tmp/cluster-backup-1") (fun _ => false) (fun _ => false)
              (fun _ => false) (fun _ => false) (fun _ => [])
              (mkDateTime 2025 1 3 1 0 0))
           ["tmp"; "cluster-backup-1"] (mkGVR "" "v1" "configmaps") "default"
           listedConfigMap (cleanResource listedConfigMap) (0%nat, []));
    first [ reflexivity | left; reflexivity | right; reflexivity
          | by vm_compute ].
Defined.

(** ** The controller *)

Section controller_facts.
Import v1alpha1 controllerutil controller.
Implicit Types (fs : FileSystem) (entries : gmap string DirEntry).

(** The cleanup a deletion asks for. *)
Lemma CleanupArchives_none_left (now : Z) fs (storagePath : string) entries :
  fs !! resolveStoragePath storagePath = Some (Directory entries) ->
  (forall name e, entries !! name = Some e -> isArchiveFile (name, e) -> Locked e = false) ->
  Z.of_nat (size entries) < 2 ^ 63 ->
  CleanupArchives now fs storagePath None (Some 0)
  = (Returns (),
     <[resolveStoragePath storagePath :=
         Directory (deleteAll (archiveFiles (merge_sort byName (map_to_list entries))).*1
                      entries)]> fs).
Proof.
  intros Hdir Hfree Hsize.
  pose proof (listing_size entries) as Hlen.
  pose proof (listing_removable entries Hfree) as Hunlocked.
  set (files := archiveFiles (merge_sort byName (map_to_list entries))) in *.
  unfold CleanupArchives, ReadDir. rewrite Hdir. fold files.
  destruct (0 <? Z.of_nat (length files)) eqn:Hover.
  - rewrite wrap64_small by lia.
    rewrite (removeOldest_run _ _ entries) by (done || lia).
    by rewrite Z.sub_0_r, Nat2Z.id, firstn_all.
  - apply Z.ltb_ge in Hover. destruct files; [|simpl in Hover; lia].
    simpl. by rewrite insert_id.
Qed.

End controller_facts.

(** A backup that is over is left alone.  When the object is not being
    deleted, carries the finalizer and is in the phase [Completed] or
    [Failed], [Reconcile] sends no request but the read, runs no backup and
    no cleanup, and asks to be called again in an hour when the spec has a
    schedule, whatever the schedule says, and not at all otherwise. *)
Theorem Reconcile_leaves_finished_backup {C B BackupErr : Type}
    (Get : C -> (controller.ClientError + v1alpha1.ClusterBackup) * C)
    (Update StatusUpdate :
       v1alpha1.ClusterBackup -> C -> (controller.ClientError + v1alpha1.ClusterBackup) * C)
    (CreateBackup : string -> BackupOptions -> B -> FileSystem ->
                    (BackupErr + BackupResult) * B * FileSystem)
    (errorText : BackupErr -> string) (ParseDuration : string -> option Z)
    (clock : controller.Clock) (c c' : C) (b : B) (fs : FileSystem)
    (clusterBackup : v1alpha1.ClusterBackup) :
  Get c = (inr clusterBackup, c') ->
  controller.IsZero (v1alpha1.DeletionTimestamp clusterBackup) = true ->
  controller.backupFinalizer ∈ v1alpha1.Finalizers clusterBackup ->
  v1alpha1.Phase (v1alpha1.Status clusterBackup) = "Completed"
  \/ v1alpha1.Phase (v1alpha1.Status clusterBackup) = "Failed" ->
  controller.Reconcile Get Update StatusUpdate CreateBackup errorText ParseDuration clock
    c b fs
  = (Returns (controller.mkResult
                (if decide (v1alpha1.Schedule (v1alpha1.Spec clusterBackup) = "")
                 then 0 else controller.Hour)),
     c', b, fs).
Proof.
  intros Hget Hzero Hfinalizer Hphase. unfold controller.Reconcile.
  rewrite Hget, Hzero. simpl negb. cbv iota.
  assert (controllerutil.ContainsFinalizer clusterBackup controller.backupFinalizer = true)
    as ->.
  { apply existsb_exists. exists controller.backupFinalizer.
    split; [by apply list_elem_of_In|apply String.eqb_refl]. }
  simpl negb. cbv iota beta zeta.
  assert (String.eqb (v1alpha1.Phase (v1alpha1.Status clusterBackup)) "Completed"
          || String.eqb (v1alpha1.Phase (v1alpha1.Status clusterBackup)) "Failed" = true)
    as ->.
  { by destruct Hphase as [-> | ->]. }
  destruct (decide (v1alpha1.Schedule (v1alpha1.Spec clusterBackup) = "")) as [->|Hne];
    [done|].
  by rewrite (proj2 (String.eqb_neq _ _) Hne).
Qed.

Lemma Reconcile_leaves_finished_backup_witness :
  controller.Reconcile (fun c : unit => (inr finishedBackup, c))
    (fun o c => (inr o, c)) (fun o c => (inr o, c))
    (fun _ _ (b : unit) fs => (inl "no discovery", b, fs)) id (fun _ => None)
    (controller.mkClock 0 0 0 0 0) () () {[ "/backups" := Directory testArchives ]}
  = (Returns (controller.mkResult controller.Hour), (), (),
     {[ "/backups" := Directory testArchives ]}).
Proof.
  apply (Reconcile_leaves_finished_backup (fun c : unit => (inr finishedBackup, c))
           (fun o c => (inr o, c)) (fun o c => (inr o, c))
           (fun _ _ (b : unit) fs => (inl "no discovery", b, fs)) id (fun _ => None)
           (controller.mkClock 0 0 0 0 0) () () ()
           {[ "/backups" := Directory testArchives ]} finishedBackup).
  - reflexivity.
  - reflexivity.
  - by left.
  - by left.
Defined.

(** Deleting a [ClusterBackup] that asks for it empties the destination of
    archives.  When the resolved storage directory exists and [os.Remove]
    is refused for none of its archive files, then, with the finalizer on
    the object and [DeleteOnDelete] set, [handleDeletion] removes every
    archive file of the directory, whichever backup has written it, and no
    other entry; it then takes the finalizer off and sends the update,
    whose error is the only one it returns. *)
Theorem handleDeletion_removes_every_archive {C B BackupErr : Type}
    (Update :
       v1alpha1.ClusterBackup -> C -> (controller.ClientError + v1alpha1.ClusterBackup) * C)
    (clock : controller.Clock) (c : C) (b : B) (fs : FileSystem)
    (clusterBackup : v1alpha1.ClusterBackup) (entries : gmap string DirEntry) :
  let storagePath := v1alpha1.StoragePath (v1alpha1.Spec clusterBackup) in
  controller.backupFinalizer ∈ v1alpha1.Finalizers clusterBackup ->
  v1alpha1.DeleteOnDelete (v1alpha1.Spec clusterBackup) = Some true ->
  fs !! resolveStoragePath storagePath = Some (Directory entries) ->
  (forall name e, entries !! name = Some e -> isArchiveFile (name, e) -> Locked e = false) ->
  Z.of_nat (size entries) < 2 ^ 63 ->
  exists (kept : gmap string DirEntry) (released : v1alpha1.ClusterBackup),
    controller.handleDeletion (BackupErr := BackupErr) Update clock clusterBackup c b fs
    = (match (Update released c).1 with
       | inl err => Fails (controller.ClientFailed err)
       | inr _ => Returns (controller.mkResult 0)
       end,
       (Update released c).2, b, <[resolveStoragePath storagePath := Directory kept]> fs)
    /\ (forall name e,
          kept !! name = Some e
          <-> entries !! name = Some e /\ ~ isArchiveFile (name, e))
    /\ (controller.backupFinalizer ∉ v1alpha1.Finalizers released)
    /\ (forall f, f <> controller.backupFinalizer ->
          f ∈ v1alpha1.Finalizers released <-> f ∈ v1alpha1.Finalizers clusterBackup)
    /\ v1alpha1.Spec released = v1alpha1.Spec clusterBackup
    /\ v1alpha1.Status released = v1alpha1.Status clusterBackup.
Proof.
  intros storagePath Hfinalizer Hdelete Hdir Hfree Hsize.
  exists (deleteAll (archiveFiles (merge_sort byName (map_to_list entries))).*1 entries),
    (controllerutil.RemoveFinalizer clusterBackup controller.backupFinalizer).
  split; [|split; [|split; [|split]]].
  - unfold controller.handleDeletion.
    assert (controllerutil.ContainsFinalizer clusterBackup controller.backupFinalizer = true)
      as ->.
    { apply existsb_exists. exists controller.backupFinalizer.
      split; [by apply list_elem_of_In|apply String.eqb_refl]. }
    rewrite Hdelete. fold storagePath.
    rewrite (CleanupArchives_none_left _ _ _ entries) by done.
    by destruct (Update _ c) as [[err|released] c'].
  - intros name e. apply listing_gone.
  - simpl. rewrite list_elem_of_filter. tauto.
  - intros f Hf. simpl. rewrite list_elem_of_filter. tauto.
  - done.
Qed.

Lemma handleDeletion_removes_every_archive_witness :
  exists (kept : gmap string DirEntry) (released : v1alpha1.ClusterBackup),
    controller.handleDeletion (BackupErr := string) (fun o (c : unit) => (inr o, c))
      (controller.mkClock 0 0 0 0 testNow) finishedBackup () ()
      {[ "/backups" := Directory testArchives ]}
    = (match ((fun o (c : unit) => (inr o, c)) released ()).1 with
       | inl err => Fails (controller.ClientFailed err)
       | inr _ => Returns (controller.mkResult 0)
       end,
       ((fun o (c : unit) => (@inr controller.ClientError _ o, c)) released ()).2, (),
       <[resolveStoragePath "/backups" := Directory kept]>
         {[ "/backups" := Directory testArchives ]})
    /\ (forall name e,
          kept !! name = Some e
          <-> testArchives !! name = Some e /\ ~ isArchiveFile (name, e))
    /\ (controller.backupFinalizer ∉ v1alpha1.Finalizers released)
    /\ (forall f, f <> controller.backupFinalizer ->
          f ∈ v1alpha1.Finalizers released <-> f ∈ v1alpha1.Finalizers finishedBackup)
    /\ v1alpha1.Spec released = v1alpha1.Spec finishedBackup
    /\ v1alpha1.Status released = v1alpha1.Status finishedBackup.
Proof.
  apply (handleDeletion_removes_every_archive (BackupErr := string)
           (fun o (c : unit) => (inr o, c)) (controller.mkClock 0 0 0 0 testNow) () ()
           {[ "/backups" := Directory testArchives ]} finishedBackup testArchives).
  - by left.
  - reflexivity.
  - reflexivity.
  - intros name e He _. revert name e He.
    apply (bool_decide_unpack (map_Forall (fun _ e => Locked e = false) testArchives)).
    vm_compute. exact I.
  - vm_compute. reflexivity.
Defined.
